(** * Shape-Out 2 analysis pipeline ([shapeout2/pipeline/core.py])

    A shallow embedding of the [Pipeline] class: the slot, filter and plot
    lists, the "used" lists, the element-state (enablement) dictionary, the
    serialised state handling and the analysis matrix with its incremental
    rebuild, followed by the properties of these operations.

    Python objects that are mutated in place and can be reached through
    several references (the rows of the matrix and the dataset objects in
    them) live in explicit object stores; everything else is a value. *)

From Stdlib Require Import ZArith.
From stdpp Require Import gmap strings list fin_maps pretty.

Open Scope Z_scope.
Open Scope nat_scope.

(** ** Python list primitives *)

Module Py.

(** [l[i]] with Python's negative indices; [None] is [IndexError]. *)
Definition getitem {A} (l : list A) (i : Z) : option A :=
  if (0 <=? i)%Z then l !! Z.to_nat i
  else if (- Z.of_nat (length l) <=? i)%Z
       then l !! Z.to_nat (Z.of_nat (length l) + i)
       else None.

(** [l.insert(i, x)]: the index is clipped to the list, negative
    indices count from the end. *)
Definition list_insert {A} (i : Z) (x : A) (l : list A) : list A :=
  let n := Z.of_nat (length l) in
  let k := if (i <? 0)%Z then Z.max 0 (n + i) else Z.min i n in
  take (Z.to_nat k) l ++ x :: drop (Z.to_nat k) l.

(** [l.index(x)]; [None] is [ValueError]. *)
Fixpoint list_index `{EqDecision A} (x : A) (l : list A) : option nat :=
  match l with
  | [] => None
  | y :: l' => if decide (y = x) then Some 0 else S <$> list_index x l'
  end.

(** [l.pop(i)] for an index in range (the popped value is dropped). *)
Definition list_pop {A} (i : nat) (l : list A) : list A :=
  take i l ++ drop (S i) l.

(** [l.remove(x)] for an [x] known to be in [l]: first occurrence. *)
Fixpoint list_remove `{EqDecision A} (x : A) (l : list A) : list A :=
  match l with
  | [] => []
  | y :: l' => if decide (y = x) then l' else y :: list_remove x l'
  end.

(** [x in l] *)
Definition contains `{EqDecision A} (x : A) (l : list A) : bool :=
  bool_decide (x ∈ l).

(** Default for an optional [index] argument. *)
Definition index_or_len {A} (index : option Z) (l : list A) : Z :=
  match index with Some i => i | None => Z.of_nat (length l) end.

End Py.

(** ** Exceptions and results *)

Inductive exn := ValueError | KeyError | IndexError | AttributeError.

(** A call either returns a value or raises; in both cases the mutations
    done so far stay in the state. *)
Inductive result (S A : Type) :=
| Ok (a : A) (s : S)
| Raise (e : exn) (s : S).
Arguments Ok {S A} a s.
Arguments Raise {S A} e s.

Definition state_of {S A} (r : result S A) : S :=
  match r with Ok _ s => s | Raise _ s => s end.

Definition returned {S A} (r : result S A) : option A :=
  match r with Ok a _ => Some a | Raise _ _ => None end.

(** ** Calls as state transformers that may raise *)

Definition M (S A : Type) : Type := S → result S A.

Definition ret {S A} (a : A) : M S A := λ p, Ok a p.

Definition bind {S A B} (c : M S A) (k : A → M S B) : M S B :=
  λ p, match c p with
       | Ok a p' => k a p'
       | Raise e p' => Raise e p'
       end.

Definition raise {S A} (e : exn) : M S A := λ p, Raise e p.

(** read the state *)
Definition gets {S A} (f : S → A) : M S A := λ p, Ok (f p) p.

(** mutate the state *)
Definition modify {S} (f : S → S) : M S unit := λ p, Ok tt (f p).

(** a lookup that raises [e] when it fails *)
Definition expect {S A} (e : exn) (o : option A) : M S A :=
  match o with Some a => ret a | None => raise e end.

Notation "'let*' x := c 'in' k" := (bind c (λ x, k))
  (at level 10, x pattern, c at level 100, k at level 200, only parsing).
Notation "c ;; k" := (bind c (λ _, k))
  (at level 100, k at level 200, right associativity, only parsing).

(** [for x in l: body(x)] *)
Fixpoint for_each {S A} (body : A → M S unit) (l : list A) : M S unit :=
  match l with
  | [] => ret tt
  | x :: l' => body x ;; for_each body l'
  end.

(** ** What the pipeline takes from its collaborators *)

Definition ident := string.

(** The parts of the package that [core.py] imports but that are not
    among the sources: the opaque configuration types of the three
    entity classes, [meta_tool.get_rtdc_features], [util.hashobj] (with
    the value that stands for the initial string ["None"] of
    [_matrix_hash]), the no-argument constructors, and the identifier
    that [dclab] mints for a hierarchy child. *)
Class Env := {
  FilterCfg : Type;
  PlotCfg : Type;
  SlotCfg : Type;
  Features : Type;
  Hash : Type;
  FilterCfg_eq :: EqDecision FilterCfg;
  PlotCfg_eq :: EqDecision PlotCfg;
  SlotCfg_eq :: EqDecision SlotCfg;
  Features_eq :: EqDecision Features;
  Hash_eq :: EqDecision Hash;
  get_rtdc_features : string → Features;
  hashobj : list ident → list ident → Hash;
  hash_None : Hash;
  hierarchy_identifier : nat → ident;
  (** what [Filter()], [Plot()] and [Dataslot(path=...)] create: the
      identifier and the remaining fields of the new instance *)
  Filter_init : ident * bool * FilterCfg;
  Plot_init : ident * PlotCfg;
  Dataslot_init : string → ident * string * SlotCfg;
}.

(** [util.hashobj] is used as if it had no collisions and never produced
    the initial value. *)
Definition collision_free `{Env} : Prop :=
  (∀ s f s' f', hashobj s f = hashobj s' f' → s = s' ∧ f = f')
  ∧ (∀ s f, hashobj s f ≠ hash_None).

(** ** Arguments that name an entity *)

(** An entity is handed over as an instance or as a state dictionary.  A
    state dictionary is resolved through the class registry
    ([_instances], in the entity classes) to the live instance with that
    identifier, or else to a new one, and the state is then loaded into
    it: either way the result is an instance holding exactly that state,
    and instances are values here. *)
Inductive Given (A : Type) :=
| Instance (a : A)
| StateDict (st : A).
Arguments Instance {A} a.
Arguments StateDict {A} st.

Definition resolve {A} (g : Given A) : A :=
  match g with Instance a => a | StateDict st => st end.

Section pipeline.
Context `{env : Env}.

(** ** Entities *)

(** Modelled from the spec: the class [Filter] of [pipeline/filter.py],
    which is not among the sources: an identifier, the enabled flag and
    the remaining parameter configuration (box, polygon, downsampling). *)
Record Filter := mkFilter {
  f_identifier : ident;
  f_enabled : bool;
  f_config : FilterCfg;
}.

(** Modelled from the spec: the class [Plot] of [pipeline/plot.py]. *)
Record Plot := mkPlot {
  p_identifier : ident;
  p_config : PlotCfg;
}.

(** Modelled from the spec: the class [Dataslot] of
    [pipeline/dataslot.py]: identifier, source path, display colour and
    the dataset-level configuration overrides. *)
Record Dataslot := mkDataslot {
  s_identifier : ident;
  s_path : string;
  s_color : string;
  s_config : SlotCfg;
}.

#[global] Instance Filter_eq_dec : EqDecision Filter.
Proof. solve_decision. Defined.
#[global] Instance Plot_eq_dec : EqDecision Plot.
Proof. solve_decision. Defined.
#[global] Instance Dataslot_eq_dec : EqDecision Dataslot.
Proof. solve_decision. Defined.

(** ** Datasets *)

(** The configuration block of a dataset as far as the pipeline writes
    it: the constraints last pushed by a filter, the
    [config["filtering"]["enable filters"]] flag and the overrides last
    applied by a slot. *)
Record DsConfig := mkDsConfig {
  filtering : option FilterCfg;
  enable_filters : bool;
  overrides : option SlotCfg;
}.

#[global] Instance DsConfig_eq_dec : EqDecision DsConfig.
Proof. solve_decision. Defined.

(** A freshly created dataset has [dclab]'s default configuration. *)
Definition default_config : DsConfig :=
  {| filtering := None; enable_filters := true; overrides := None |}.

(** A dataset is a raw measurement or a hierarchy child holding a
    reference to its parent. *)
Inductive Origin :=
| Raw (path : string)
| Hierarchy (hparent : nat).

#[global] Instance Origin_eq_dec : EqDecision Origin.
Proof. solve_decision. Defined.

Record Dataset := mkDataset {
  ds_identifier : ident;
  ds_origin : Origin;
  ds_config : DsConfig;
  (** the configuration for which [apply_filter] last computed the mask *)
  ds_mask : option DsConfig;
}.

#[global] Instance Dataset_eq_dec : EqDecision Dataset.
Proof. solve_decision. Defined.

(** Modelled from the spec: [Filter.update_dataset] pushes the filter's
    current parameter configuration onto the dataset. *)
Definition Filter_update_dataset (filt : Filter) (c : DsConfig) : DsConfig :=
  {| filtering := Some (f_config filt);
     enable_filters := f_enabled filt;
     overrides := overrides c |}.

(** [ds.config["filtering"]["enable filters"] = False] *)
Definition disable_filters (c : DsConfig) : DsConfig :=
  {| filtering := filtering c;
     enable_filters := false;
     overrides := overrides c |}.

(** Modelled from the spec: [Dataslot.update_dataset] applies the slot's
    configuration overrides to the dataset. *)
Definition Dataslot_update_dataset (slot : Dataslot) (c : DsConfig) : DsConfig :=
  {| filtering := filtering c;
     enable_filters := enable_filters c;
     overrides := Some (s_config slot) |}.

Definition set_config (f : DsConfig → DsConfig) (d : Dataset) : Dataset :=
  {| ds_identifier := ds_identifier d;
     ds_origin := ds_origin d;
     ds_config := f (ds_config d);
     ds_mask := ds_mask d |}.

(** Modelled from the spec: [apply_filter] forces the mask computation
    for the configuration the dataset has at that moment. *)
Definition compute_mask (d : Dataset) : Dataset :=
  {| ds_identifier := ds_identifier d;
     ds_origin := ds_origin d;
     ds_config := ds_config d;
     ds_mask := Some (ds_config d) |}.

(** ** Serialised state *)

Record State := mkState {
  st_elements : gmap ident (gmap ident bool);
  st_filters : list Filter;
  st_filters_used : list ident;
  st_plots : list Plot;
  st_slots : list Dataslot;
  st_slots_used : list ident;
}.

#[global] Instance State_eq_dec : EqDecision State.
Proof. solve_decision. Defined.

(** The object kept in [_old_state].  [__setstate__] stores three
    sub-objects of it in the pipeline without copying them, so later
    in-place mutations of the pipeline's attribute show through; the
    flags say for which attributes that sharing is in place. *)
Record OldState := mkOldState {
  os_state : State;
  os_filters_used_shared : bool;
  os_slots_used_shared : bool;
  os_elements_shared : bool;
}.

(** ** The pipeline *)

Record Pipeline := mkPipeline {
  filters : list Filter;
  filters_used : list ident;
  plots : list Plot;
  slots : list Dataslot;
  slots_used : list ident;
  element_states : gmap ident (gmap ident bool);
  (** references to row objects *)
  matrix : list nat;
  _matrix_hash : Hash;
  _matrix_slots : list ident;
  _matrix_filters : list ident;
  _old_state : option OldState;
  (** object store: the datasets created so far *)
  datasets : list Dataset;
  (** object store: the row lists created so far *)
  rowobjs : list (list nat);
}.

(** Attribute assignment [self.x = v]. *)

Definition set_filters (v : list Filter) (p : Pipeline) : Pipeline :=
  {| filters := v;
     filters_used := filters_used p;
     plots := plots p;
     slots := slots p;
     slots_used := slots_used p;
     element_states := element_states p;
     matrix := matrix p;
     _matrix_hash := _matrix_hash p;
     _matrix_slots := _matrix_slots p;
     _matrix_filters := _matrix_filters p;
     _old_state := _old_state p;
     datasets := datasets p;
     rowobjs := rowobjs p |}.

Definition set_filters_used (v : list ident) (p : Pipeline) : Pipeline :=
  {| filters := filters p;
     filters_used := v;
     plots := plots p;
     slots := slots p;
     slots_used := slots_used p;
     element_states := element_states p;
     matrix := matrix p;
     _matrix_hash := _matrix_hash p;
     _matrix_slots := _matrix_slots p;
     _matrix_filters := _matrix_filters p;
     _old_state := _old_state p;
     datasets := datasets p;
     rowobjs := rowobjs p |}.

Definition set_plots (v : list Plot) (p : Pipeline) : Pipeline :=
  {| filters := filters p;
     filters_used := filters_used p;
     plots := v;
     slots := slots p;
     slots_used := slots_used p;
     element_states := element_states p;
     matrix := matrix p;
     _matrix_hash := _matrix_hash p;
     _matrix_slots := _matrix_slots p;
     _matrix_filters := _matrix_filters p;
     _old_state := _old_state p;
     datasets := datasets p;
     rowobjs := rowobjs p |}.

Definition set_slots (v : list Dataslot) (p : Pipeline) : Pipeline :=
  {| filters := filters p;
     filters_used := filters_used p;
     plots := plots p;
     slots := v;
     slots_used := slots_used p;
     element_states := element_states p;
     matrix := matrix p;
     _matrix_hash := _matrix_hash p;
     _matrix_slots := _matrix_slots p;
     _matrix_filters := _matrix_filters p;
     _old_state := _old_state p;
     datasets := datasets p;
     rowobjs := rowobjs p |}.

Definition set_slots_used (v : list ident) (p : Pipeline) : Pipeline :=
  {| filters := filters p;
     filters_used := filters_used p;
     plots := plots p;
     slots := slots p;
     slots_used := v;
     element_states := element_states p;
     matrix := matrix p;
     _matrix_hash := _matrix_hash p;
     _matrix_slots := _matrix_slots p;
     _matrix_filters := _matrix_filters p;
     _old_state := _old_state p;
     datasets := datasets p;
     rowobjs := rowobjs p |}.

Definition set_element_states (v : gmap ident (gmap ident bool)) (p : Pipeline) : Pipeline :=
  {| filters := filters p;
     filters_used := filters_used p;
     plots := plots p;
     slots := slots p;
     slots_used := slots_used p;
     element_states := v;
     matrix := matrix p;
     _matrix_hash := _matrix_hash p;
     _matrix_slots := _matrix_slots p;
     _matrix_filters := _matrix_filters p;
     _old_state := _old_state p;
     datasets := datasets p;
     rowobjs := rowobjs p |}.

Definition set_matrix (v : list nat) (p : Pipeline) : Pipeline :=
  {| filters := filters p;
     filters_used := filters_used p;
     plots := plots p;
     slots := slots p;
     slots_used := slots_used p;
     element_states := element_states p;
     matrix := v;
     _matrix_hash := _matrix_hash p;
     _matrix_slots := _matrix_slots p;
     _matrix_filters := _matrix_filters p;
     _old_state := _old_state p;
     datasets := datasets p;
     rowobjs := rowobjs p |}.

Definition set_matrix_hash (v : Hash) (p : Pipeline) : Pipeline :=
  {| filters := filters p;
     filters_used := filters_used p;
     plots := plots p;
     slots := slots p;
     slots_used := slots_used p;
     element_states := element_states p;
     matrix := matrix p;
     _matrix_hash := v;
     _matrix_slots := _matrix_slots p;
     _matrix_filters := _matrix_filters p;
     _old_state := _old_state p;
     datasets := datasets p;
     rowobjs := rowobjs p |}.

Definition set_matrix_slots (v : list ident) (p : Pipeline) : Pipeline :=
  {| filters := filters p;
     filters_used := filters_used p;
     plots := plots p;
     slots := slots p;
     slots_used := slots_used p;
     element_states := element_states p;
     matrix := matrix p;
     _matrix_hash := _matrix_hash p;
     _matrix_slots := v;
     _matrix_filters := _matrix_filters p;
     _old_state := _old_state p;
     datasets := datasets p;
     rowobjs := rowobjs p |}.

Definition set_matrix_filters (v : list ident) (p : Pipeline) : Pipeline :=
  {| filters := filters p;
     filters_used := filters_used p;
     plots := plots p;
     slots := slots p;
     slots_used := slots_used p;
     element_states := element_states p;
     matrix := matrix p;
     _matrix_hash := _matrix_hash p;
     _matrix_slots := _matrix_slots p;
     _matrix_filters := v;
     _old_state := _old_state p;
     datasets := datasets p;
     rowobjs := rowobjs p |}.

Definition set_old_state (v : option OldState) (p : Pipeline) : Pipeline :=
  {| filters := filters p;
     filters_used := filters_used p;
     plots := plots p;
     slots := slots p;
     slots_used := slots_used p;
     element_states := element_states p;
     matrix := matrix p;
     _matrix_hash := _matrix_hash p;
     _matrix_slots := _matrix_slots p;
     _matrix_filters := _matrix_filters p;
     _old_state := v;
     datasets := datasets p;
     rowobjs := rowobjs p |}.

Definition set_datasets (v : list Dataset) (p : Pipeline) : Pipeline :=
  {| filters := filters p;
     filters_used := filters_used p;
     plots := plots p;
     slots := slots p;
     slots_used := slots_used p;
     element_states := element_states p;
     matrix := matrix p;
     _matrix_hash := _matrix_hash p;
     _matrix_slots := _matrix_slots p;
     _matrix_filters := _matrix_filters p;
     _old_state := _old_state p;
     datasets := v;
     rowobjs := rowobjs p |}.

Definition set_rowobjs (v : list (list nat)) (p : Pipeline) : Pipeline :=
  {| filters := filters p;
     filters_used := filters_used p;
     plots := plots p;
     slots := slots p;
     slots_used := slots_used p;
     element_states := element_states p;
     matrix := matrix p;
     _matrix_hash := _matrix_hash p;
     _matrix_slots := _matrix_slots p;
     _matrix_filters := _matrix_filters p;
     _old_state := _old_state p;
     datasets := datasets p;
     rowobjs := v |}.

(** ** Calls on the pipeline *)

Definition new_Filter : Filter :=
  let '(i, e, c) := Filter_init in mkFilter i e c.

Definition new_Plot : Plot :=
  let '(i, c) := Plot_init in mkPlot i c.

Definition new_Dataslot (path : string) : Dataslot :=
  let '(i, col, c) := Dataslot_init path in mkDataslot i path col c.

(** ** Properties *)

Definition filter_ids (p : Pipeline) : list ident := f_identifier <$> filters p.
Definition plot_ids (p : Pipeline) : list ident := p_identifier <$> plots p.
Definition slot_ids (p : Pipeline) : list ident := s_identifier <$> slots p.

Definition num_filters (p : Pipeline) : nat := length (filters p).
Definition num_plots (p : Pipeline) : nat := length (filters p).
Definition num_slots (p : Pipeline) : nat := length (slots p).

Definition paths (p : Pipeline) : list string := s_path <$> slots p.

(** ** reset *)

Definition reset : M Pipeline unit :=
  modify (set_filters []) ;;
  modify (set_filters_used []) ;;
  modify (set_plots []) ;;
  modify (set_slots []) ;;
  modify (set_slots_used []) ;;
  modify (set_element_states ∅).

(** ** Adding entities *)

(** [self.element_states[slot_id][elem_id] = False] *)
Definition set_element_False (slot_id elem_id : ident) : M Pipeline unit :=
  let* es := gets element_states in
  let* row := expect KeyError (es !! slot_id) in
  modify (set_element_states (<[slot_id := <[elem_id := false]> row]> es)).

Definition add_filter (filt : option (Given Filter)) (index : option Z) : M Pipeline ident :=
  let* fs := gets filters in
  let index := Py.index_or_len index fs in
  let filt := match filt with None => new_Filter | Some g => resolve g end in
  modify (set_filters (Py.list_insert index filt fs)) ;;
  let filt_id := f_identifier filt in
  let* sids := gets slot_ids in
  for_each (λ slot_id, set_element_False slot_id filt_id) sids ;;
  let* fu := gets filters_used in
  modify (set_filters_used (fu ++ [filt_id])) ;;
  ret filt_id.

Definition add_plot (plot : option (Given Plot)) (index : option Z) : M Pipeline ident :=
  let* ps := gets plots in
  let index := Py.index_or_len index ps in
  let plot := match plot with None => new_Plot | Some g => resolve g end in
  modify (set_plots (Py.list_insert index plot ps)) ;;
  let plot_id := p_identifier plot in
  let* sids := gets slot_ids in
  for_each (λ slot_id, set_element_False slot_id plot_id) sids ;;
  ret (p_identifier plot).

Definition add_slot (slot : option (Given Dataslot)) (path : option string)
    (index : option Z) : M Pipeline ident :=
  let* ss := gets slots in
  let index := Py.index_or_len index ss in
  let* slot :=
    match slot, path with
    | None, None | Some _, Some _ => raise ValueError
    | None, Some path => ret (new_Dataslot path)
    | Some g, None => ret (resolve g)
    end in
  modify (set_slots (Py.list_insert index slot ss)) ;;
  let slot_id := s_identifier slot in
  let* es := gets element_states in
  modify (set_element_states (<[slot_id := ∅]> es)) ;;
  let* fids := gets filter_ids in
  for_each (λ filt_id, set_element_False slot_id filt_id) fids ;;
  let* su := gets slots_used in
  modify (set_slots_used (su ++ [slot_id])) ;;
  (* check that the features are all the same *)
  let* ss := gets slots in
  let* s0 := expect IndexError (Py.getitem ss 0) in
  let f0 := get_rtdc_features (s_path s0) in
  let fi := get_rtdc_features (s_path slot) in
  if decide (f0 = fi) then ret (s_identifier slot) else raise ValueError.

(** ** Removing entities *)

Definition remove_filter (filt_id : ident) : M Pipeline unit :=
  let* fids := gets filter_ids in
  let* index := expect ValueError (Py.list_index filt_id fids) in
  let* fs := gets filters in
  modify (set_filters (Py.list_pop index fs)) ;;
  let* fu := gets filters_used in
  (if Py.contains filt_id fu
   then modify (set_filters_used (Py.list_remove filt_id fu))
   else ret tt) ;;
  let* es := gets element_states in
  modify (set_element_states (delete filt_id <$> es)).

Definition remove_plot (plot_id : ident) : M Pipeline unit :=
  let* pids := gets plot_ids in
  let* index := expect ValueError (Py.list_index plot_id pids) in
  let* ps := gets plots in
  modify (set_plots (Py.list_pop index ps)) ;;
  let* es := gets element_states in
  modify (set_element_states (delete plot_id <$> es)).

(** The body looks the identifier up among the filters, pops a filter,
    and then reads [self.plots_used], an attribute that no method ever
    sets: reading it raises [AttributeError]. *)
Definition remove_slot (slot_id : ident) : M Pipeline unit :=
  let* fids := gets filter_ids in
  let* index := expect ValueError (Py.list_index slot_id fids) in
  let* fs := gets filters in
  modify (set_filters (Py.list_pop index fs)) ;;
  raise AttributeError.

(** ** Serialised state *)

Definition __getstate__ (p : Pipeline) : State :=
  {| st_elements := element_states p;
     st_filters := filters p;
     st_filters_used := filters_used p;
     st_plots := plots p;
     st_slots := slots p;
     st_slots_used := slots_used p |}.

(** The value that [self._old_state] has now: the sub-objects it shares
    with the pipeline are read from the pipeline. *)
Definition old_state_value (p : Pipeline) : option State :=
  o ← _old_state p;
  Some {| st_elements :=
            if os_elements_shared o then element_states p
            else st_elements (os_state o);
          st_filters := st_filters (os_state o);
          st_filters_used :=
            if os_filters_used_shared o then filters_used p
            else st_filters_used (os_state o);
          st_plots := st_plots (os_state o);
          st_slots := st_slots (os_state o);
          st_slots_used :=
            if os_slots_used_shared o then slots_used p
            else st_slots_used (os_state o) |}.

(** [self.x = state[...]] for the three sub-objects stored without a
    copy: from now on [_old_state] and the attribute are one object. *)
Definition share_filters_used (p : Pipeline) : Pipeline :=
  set_old_state
    ((λ o, mkOldState (os_state o) true (os_slots_used_shared o)
             (os_elements_shared o)) <$> _old_state p)
    (set_filters_used (default [] (st_filters_used ∘ os_state <$> _old_state p)) p).

Definition share_slots_used (p : Pipeline) : Pipeline :=
  set_old_state
    ((λ o, mkOldState (os_state o) (os_filters_used_shared o) true
             (os_elements_shared o)) <$> _old_state p)
    (set_slots_used (default [] (st_slots_used ∘ os_state <$> _old_state p)) p).

Definition share_elements (p : Pipeline) : Pipeline :=
  set_old_state
    ((λ o, mkOldState (os_state o) (os_filters_used_shared o)
             (os_slots_used_shared o) true) <$> _old_state p)
    (set_element_states (default ∅ (st_elements ∘ os_state <$> _old_state p)) p).

Definition __setstate__ (state : State) : M Pipeline unit :=
  let* old := gets old_state_value in
  if decide (old = Some state) then
    (* Nothing changed *)
    ret tt
  else
    modify (set_old_state (Some (mkOldState state false false false))) ;;
    reset ;;
    for_each (λ filt_state, add_filter (Some (StateDict filt_state)) None ;; ret tt)
             (st_filters state) ;;
    modify share_filters_used ;;
    for_each (λ plot_state, add_plot (Some (StateDict plot_state)) None ;; ret tt)
             (st_plots state) ;;
    for_each (λ slot_state, add_slot (Some (StateDict slot_state)) None None ;; ret tt)
             (st_slots state) ;;
    modify share_slots_used ;;
    (* set element states at the end *)
    modify share_elements.

(** ** The object stores *)

#[global] Instance Dataset_inhabited : Inhabited Dataset :=
  populate (mkDataset "" (Raw "") default_config None).

(** [dclab.new_dataset(path, identifier=identifier)] *)
Definition new_dataset (path : string) (identifier : ident) : M Pipeline nat :=
  let* ds := gets datasets in
  modify (set_datasets (ds ++ [mkDataset identifier (Raw path) default_config None])) ;;
  ret (length ds).

(** [RTDC_Hierarchy(hparent=hparent, apply_filter=False)] *)
Definition RTDC_Hierarchy (hparent : nat) : M Pipeline nat :=
  let* ds := gets datasets in
  let c := length ds in
  modify (set_datasets
            (ds ++ [mkDataset (hierarchy_identifier c) (Hierarchy hparent)
                      default_config None])) ;;
  ret c.

(** update the dataset object behind a reference in place *)
Definition update_dataset (c : nat) (f : Dataset → Dataset) : M Pipeline unit :=
  let* ds := gets datasets in
  modify (set_datasets (alter f c ds)).

(** a new list object [[c]] *)
Definition new_row (cells : list nat) : M Pipeline nat :=
  let* rs := gets rowobjs in
  modify (set_rowobjs (rs ++ [cells])) ;;
  ret (length rs).

(** the list behind a row reference *)
Definition row_cells (r : nat) (p : Pipeline) : list nat := rowobjs p !!! r.

(** [row.append(c)] *)
Definition row_append (r c : nat) : M Pipeline unit :=
  let* rs := gets rowobjs in
  modify (set_rowobjs (alter (λ row, row ++ [c]) r rs)).

(** ** construct_matrix *)

(** [for _ in fs: ds = RTDC_Hierarchy(hparent=ds); row.append(ds)] *)
Fixpoint chain_children {A} (r ds : nat) (fs : list A) : M Pipeline unit :=
  match fs with
  | [] => ret tt
  | _ :: fs' =>
      let* ds' := RTDC_Hierarchy ds in
      row_append r ds' ;;
      chain_children r ds' fs'
  end.

(** [for _ in fs: ds = RTDC_Hierarchy(hparent=row[-1]); row.append(ds)] *)
Fixpoint extend_row {A} (r : nat) (fs : list A) : M Pipeline unit :=
  match fs with
  | [] => ret tt
  | _ :: fs' =>
      let* row := gets (row_cells r) in
      let* last := expect IndexError (Py.getitem row (-1)) in
      let* ds := RTDC_Hierarchy last in
      row_append r ds ;;
      extend_row r fs'
  end.

(** The search [for row in self.matrix: if row[0].identifier == ...: break]:
    the first matching row, or [None] when the [else] of the loop runs. *)
Fixpoint find_row (identifier : ident) (mx : list nat) : M Pipeline (option nat) :=
  match mx with
  | [] => ret None
  | r :: mx' =>
      let* row := gets (row_cells r) in
      let* c := expect IndexError (Py.getitem row 0) in
      let* ds := gets datasets in
      if decide (ds_identifier (ds !!! c) = identifier) then ret (Some r)
      else find_row identifier mx'
  end.

(** [matrix = []; for sl in self.slots: ...; matrix.append(row)] *)
Fixpoint collect_rows (body : Dataslot → M Pipeline nat) (sls : list Dataslot)
    : M Pipeline (list nat) :=
  match sls with
  | [] => ret []
  | sl :: sls' =>
      let* row := body sl in
      let* rest := collect_rows body sls' in
      ret (row :: rest)
  end.

(** first branch: only a slot was added/removed *)
Definition only_slots_changed : M Pipeline (list nat) :=
  let* sls := gets slots in
  collect_rows
    (λ sl,
       let* old := gets matrix in
       let* found := find_row (s_identifier sl) old in
       match found with
       | Some row => ret row
       | None =>
           (* new dataset *)
           let* ds := new_dataset (s_path sl) (s_identifier sl) in
           update_dataset ds (set_config (Dataslot_update_dataset sl)) ;;
           let* row := new_row [ds] in
           let* fs := gets filters in
           chain_children row ds fs ;;
           ret row
       end)
    sls.

(** [for ii, sl in enumerate(self.slots): row = matrix[ii]; ...] *)
Fixpoint extend_rows {A B} (mx : list nat) (ii : nat) (sls : list A)
    (added : list B) : M Pipeline unit :=
  match sls with
  | [] => ret tt
  | _ :: sls' =>
      let* row := expect IndexError (mx !! ii) in
      extend_row row added ;;
      extend_rows mx (S ii) sls' added
  end.

(** second branch: only a filter was added *)
Definition only_filter_added (n_filt_then : nat) : M Pipeline (list nat) :=
  let* mx := gets matrix in
  let* sls := gets slots in
  let* fs := gets filters in
  extend_rows mx 0 sls (drop n_filt_then fs) ;;
  ret mx.

(** third branch: everything changed *)
Definition everything_changed : M Pipeline (list nat) :=
  let* sls := gets slots in
  collect_rows
    (λ sl,
       let* ds := new_dataset (s_path sl) (s_identifier sl) in
       let* row := new_row [ds] in
       let* fs := gets filters in
       chain_children row ds fs ;;
       ret row)
    sls.

Definition construct_matrix : M Pipeline unit :=
  let* matrix_filters := gets filter_ids in
  let* matrix_slots := gets slot_ids in
  let matrix_hash := hashobj matrix_slots matrix_filters in
  let* filters_then := gets _matrix_filters in
  let n_filt_then := length filters_then in
  let* hash_then := gets _matrix_hash in
  if decide (hash_then ≠ matrix_hash) then
    let* slots_then := gets _matrix_slots in
    let* mx :=
      if decide (filters_then = matrix_filters) then only_slots_changed
      else if decide (slots_then = matrix_slots
                      ∧ filters_then = take n_filt_then matrix_filters)
           then only_filter_added n_filt_then
           else everything_changed in
    modify (set_matrix mx) ;;
    modify (set_matrix_hash matrix_hash) ;;
    modify (set_matrix_slots matrix_slots) ;;
    modify (set_matrix_filters matrix_filters)
  else ret tt.

(** ** get_dataset *)

(** One round of the loop over [range(filt_index + 1)]. *)
Definition filter_stage (row : list nat) (fstates : gmap ident bool) (ii : nat)
    : M Pipeline unit :=
  let* fs := gets filters in
  let* filt := expect IndexError (fs !! ii) in
  let filt_id := f_identifier filt in
  let* on := expect KeyError (fstates !! filt_id) in
  let* fu := gets filters_used in
  let* c := expect IndexError (row !! ii) in
  if on && Py.contains filt_id fu
  then update_dataset c (set_config (Filter_update_dataset filt))
  else update_dataset c (set_config disable_filters).

(** [range(n)] for an integer [n] *)
Definition range (n : Z) : list nat := seq 0 (Z.to_nat n).

Definition get_dataset (slot_index filt_index : Z) (apply_filter ret_color : bool)
    : M Pipeline (nat * option string) :=
  construct_matrix ;;
  let* mx := gets matrix in
  let* r := expect IndexError (Py.getitem mx slot_index) in
  let* row := gets (row_cells r) in
  let* sls := gets slots in
  let* slot := expect IndexError (Py.getitem sls slot_index) in
  let* es := gets element_states in
  let* fstates := expect KeyError (es !! s_identifier slot) in
  (* set all necessary filters *)
  for_each (filter_stage row fstates) (range (filt_index + 1)) ;;
  let* dsend := expect IndexError (Py.getitem row filt_index) in
  (* update configuration from slot *)
  update_dataset dsend (set_config (Dataslot_update_dataset slot)) ;;
  (if apply_filter then update_dataset dsend compute_mask else ret tt) ;;
  if ret_color then ret (dsend, Some (s_color slot)) else ret (dsend, None).

(** ** get_plot_datasets *)

(** The loop over [range(len(self.slots))], with the two result lists. *)
Fixpoint plot_loop (plot_id : ident) (filt_index : Z) (indices : list nat)
    (acc : list nat * list Dataslot) : M Pipeline (list nat * list Dataslot) :=
  match indices with
  | [] => ret acc
  | slot_index :: rest =>
      let* sls := gets slots in
      let* slot := expect IndexError (sls !! slot_index) in
      let slot_id := s_identifier slot in
      let* es := gets element_states in
      let* estates := expect KeyError (es !! slot_id) in
      let* on := expect KeyError (estates !! plot_id) in
      let* su := gets slots_used in
      if on && Py.contains slot_id su then
        let* ds := get_dataset (Z.of_nat slot_index) filt_index true false in
        plot_loop plot_id filt_index rest (acc.1 ++ [ds.1], acc.2 ++ [slot])
      else plot_loop plot_id filt_index rest acc
  end.

Definition get_plot_datasets (plot_id : ident)
    : M Pipeline (list nat * list Dataslot) :=
  let* nf := gets num_filters in
  let filt_index := (Z.of_nat nf - 1)%Z in
  let* ns := gets (λ p, length (slots p)) in
  plot_loop plot_id filt_index (range (Z.of_nat ns)) ([], []).

(** ** get_slot *)

(** The search [for slot, row in zip(self.slots, self.matrix)]: the
    first slot whose row holds a dataset with the identifier; the [else]
    of the loop raises [ValueError]. *)
Fixpoint slot_of_row (slot_id : ident) (pairs : list (Dataslot * nat))
    : M Pipeline Dataslot :=
  match pairs with
  | [] => raise ValueError
  | (slot, r) :: pairs' =>
      let* row := gets (row_cells r) in
      let* ds := gets datasets in
      let ids := (λ c, ds_identifier (ds !!! c)) <$> row in
      if Py.contains slot_id ids then ret slot
      else slot_of_row slot_id pairs'
  end.

Definition get_slot (slot_id : ident) : M Pipeline Dataslot :=
  construct_matrix ;;
  let* sls := gets slots in
  let* mx := gets matrix in
  slot_of_row slot_id (zip sls mx).

(** ** A new pipeline *)

(** [Pipeline()]: [__init__] without a state, on the given object stores. *)
Definition Pipeline_init (ds : list Dataset) (rs : list (list nat)) : Pipeline :=
  {| filters := []; filters_used := []; plots := []; slots := [];
     slots_used := []; element_states := ∅;
     matrix := []; _matrix_hash := hash_None;
     _matrix_slots := []; _matrix_filters := [];
     _old_state := None;
     datasets := ds; rowobjs := rs |}.

End pipeline.

(** ** Total correctness of a call *)

(** The call [c] returns from [p], and the value and the state it
    returns satisfy [Q]. *)
Definition returns {S A} (c : M S A) (p : S) (Q : A → S → Prop) : Prop :=
  match c p with
  | Ok a q => Q a q
  | Raise _ _ => False
  end.

(** apply a state change to the state of a result *)
Definition map_state {S A} (f : S → S) (r : result S A) : result S A :=
  match r with
  | Ok a s => Ok a (f s)
  | Raise e s => Raise e (f s)
  end.

(** [c] neither reads nor undoes what [f] changes: running [c] after
    [f] is running [c] and then applying [f]. *)
Definition commutes {S A} (f : S → S) (c : M S A) : Prop :=
  ∀ p, c (f p) = map_state f (c p).

(** [c] leaves the part [g] of the state as it is, whether it returns
    or raises. *)
Definition preserves {S A X} (g : S → X) (c : M S A) : Prop :=
  ∀ p, g (state_of (c p)) = g p.

(** [c] keeps the invariant [I]: from a state that satisfies it, the
    state it leaves satisfies it, whether it returns or raises. *)
Definition keeps {S A} (I : S → Prop) (c : M S A) : Prop :=
  ∀ p, I p → I (state_of (c p)).

(** ** Functions used to state the properties *)

Section specification.
Context `{env : Env}.

(** the dictionary [{i: False for i in ids}] grown from [m] *)
Definition with_False (ids : list ident) (m : gmap ident bool) : gmap ident bool :=
  foldl (λ m i, <[i := false]> m) m ids.

(** The state that [add_slot] leaves behind, whether it returns or
    raises at the feature check. *)
Definition add_slot_state (slot : Dataslot) (index : option Z) (p : Pipeline) : Pipeline :=
  set_slots_used (slots_used p ++ [s_identifier slot])
    (set_element_states
       (<[s_identifier slot := with_False (filter_ids p) ∅]> (element_states p))
       (set_slots (Py.list_insert (Py.index_or_len index (slots p)) slot (slots p)) p)).




(** What the caller configures: everything but the matrix, its cache
    keys and the object stores. *)
Definition configuration (p : Pipeline) :=
  (filters p, filters_used p, plots p, slots p, slots_used p,
   element_states p, _old_state p).

(** The matrix fields next to the configuration: what only the commit
    at the end of [construct_matrix] changes. *)
Definition frame (p : Pipeline) :=
  (configuration p, (matrix p, _matrix_hash p, _matrix_slots p, _matrix_filters p)).

(** The datasets that a chain of [n] hierarchy children adds to the
    store: the first one, created at reference [c], has parent [prev],
    every next one the one before it. *)
Fixpoint children (prev c n : nat) : list Dataset :=
  match n with
  | 0 => []
  | S n' =>
      mkDataset (hierarchy_identifier c) (Hierarchy prev) default_config None
      :: children c (S c) n'
  end.

(** The state after [n] children were chained on [prev] and appended
    to the row [r]. *)
Definition with_chain (r prev n : nat) (p : Pipeline) : Pipeline :=
  set_rowobjs
    (alter (λ row, row ++ seq (length (datasets p)) n) r (rowobjs p))
    (set_datasets (datasets p ++ children prev (length (datasets p)) n) p).

(** The row objects hold references to existing datasets, and no
    dataset is referenced twice, be it by one row or by two. *)
Definition store_ok (p : Pipeline) : Prop :=
  NoDup (concat (rowobjs p))
  ∧ Forall (λ c, c < length (datasets p)) (concat (rowobjs p)).

(** The cached fingerprint belongs to the cached identifier lists. *)
Definition cache_ok (p : Pipeline) : Prop :=
  _matrix_hash p = hashobj (_matrix_slots p) (_matrix_filters p)
  ∨ (_matrix_hash p = hash_None ∧ _matrix_slots p = [] ∧ _matrix_filters p = []).

(** A state as the methods leave it: the matrix has a row object for
    every cached slot identifier, every such row has the raw cell and a
    cell per cached filter identifier (at least), and the stores and the
    cache are sound. *)
Definition wf (p : Pipeline) : Prop :=
  store_ok p
  ∧ length (matrix p) = length (_matrix_slots p)
  ∧ Forall (λ r, length (_matrix_filters p) < length (row_cells r p)) (matrix p)
  ∧ cache_ok p.
(** The state after a new row was built for a raw dataset [raw] and
    [n] children were chained on it; the new row is the last row
    object. *)
Definition with_row (raw : Dataset) (n : nat) (p : Pipeline) : Pipeline :=
  with_chain (length (rowobjs p)) (length (datasets p)) n
    (set_rowobjs (rowobjs p ++ [[length (datasets p)]])
       (set_datasets (datasets p ++ [raw]) p)).

(** The stores of [q] are those of [p] with new objects: what existed
    is as it was. *)
Definition grown (p q : Pipeline) : Prop :=
  frame q = frame p
  ∧ datasets p `prefix_of` datasets q
  ∧ rowobjs p `prefix_of` rowobjs q.

(** The stores of [q] are those of [p] with new datasets and longer
    rows: the datasets and the cells that existed are as they were. *)
Definition stretched (p q : Pipeline) : Prop :=
  frame q = frame p
  ∧ datasets p `prefix_of` datasets q
  ∧ length (rowobjs q) = length (rowobjs p)
  ∧ ∀ r, row_cells r p `prefix_of` row_cells r q.

(** The cells [new] are hierarchy children created after [p]'s
    datasets, in their default configuration: the first one on top of
    [prev], every next one on top of the one before it. *)
Fixpoint chained_on (ds : list Dataset) (prev : nat) (new : list nat) : Prop :=
  match new with
  | [] => True
  | c :: new' =>
      ds !! c = Some (mkDataset (hierarchy_identifier c) (Hierarchy prev)
                        default_config None)
      ∧ chained_on ds c new'
  end.


#[global] Instance wf_dec p : Decision (wf p).
Proof. unfold wf, store_ok, cache_ok. apply _. Defined.

(** Everything but the contents of the datasets. *)
Definition shape (p : Pipeline) := (frame p, rowobjs p).

(** What the loop of [get_dataset] does to the configuration of the
    cell of the filter [filt], for a slot whose enablement row is
    [fstates]: the filter's configuration is pushed when the entry is
    true and the filter is used, else filtering is switched off. *)
Definition stage_of (used : list ident) (fstates : gmap ident bool) (filt : Filter)
    : DsConfig → DsConfig :=
  if default false (fstates !! f_identifier filt)
     && Py.contains (f_identifier filt) used
  then Filter_update_dataset filt
  else disable_filters.

(** The configuration changes [fs] applied to the datasets behind the
    cells [cells], one after the other. *)
Fixpoint apply_stages (fs : list (DsConfig → DsConfig)) (cells : list nat)
    (ds : list Dataset) : list Dataset :=
  match fs, cells with
  | f :: fs', c :: cells' => apply_stages fs' cells' (alter (set_config f) c ds)
  | _, _ => ds
  end.

(** What [get_dataset] does to the dataset it returns, after the loop. *)
Definition finish (slot : Dataslot) (apply_filter : bool) (d : Dataset) : Dataset :=
  let d' := set_config (Dataslot_update_dataset slot) d in
  if apply_filter then compute_mask d' else d'.






(** What can be seen of one dataset without its identity: the raw
    source (for a raw dataset), the configuration and the mask state. *)
Record Seen := mkSeen {
  seen_source : option (string * ident);
  seen_config : DsConfig;
  seen_mask : option DsConfig;
}.

Definition seen_of (d : Dataset) : Seen :=
  {| seen_source := match ds_origin d with
                    | Raw path => Some (path, ds_identifier d)
                    | Hierarchy _ => None
                    end;
     seen_config := ds_config d;
     seen_mask := ds_mask d |}.

(** The view behind a reference: the chain of datasets from the raw one
    down to the referenced one, with the references unfolded. *)
Fixpoint view_from (fuel : nat) (ds : list Dataset) (c : nat) : list Seen :=
  match fuel with
  | 0 => []
  | S fuel' =>
      match ds !! c with
      | None => []
      | Some d =>
          match ds_origin d with
          | Raw _ => [seen_of d]
          | Hierarchy hparent => view_from fuel' ds hparent ++ [seen_of d]
          end
      end
  end.

Definition view (p : Pipeline) (c : nat) : list Seen :=
  view_from (length (datasets p)) (datasets p) c.

(** The full rebuild: the third branch of [construct_matrix] followed
    by its commit, whatever the cache says. *)
Definition full_rebuild : M Pipeline unit :=
  let* matrix_filters := gets filter_ids in
  let* matrix_slots := gets slot_ids in
  let* mx := everything_changed in
  modify (set_matrix mx) ;;
  modify (set_matrix_hash (hashobj matrix_slots matrix_filters)) ;;
  modify (set_matrix_slots matrix_slots) ;;
  modify (set_matrix_filters matrix_filters).

(** The enablement dictionary after [es[sid][elem] = False] for the
    identifiers [sids] that have a row, in that order. *)
Definition mark_False (sids : list ident) (elem : ident)
    (es : gmap ident (gmap ident bool)) : gmap ident (gmap ident bool) :=
  foldl (λ es sid, match es !! sid with
                   | Some row => <[sid := <[elem := false]> row]> es
                   | None => es
                   end) es sids.

(** The feature check of [add_slot] for a slot appended to the slot
    list: the new slot is compared with the first slot only; when the
    list was empty, that is the new slot itself. *)
Definition same_features_as_first (p : Pipeline) (slot : Dataslot) : bool :=
  match slots p with
  | [] => true
  | s0 :: _ =>
      bool_decide (get_rtdc_features (s_path s0) = get_rtdc_features (s_path slot))
  end.

(** The analysis side of the pipeline: the matrix, its cache keys and
    the two object stores. *)
Definition analysis (p : Pipeline) :=
  (matrix p, _matrix_hash p, _matrix_slots p, _matrix_filters p,
   datasets p, rowobjs p).

(** The analysis side without the contents of the datasets. *)
Definition skeleton (p : Pipeline) :=
  (matrix p, _matrix_hash p, _matrix_slots p, _matrix_filters p,
   length (datasets p), rowobjs p).

(** Every slot has a row in the enablement dictionary. *)
Definition rows_ok (p : Pipeline) : Prop :=
  Forall (λ sid, is_Some (element_states p !! sid)) (slot_ids p).

(** A serialised state whose enablement dictionary has a row for every
    slot state. *)
Definition complete (state : State) : Prop :=
  Forall (λ s, is_Some (st_elements state !! s_identifier s)) (st_slots state).

(** An assignment [self.x = ...] to the attributes that the remembered
    state shares with the pipeline ends the sharing: the remembered
    state keeps the objects it has, with their contents of that moment. *)
Definition detach (p : Pipeline) : Pipeline :=
  set_old_state ((λ st, mkOldState st false false false) <$> old_state_value p) p.

(** A call of a method of the pipeline, with its arguments. *)
Inductive Call :=
| Call_add_filter (filt : option (Given Filter)) (index : option Z)
| Call_add_plot (plot : option (Given Plot)) (index : option Z)
| Call_add_slot (slot : option (Given Dataslot)) (path : option string)
    (index : option Z)
| Call_remove_filter (filt_id : ident)
| Call_remove_plot (plot_id : ident)
| Call_remove_slot (slot_id : ident)
| Call_reset
| Call_setstate (state : State)
| Call_construct_matrix
| Call_get_dataset (slot_index filt_index : Z) (apply_filter ret_color : bool)
| Call_get_plot_datasets (plot_id : ident)
| Call_get_slot (slot_id : ident).

(** The state in which a call leaves the pipeline, whether it returned
    or raised.  A call of [reset] assigns new lists and a new dictionary
    to the attributes, so the remembered state is detached first (inside
    [__setstate__] it has just been replaced and shares nothing). *)
Definition after_call (c : Call) (p : Pipeline) : Pipeline :=
  match c with
  | Call_add_filter filt index => state_of (add_filter filt index p)
  | Call_add_plot plot index => state_of (add_plot plot index p)
  | Call_add_slot slot path index => state_of (add_slot slot path index p)
  | Call_remove_filter filt_id => state_of (remove_filter filt_id p)
  | Call_remove_plot plot_id => state_of (remove_plot plot_id p)
  | Call_remove_slot slot_id => state_of (remove_slot slot_id p)
  | Call_reset => state_of (reset (detach p))
  | Call_setstate state => state_of (__setstate__ state p)
  | Call_construct_matrix => state_of (construct_matrix p)
  | Call_get_dataset slot_index filt_index apply_filter ret_color =>
      state_of (get_dataset slot_index filt_index apply_filter ret_color p)
  | Call_get_plot_datasets plot_id => state_of (get_plot_datasets plot_id p)
  | Call_get_slot slot_id => state_of (get_slot slot_id p)
  end.

(** a sequence of calls, where the caller catches what they raise *)
Definition after_calls (cs : list Call) (p : Pipeline) : Pipeline :=
  foldl (λ p c, after_call c p) p cs.

(** The state after the slots [l] were added one after the other, each
    at the end. *)
Definition with_slots (l : list Dataslot) (p : Pipeline) : Pipeline :=
  foldl (λ p s, add_slot_state s None p) p l.

(** Every slot state of a serialised state exposes the features of the
    first one. *)
Definition compatible (state : State) : Prop :=
  match st_slots state with
  | [] => True
  | s0 :: l =>
      Forall (λ s, get_rtdc_features (s_path s0) = get_rtdc_features (s_path s)) l
  end.

(** The pipeline [p] with the serialised state [state] loaded: the
    configuration is that of the state, which is also the remembered
    state and shares the used lists and the enablement dictionary with
    the pipeline; the analysis side is that of [p]. *)
Definition loaded (state : State) (p : Pipeline) : Pipeline :=
  {| filters := st_filters state;
     filters_used := st_filters_used state;
     plots := st_plots state;
     slots := st_slots state;
     slots_used := st_slots_used state;
     element_states := st_elements state;
     matrix := matrix p;
     _matrix_hash := _matrix_hash p;
     _matrix_slots := _matrix_slots p;
     _matrix_filters := _matrix_filters p;
     _old_state := Some (mkOldState state true true true);
     datasets := datasets p;
     rowobjs := rowobjs p |}.

(** A call that loads a serialised state loads a complete one. *)
Definition loads_complete (c : Call) : Prop :=
  match c with
  | Call_setstate state => complete state
  | _ => True
  end.

(** The raw dataset that [dclab.new_dataset] creates for a slot. *)
Definition raw_dataset (sl : Dataslot) : Dataset :=
  mkDataset (s_identifier sl) (Raw (s_path sl)) default_config None.

(** The state after a row with [n] children was built for each of the
    slots [sls], one after the other, on plain raw datasets. *)
Definition built (n : nat) (sls : list Dataslot) (p : Pipeline) : Pipeline :=
  foldl (λ q sl, with_row (raw_dataset sl) n q) p sls.

(** In [q] the row object [r] is a row that did not exist in [p]: a raw
    cell for the dataset [raw] and [n] children chained on it, all
    created after [p]'s datasets. *)
Definition fresh_row (p q : Pipeline) (raw : Dataset) (n r : nat) : Prop :=
  length (rowobjs p) ≤ r
  ∧ ∃ c, length (datasets p) ≤ c
         ∧ row_cells r q = c :: seq (S c) n
         ∧ datasets q !! c = Some raw
         ∧ chained_on (datasets q) c (seq (S c) n).

(** The first row among [mx] whose raw dataset has the identifier, as
    the search of the first branch of [construct_matrix] finds it. *)
Fixpoint first_row (ds : list Dataset) (rows : list (list nat))
    (identifier : ident) (mx : list nat) : option nat :=
  match mx with
  | [] => None
  | r :: mx' =>
      match head (rows !!! r) with
      | Some c =>
          if decide (ds_identifier (ds !!! c) = identifier) then Some r
          else first_row ds rows identifier mx'
      | None => None
      end
  end.

(** The identifiers of the datasets in the row object [r]. *)
Definition row_names (q : Pipeline) (r : nat) : list ident :=
  (λ c, ds_identifier (datasets q !!! c)) <$> row_cells r q.

(** Every row of the matrix starts with a dataset that has the cached
    slot identifier of its position. *)
Definition labelled (p : Pipeline) : Prop :=
  Forall2 (λ sid r, head (row_names p r) = Some sid) (_matrix_slots p) (matrix p).

(** The analysis side with the identifiers of the datasets only. *)
Definition naming (p : Pipeline) :=
  (matrix p, _matrix_hash p, _matrix_slots p, _matrix_filters p,
   ds_identifier <$> datasets p, rowobjs p).

(** The two invariants of the analysis side together. *)
Definition sound (p : Pipeline) : Prop := wf p ∧ labelled p.

End specification.

(** ** A concrete environment and sample entities *)

(** Features are lists of names, the hash of the two identifier lists is
    the pair itself (so it has no collisions), and the measurement
    [b.rtdc] lacks the feature [B] that the others have. *)
Definition demo_env : Env := {|
  FilterCfg := nat; PlotCfg := nat; SlotCfg := nat;
  Features := list string;
  Hash := option (list ident * list ident);
  get_rtdc_features := λ path,
    if decide (path = "b.rtdc") then ["A"] else ["A"; "B"];
  hashobj := λ s f, Some (s, f);
  hash_None := None;
  hierarchy_identifier := λ n, "mm-hierarchy_" +:+ pretty n;
  Filter_init := ("Filter_0", true, 0);
  Plot_init := ("Plot_0", 0);
  Dataslot_init := λ path, ("Dataslot_0", "black", 0);
|}.

Module Demo.
#[local] Existing Instance demo_env.

Definition S1 : Dataslot := mkDataslot "S1" "a.rtdc" "red" 1.
Definition S2 : Dataslot := mkDataslot "S2" "a2.rtdc" "blue" 2.
(** a measurement with fewer features *)
Definition S3 : Dataslot := mkDataslot "S3" "b.rtdc" "green" 3.
Definition F1 : Filter := mkFilter "F1" true 10.
Definition F2 : Filter := mkFilter "F2" true 20.
Definition P1 : Plot := mkPlot "P1" 100.

(** a new pipeline on empty object stores *)
Definition new : Pipeline := Pipeline_init [] [].

(** run a call and keep the state, whether it returned or raised *)
Definition after {A} (c : M Pipeline A) (p : Pipeline) : Pipeline :=
  state_of (c p).

Definition slot (s : Dataslot) : M Pipeline ident :=
  add_slot (Some (Instance s)) None None.
Definition filt (f : Filter) : M Pipeline ident :=
  add_filter (Some (Instance f)) None.
Definition plot (f : Plot) : M Pipeline ident :=
  add_plot (Some (Instance f)) None.

(** the GUI writes an enablement entry directly into the dictionary *)
Definition enable (slot_id elem_id : ident) (p : Pipeline) : Pipeline :=
  set_element_states
    (<[slot_id := <[elem_id := true]> (default ∅ (element_states p !! slot_id))]>
       (element_states p)) p.

(** a serialised state with one filter, one plot and one slot *)
Definition saved : State :=
  {| st_elements := {[ "S1" := {[ "F1" := true; "P1" := true ]} ]};
     st_filters := [F1];
     st_filters_used := ["F1"];
     st_plots := [P1];
     st_slots := [S1];
     st_slots_used := ["S1"] |}.



(** the scenario of the specification: slots [S1] and [S2] with the
    same features, the filter [F1], enabled for [S1] only *)
Definition scenario : Pipeline :=
  enable "S1" "F1" (after (filt F1) (after (slot S2) (after (slot S1) new))).


(** two filters with the (empty) matrix built, then a slot: the next
    [construct_matrix] takes the first branch *)
Definition filters_first : Pipeline :=
  after (slot S1)
    (after construct_matrix (after (filt F2) (after (filt F1) new))).

(** the same three calls without [construct_matrix] in between: the
    next [construct_matrix] takes the third branch *)
Definition all_at_once : Pipeline :=
  after (slot S1) (after (filt F2) (after (filt F1) new)).

(** one slot, and one slot after a plot *)
Definition one_slot : Pipeline := after (slot S1) new.
Definition slot_after_plot : Pipeline := after (slot S1) (after (plot P1) new).

(** a serialised state with a slot and no enablement row for it *)
Definition bare : State :=
  {| st_elements := ∅;
     st_filters := [];
     st_filters_used := [];
     st_plots := [];
     st_slots := [S1];
     st_slots_used := ["S1"] |}.

(** a serialised state whose second slot exposes fewer features *)
Definition mixed : State :=
  {| st_elements := {[ "S1" := {[ "F1" := true ]} ]};
     st_filters := [F1];
     st_filters_used := ["F1"];
     st_plots := [P1];
     st_slots := [S1; S3; S2];
     st_slots_used := ["S1"] |}.

(** a sequence of calls, some of which raise *)
Definition session : list Call :=
  [ Call_add_slot (Some (Instance S1)) None None;
    Call_add_filter (Some (Instance F1)) None;
    Call_construct_matrix;
    Call_add_slot (Some (Instance S3)) None None;
    Call_get_dataset 0 0 true false;
    Call_remove_slot "S1";
    Call_add_slot None (Some "a2.rtdc") (Some 0%Z);
    Call_add_plot None None;
    Call_get_plot_datasets "Plot_0";
    Call_get_slot "Dataslot_0";
    Call_remove_filter "F1";
    Call_construct_matrix;
    Call_setstate saved;
    Call_get_dataset 0 0 false true;
    Call_reset;
    Call_add_slot (Some (Instance S2)) None None;
    Call_get_slot "S2" ].
End Demo.

(** * Properties *)

Section monad_rules.
Context {S : Type}.
Implicit Types p q : S.

Lemma returns_Ok {A} (c : M S A) p Q :
  returns c p Q ↔ ∃ a q, c p = Ok a q ∧ Q a q.
Proof.
  unfold returns. destruct (c p) as [a q|e q]; split.
  - eauto.
  - intros (a' & q' & [= -> ->] & HQ). done.
  - done.
  - intros (? & ? & [=] & _).
Qed.

Lemma returns_step {A} (c : M S A) p a q (Q : A → S → Prop) :
  c p = Ok a q → Q a q → returns c p Q.
Proof. unfold returns. by intros ->. Qed.

Lemma returns_weaken {A} (c : M S A) p (Q Q' : A → S → Prop) :
  returns c p Q → (∀ a q, Q a q → Q' a q) → returns c p Q'.
Proof. unfold returns. destruct (c p); eauto. Qed.

Lemma returns_ret {A} (a : A) p (Q : A → S → Prop) :
  Q a p → returns (ret a) p Q.
Proof. done. Qed.

Lemma returns_bind {A B} (c : M S A) (k : A → M S B) p (Q : B → S → Prop) :
  returns c p (λ a q, returns (k a) q Q) → returns (bind c k) p Q.
Proof. unfold returns, bind. destruct (c p); done. Qed.

Lemma returns_bind_inv {A B} (c : M S A) (k : A → M S B) p (Q : B → S → Prop) :
  returns (bind c k) p Q → returns c p (λ a q, returns (k a) q Q).
Proof. unfold returns, bind. destruct (c p); done. Qed.

Lemma returns_gets {A} (f : S → A) p (Q : A → S → Prop) :
  Q (f p) p → returns (gets f) p Q.
Proof. done. Qed.

Lemma returns_modify (f : S → S) p (Q : unit → S → Prop) :
  Q tt (f p) → returns (modify f) p Q.
Proof. done. Qed.

Lemma returns_expect {A} e (o : option A) a p (Q : A → S → Prop) :
  o = Some a → Q a p → returns (expect e o) p Q.
Proof. by intros ->. Qed.

Lemma bind_Ok {A B} (c : M S A) (k : A → M S B) p a q :
  c p = Ok a q → bind c k p = k a q.
Proof. unfold bind. by intros ->. Qed.

Lemma bind_Raise {A B} (c : M S A) (k : A → M S B) p e q :
  c p = Raise e q → bind c k p = Raise e q.
Proof. unfold bind. by intros ->. Qed.

Lemma bind_gets {A B} (f : S → A) (k : A → M S B) p :
  bind (gets f) k p = k (f p) p.
Proof. done. Qed.

Lemma bind_modify {B} (f : S → S) (k : unit → M S B) p :
  bind (modify f) k p = k tt (f p).
Proof. done. Qed.

Lemma bind_ret {A B} (a : A) (k : A → M S B) p :
  bind (ret a) k p = k a p.
Proof. done. Qed.

Lemma bind_expect_Some {A B} e (a : A) (k : A → M S B) p :
  bind (expect e (Some a)) k p = k a p.
Proof. done. Qed.

Lemma bind_expect_None {A B} e (k : A → M S B) p :
  bind (expect e None) k p = Raise e p.
Proof. done. Qed.

Lemma bind_raise {A B} e (k : A → M S B) p :
  bind (raise e) k p = Raise e p.
Proof. done. Qed.

Lemma bind_assoc {A B C} (c : M S A) (k : A → M S B) (k' : B → M S C) p :
  bind (bind c k) k' p = bind c (λ a, bind (k a) k') p.
Proof. unfold bind. by destruct (c p). Qed.

Lemma bind_Ok_inv {A B} (c : M S A) (k : A → M S B) p b q :
  bind c k p = Ok b q → ∃ a p', c p = Ok a p' ∧ k a p' = Ok b q.
Proof. unfold bind. destruct (c p) as [a p'|]; [eauto | done]. Qed.

(** A loop whose rounds all return keeps an invariant. *)
Lemma returns_for_each {A} (body : A → M S unit) (l : list A) (I : list A → S → Prop) p
    (Q : unit → S → Prop) :
  I l p →
  (∀ x l' p', I (x :: l') p' → returns (body x) p' (λ _ q, I l' q)) →
  (∀ q, I [] q → Q tt q) →
  returns (for_each body l) p Q.
Proof.
  intros HI Hbody HQ. revert p HI.
  induction l as [|x l IH]; intros p HI; simpl.
  - apply returns_ret. auto.
  - apply returns_bind. eapply returns_weaken; [by apply Hbody|].
    intros u q Hq. by apply IH.
Qed.

Lemma for_each_app {A} (body : A → M S unit) (l1 l2 : list A) p :
  for_each body (l1 ++ l2) p = (for_each body l1 ;; for_each body l2) p.
Proof.
  revert p. induction l1 as [|x l1 IH]; intros p; simpl.
  - done.
  - unfold bind. destruct (body x p) as [[] q|e q]; [|done].
    rewrite IH. done.
Qed.

End monad_rules.

Section entity_properties.
Context `{env : Env}.
Implicit Types p q : Pipeline.

(** ** The counters *)

(** C10: [num_plots] returns the number of filters: it always equals
    [num_filters], and it equals the length of the plot list only when
    the two counts coincide. *)
Theorem num_plots_counts_filters p :
  num_plots p = num_filters p
  ∧ num_plots p = length (filters p)
  ∧ (num_plots p = length (plots p) ↔ length (filters p) = length (plots p)).
Proof. unfold num_plots, num_filters. done. Qed.

(** ** Fresh enablement entries *)

Lemma with_False_lookup ids m k :
  with_False ids m !! k = if decide (k ∈ ids) then Some false else m !! k.
Proof.
  unfold with_False. revert m. induction ids as [|i ids IH]; intros m; simpl.
  - done.
  - rewrite IH.
    destruct (decide (k ∈ ids)) as [Hin|Hnin], (decide (k ∈ i :: ids)) as [Hc|Hc];
      try done.
    + destruct Hc. by right.
    + apply elem_of_cons in Hc as [->|?]; [|done]. by rewrite lookup_insert_eq.
    + rewrite lookup_insert_ne; [done|]. intros ->. apply Hc. by left.
Qed.

Lemma set_element_states_id p : set_element_states (element_states p) p = p.
Proof. by destruct p. Qed.

(** Filling in one slot's entries for a list of elements. *)
Lemma fill_entries_Ok slot_id ids p m :
  element_states p !! slot_id = Some m →
  for_each (λ i, set_element_False slot_id i) ids p
  = Ok tt (set_element_states
             (<[slot_id := with_False ids m]> (element_states p)) p).
Proof.
  revert p m. induction ids as [|i ids IH]; intros p m Hm; simpl.
  - unfold ret. rewrite insert_id by done. by rewrite set_element_states_id.
  - unfold bind at 1. unfold set_element_False at 1.
    unfold bind, gets, expect. rewrite Hm. simpl.
    erewrite IH; last by (simpl; rewrite lookup_insert_eq).
    simpl. by rewrite insert_insert_eq.
Qed.

(** ** add_slot *)

Lemma add_slot_unfold g index p :
  add_slot (Some g) None index p
  = let slot := resolve g in
    let q := add_slot_state slot index p in
    match Py.getitem (slots q) 0 with
    | Some s0 =>
        if decide (get_rtdc_features (s_path s0) = get_rtdc_features (s_path slot))
        then Ok (s_identifier slot) q
        else Raise ValueError q
    | None => Raise IndexError q
    end.
Proof.
  unfold add_slot. simpl.
  rewrite bind_gets, bind_ret, bind_modify, bind_gets, bind_modify, bind_gets.
  erewrite bind_Ok; last by (apply fill_entries_Ok; simpl; rewrite lookup_insert_eq).
  rewrite bind_gets, bind_modify, bind_gets. simpl.
  rewrite insert_insert_eq.
  change (filter_ids _) with (filter_ids p).
  fold (add_slot_state (resolve g) index p).
  unfold bind, expect, add_slot_state at 1 2. simpl.
  destruct (Py.getitem _ 0); simpl; [|done].
  by destruct (decide _).
Qed.

Lemma getitem_0_cons {A} (x : A) l : Py.getitem (x :: l) 0 = Some x.
Proof. done. Qed.

Lemma list_insert_end {A} (x : A) l :
  Py.list_insert (Z.of_nat (length l)) x l = l ++ [x].
Proof.
  unfold Py.list_insert.
  destruct (Z.ltb_spec (Z.of_nat (length l)) 0); [lia|].
  rewrite Z.min_id, Nat2Z.id, take_ge, drop_ge by lia. done.
Qed.

(** C5 (what the code does): when the first slot already present and the
    new slot expose different features, [add_slot] raises [ValueError]
    only after it has inserted the slot: the slot list is one longer, the
    identifier is in the used list and the enablement dictionary has a
    row for it. *)
Theorem add_slot_incompatible_commits p g s0 l :
  slots p = s0 :: l →
  get_rtdc_features (s_path s0) ≠ get_rtdc_features (s_path (resolve g)) →
  ∃ q, add_slot (Some g) None None p = Raise ValueError q
       ∧ slots q = slots p ++ [resolve g]
       ∧ length (slots q) = S (length (slots p))
       ∧ slots_used q = slots_used p ++ [s_identifier (resolve g)]
       ∧ element_states q !! s_identifier (resolve g)
         = Some (with_False (filter_ids p) ∅).
Proof.
  intros Hs Hne. rewrite add_slot_unfold. cbv zeta.
  assert (slots (add_slot_state (resolve g) None p) = s0 :: l ++ [resolve g]) as Hq.
  { unfold add_slot_state. simpl. by rewrite list_insert_end, Hs. }
  rewrite Hq, getitem_0_cons, decide_False by done.
  eexists. split; [done|]. rewrite Hq, Hs. simpl.
  rewrite length_app, lookup_insert_eq. simpl.
  repeat split; try done. lia.
Qed.

(** C6 (what the code does): [add_slot] gives the new slot an entry for
    every filter but for no plot: whatever the outcome of the call, the
    new slot's row has no entry for a plot that is present (unless its
    identifier is also that of a filter). *)
Theorem add_slot_no_plot_entry p g index plot :
  plot ∈ plots p →
  p_identifier plot ∉ filter_ids p →
  let q := state_of (add_slot (Some g) None index p) in
  plot ∈ plots q
  ∧ resolve g ∈ slots q
  ∧ ∃ row, element_states q !! s_identifier (resolve g) = Some row
           ∧ (∀ filt, filt ∈ filters q → row !! f_identifier filt = Some false)
           ∧ row !! p_identifier plot = None.
Proof.
  intros Hin Hnf q.
  assert (q = add_slot_state (resolve g) index p) as ->.
  { subst q. rewrite add_slot_unfold. simpl.
    destruct (Py.getitem _ 0); [|done]. by destruct (decide _). }
  unfold add_slot_state. simpl. split; [done|]. split.
  { unfold Py.list_insert. rewrite elem_of_app, elem_of_cons. auto. }
  rewrite lookup_insert_eq. eexists. split; [done|]. split.
  - intros filt Hf. rewrite with_False_lookup.
    rewrite decide_True; [done|]. unfold filter_ids. by apply list_elem_of_fmap_2.
  - rewrite with_False_lookup. by rewrite decide_False.
Qed.

(** ** remove_slot *)

Lemma list_index_None `{EqDecision A} (x : A) l :
  x ∉ l → Py.list_index x l = None.
Proof.
  induction l as [|y l IH]; simpl; [done|].
  intros Hn. rewrite decide_False; last by (intros ->; apply Hn; left).
  rewrite IH; [done|]. intros ?. apply Hn. by right.
Qed.

(** C7 (what the code does): [remove_slot] never returns: it raises
    [ValueError] when no filter has the given identifier and
    [AttributeError] otherwise, and in both cases the slot list, the
    used-slots list and the enablement dictionary are as before. *)
Theorem remove_slot_never_removes p slot_id :
  let r := remove_slot slot_id p in
  returned r = None
  ∧ slots (state_of r) = slots p
  ∧ slots_used (state_of r) = slots_used p
  ∧ element_states (state_of r) = element_states p
  ∧ (slot_id ∉ filter_ids p → r = Raise ValueError p).
Proof.
  unfold remove_slot, bind, gets, expect, modify, raise, ret. simpl.
  destruct (Py.list_index slot_id (filter_ids p)) eqn:E; simpl.
  - repeat split; try done. intros Hn. by rewrite list_index_None in E.
  - done.
Qed.

End entity_properties.

Section commuting.
Context {S : Type}.
Implicit Types (f : S → S).

Lemma commutes_ret {A} f (a : A) : commutes f (ret a).
Proof. done. Qed.

Lemma commutes_raise {A} f e : commutes f (raise (A:=A) e).
Proof. done. Qed.

Lemma commutes_expect {A} f e (o : option A) : commutes f (expect e o).
Proof. by destruct o. Qed.

Lemma commutes_gets {A} f (g : S → A) :
  (∀ p, g (f p) = g p) → commutes f (gets g).
Proof. intros H p. unfold gets. simpl. by rewrite H. Qed.

Lemma commutes_modify f (h : S → S) :
  (∀ p, h (f p) = f (h p)) → commutes f (modify h).
Proof. intros H p. unfold modify. simpl. by rewrite H. Qed.

Lemma commutes_bind {A B} f (c : M S A) (k : A → M S B) :
  commutes f c → (∀ a, commutes f (k a)) → commutes f (bind c k).
Proof.
  intros Hc Hk p. unfold bind. rewrite Hc.
  destruct (c p) as [a q|e q]; simpl; [apply Hk | done].
Qed.

Lemma commutes_for_each {A} f (body : A → M S unit) l :
  (∀ x, commutes f (body x)) → commutes f (for_each body l).
Proof.
  intros Hb. induction l as [|x l IH]; simpl.
  - apply commutes_ret.
  - apply commutes_bind; [apply Hb | done].
Qed.

End commuting.

Section setstate_properties.
Context `{env : Env}.
Implicit Types p q : Pipeline.

Ltac commutes_steps :=
  repeat first
    [ apply commutes_for_each; intros ?
    | apply commutes_bind; [|intros ?]
    | apply commutes_ret
    | apply commutes_raise
    | apply commutes_expect
    | apply commutes_gets; by intros [] 
    | apply commutes_modify; intros [? ? ? ? ? ? ? ? ? ? [?|] ? ?]; reflexivity
    | progress case_match ].

Lemma commutes_set_element_False slot_id elem_id :
  commutes share_filters_used (set_element_False slot_id elem_id).
Proof. unfold set_element_False. commutes_steps. Qed.







End setstate_properties.

Section preserving.
Context {S X : Type}.
Implicit Types (g : S → X).

Lemma preserves_ret {A} g (a : A) : preserves g (ret a).
Proof. done. Qed.

Lemma preserves_raise {A} g e : preserves g (raise (A:=A) e).
Proof. done. Qed.

Lemma preserves_expect {A} g e (o : option A) : preserves g (expect e o).
Proof. by destruct o. Qed.

Lemma preserves_gets {A} g (f : S → A) : preserves g (gets f).
Proof. done. Qed.

Lemma preserves_modify g (h : S → S) :
  (∀ p, g (h p) = g p) → preserves g (modify h).
Proof. intros H p. apply H. Qed.

Lemma preserves_bind {A B} g (c : M S A) (k : A → M S B) :
  preserves g c → (∀ a, preserves g (k a)) → preserves g (bind c k).
Proof.
  intros Hc Hk p. unfold bind. specialize (Hc p).
  destruct (c p) as [a q|e q]; simpl in *; [|done].
  by rewrite Hk.
Qed.

Lemma preserves_for_each {A} g (body : A → M S unit) l :
  (∀ x, preserves g (body x)) → preserves g (for_each body l).
Proof.
  intros Hb. induction l as [|x l IH]; simpl.
  - apply preserves_ret.
  - apply preserves_bind; [apply Hb | done].
Qed.

Lemma preserves_Ok {A} g (c : M S A) p a q :
  preserves g c → c p = Ok a q → g q = g p.
Proof. intros H E. specialize (H p). by rewrite E in H. Qed.

End preserving.

Section construct_properties.
Context `{env : Env}.
Implicit Types p q : Pipeline.

Ltac preserves_steps :=
  repeat first
    [ apply preserves_for_each; intros ?
    | apply preserves_bind; [|intros ?]
    | apply preserves_ret
    | apply preserves_raise
    | apply preserves_expect
    | apply preserves_gets
    | apply preserves_modify; by intros []
    | progress case_match ].

(** *** The object stores are not part of the configuration *)

Lemma preserves_new_dataset path i : preserves configuration (new_dataset path i).
Proof. unfold new_dataset. preserves_steps. Qed.

Lemma preserves_RTDC_Hierarchy h : preserves configuration (RTDC_Hierarchy h).
Proof. unfold RTDC_Hierarchy. preserves_steps. Qed.

Lemma preserves_update_dataset c f : preserves configuration (update_dataset c f).
Proof. unfold update_dataset. preserves_steps. Qed.

Lemma preserves_new_row cells : preserves configuration (new_row cells).
Proof. unfold new_row. preserves_steps. Qed.

Lemma preserves_row_append r c : preserves configuration (row_append r c).
Proof. unfold row_append. preserves_steps. Qed.

Lemma preserves_chain_children {A} r ds (fs : list A) :
  preserves configuration (chain_children r ds fs).
Proof.
  revert ds. induction fs as [|f fs IH]; intros ds; simpl.
  - apply preserves_ret.
  - apply preserves_bind; [apply preserves_RTDC_Hierarchy|intros c].
    apply preserves_bind; [apply preserves_row_append|intros _]. apply IH.
Qed.

Lemma preserves_extend_row {A} r (fs : list A) :
  preserves configuration (extend_row r fs).
Proof.
  induction fs as [|f fs IH]; simpl.
  - apply preserves_ret.
  - apply preserves_bind; [apply preserves_gets|intros row].
    apply preserves_bind; [apply preserves_expect|intros c].
    apply preserves_bind; [apply preserves_RTDC_Hierarchy|intros d].
    apply preserves_bind; [apply preserves_row_append|intros _]. apply IH.
Qed.

Lemma preserves_find_row i mx : preserves configuration (find_row i mx).
Proof.
  induction mx as [|r mx IH]; simpl.
  - apply preserves_ret.
  - apply preserves_bind; [apply preserves_gets|intros row].
    apply preserves_bind; [apply preserves_expect|intros c].
    apply preserves_bind; [apply preserves_gets|intros ds].
    case_decide; [apply preserves_ret | apply IH].
Qed.

Lemma preserves_collect_rows body sls :
  (∀ sl, preserves configuration (body sl)) →
  preserves configuration (collect_rows body sls).
Proof.
  intros Hb. induction sls as [|sl sls IH]; simpl.
  - apply preserves_ret.
  - apply preserves_bind; [apply Hb|intros r].
    apply preserves_bind; [apply IH|intros rest]. apply preserves_ret.
Qed.

Lemma preserves_extend_rows {A B} mx ii (sls : list A) (added : list B) :
  preserves configuration (extend_rows mx ii sls added).
Proof.
  revert ii. induction sls as [|sl sls IH]; intros ii; simpl.
  - apply preserves_ret.
  - apply preserves_bind; [apply preserves_expect|intros r].
    apply preserves_bind; [apply preserves_extend_row|intros _]. apply IH.
Qed.

Lemma preserves_only_slots_changed : preserves configuration only_slots_changed.
Proof.
  unfold only_slots_changed.
  apply preserves_bind; [apply preserves_gets|intros sls].
  apply preserves_collect_rows. intros sl.
  apply preserves_bind; [apply preserves_gets|intros old].
  apply preserves_bind; [apply preserves_find_row|intros [r|]].
  - apply preserves_ret.
  - apply preserves_bind; [apply preserves_new_dataset|intros ds].
    apply preserves_bind; [apply preserves_update_dataset|intros _].
    apply preserves_bind; [apply preserves_new_row|intros r].
    apply preserves_bind; [apply preserves_gets|intros fs].
    apply preserves_bind; [apply preserves_chain_children|intros _].
    apply preserves_ret.
Qed.

Lemma preserves_only_filter_added n : preserves configuration (only_filter_added n).
Proof.
  unfold only_filter_added.
  apply preserves_bind; [apply preserves_gets|intros mx].
  apply preserves_bind; [apply preserves_gets|intros sls].
  apply preserves_bind; [apply preserves_gets|intros fs].
  apply preserves_bind; [apply preserves_extend_rows|intros _].
  apply preserves_ret.
Qed.

Lemma preserves_everything_changed : preserves configuration everything_changed.
Proof.
  unfold everything_changed.
  apply preserves_bind; [apply preserves_gets|intros sls].
  apply preserves_collect_rows. intros sl.
  apply preserves_bind; [apply preserves_new_dataset|intros ds].
  apply preserves_bind; [apply preserves_new_row|intros r].
  apply preserves_bind; [apply preserves_gets|intros fs].
  apply preserves_bind; [apply preserves_chain_children|intros _].
  apply preserves_ret.
Qed.

Lemma preserves_construct_matrix : preserves configuration construct_matrix.
Proof.
  unfold construct_matrix.
  apply preserves_bind; [apply preserves_gets|intros mf].
  apply preserves_bind; [apply preserves_gets|intros ms].
  apply preserves_bind; [apply preserves_gets|intros ft].
  apply preserves_bind; [apply preserves_gets|intros ht].
  case_decide; [|apply preserves_ret].
  apply preserves_bind; [apply preserves_gets|intros st].
  apply preserves_bind.
  - repeat case_decide;
      auto using preserves_only_slots_changed, preserves_only_filter_added,
                 preserves_everything_changed.
  - intros mx. preserves_steps.
Qed.

Lemma configuration_ids p q :
  configuration q = configuration p →
  slot_ids q = slot_ids p ∧ filter_ids q = filter_ids p.
Proof. unfold configuration, slot_ids, filter_ids. by intros [= -> _ _ -> _ _ _]. Qed.

(** The cache key after a call that returned. *)
Lemma construct_matrix_hash p q :
  construct_matrix p = Ok tt q →
  _matrix_hash q = hashobj (slot_ids p) (filter_ids p).
Proof.
  unfold construct_matrix. rewrite !bind_gets.
  case_decide as Hh.
  - rewrite bind_gets. intros (mx & p' & _ & H)%bind_Ok_inv.
    cbv beta in H. rewrite !bind_modify in H. by injection H as <-.
  - by intros [= <-].
Qed.

Lemma construct_matrix_current p :
  _matrix_hash p = hashobj (slot_ids p) (filter_ids p) →
  construct_matrix p = Ok tt p.
Proof.
  intros H. unfold construct_matrix. rewrite !bind_gets.
  by rewrite decide_False by (by intros []).
Qed.

(** C3: the fingerprint is computed from the ordered slot and filter
    identifiers and nothing else is done when it equals the cached one;
    after a call that returned, the cached fingerprint is the current
    one, a second call returns the very same state (matrix and object
    stores included), and so does a call in any state with the same
    identifier lists and cache, whatever became of the filter
    parameters, the enablement entries and the slot configuration. *)
Theorem construct_matrix_idempotent :
  (∀ p, _matrix_hash p = hashobj (slot_ids p) (filter_ids p) →
        construct_matrix p = Ok tt p)
  ∧ (∀ p q, construct_matrix p = Ok tt q →
       _matrix_hash q = hashobj (slot_ids q) (filter_ids q)
       ∧ construct_matrix q = Ok tt q
       ∧ ∀ q', slot_ids q' = slot_ids q →
               filter_ids q' = filter_ids q →
               _matrix_hash q' = _matrix_hash q →
               construct_matrix q' = Ok tt q').
Proof.
  split; [apply construct_matrix_current|].
  intros p q Hq.
  destruct (configuration_ids p q) as [Hs Hf].
  { by apply (preserves_Ok _ _ _ _ _ preserves_construct_matrix Hq). }
  assert (_matrix_hash q = hashobj (slot_ids q) (filter_ids q)) as Hh.
  { rewrite Hs, Hf. by apply construct_matrix_hash. }
  split; [done|]. split; [by apply construct_matrix_current|].
  intros q' Hs' Hf' Hh'. apply construct_matrix_current. congruence.
Qed.

End construct_properties.

Section store_properties.
Context `{env : Env}.
Implicit Types p q : Pipeline.

Lemma set_datasets_id p : set_datasets (datasets p) p = p.
Proof. by destruct p. Qed.

Lemma set_rowobjs_id p : set_rowobjs (rowobjs p) p = p.
Proof. by destruct p. Qed.

Lemma children_length prev c n : length (children prev c n) = n.
Proof. revert prev c. induction n; intros; simpl; [done|]. by rewrite IHn. Qed.

Lemma row_cells_nonempty r p : row_cells r p ≠ [] → r < length (rowobjs p).
Proof.
  unfold row_cells. intros H. destruct (decide (r < length (rowobjs p))); [done|].
  rewrite list_lookup_total_alt, lookup_ge_None_2 in H by lia. done.
Qed.

(** *** One chain of children *)

Lemma with_chain_0 r prev p : with_chain r prev 0 p = p.
Proof.
  unfold with_chain. simpl. rewrite app_nil_r, set_datasets_id.
  rewrite list_alter_id; [apply set_rowobjs_id|]. intros row. apply app_nil_r.
Qed.

Lemma with_chain_S r prev n p :
  with_chain r (length (datasets p)) n (with_chain r prev 1 p)
  = with_chain r prev (S n) p.
Proof.
  unfold with_chain, set_rowobjs, set_datasets. destruct p. simpl. f_equal.
  - rewrite <- app_assoc, length_app, Nat.add_1_r. reflexivity.
  - rewrite list_alter_alter_eq. apply list_alter_ext; [|done].
    intros row _. simpl. rewrite length_app, Nat.add_1_r, <- app_assoc.
    reflexivity.
Qed.

Lemma chain_children_Ok {A} r ds (fs : list A) p :
  chain_children r ds fs p = Ok tt (with_chain r ds (length fs) p).
Proof.
  revert ds p. induction fs as [|f fs IH]; intros ds p; simpl.
  - by rewrite with_chain_0.
  - unfold RTDC_Hierarchy, row_append.
    rewrite bind_assoc, bind_gets, bind_assoc, bind_modify, bind_ret.
    rewrite bind_assoc, bind_gets, bind_modify. rewrite IH.
    change (set_rowobjs _ _) with (with_chain r ds 1 p).
    f_equal. apply with_chain_S.
Qed.

Lemma getitem_last {A} (l : list A) : Py.getitem l (-1) = last l.
Proof.
  unfold Py.getitem. simpl. destruct l as [|x l]; [done|].
  rewrite last_lookup. simpl length.
  destruct (Z.leb_spec (- Z.of_nat (S (length l))) (-1)); [|lia].
  f_equal. lia.
Qed.

Lemma with_chain_row r prev n p :
  r < length (rowobjs p) →
  row_cells r (with_chain r prev n p)
  = row_cells r p ++ seq (length (datasets p)) n.
Proof.
  intros Hr. unfold row_cells, with_chain. simpl.
  rewrite !list_lookup_total_alt.
  destruct (lookup_lt_is_Some_2 (rowobjs p) r Hr) as [row Hrow].
  rewrite list_lookup_alter_eq, Hrow. done.
Qed.

Lemma with_chain_row_ne r r' prev n p :
  r ≠ r' → row_cells r' (with_chain r prev n p) = row_cells r' p.
Proof.
  intros Hr. unfold row_cells, with_chain. simpl.
  rewrite !list_lookup_total_alt. by rewrite list_lookup_alter_ne.
Qed.

(** The loop of the second branch does what the loop of the other
    branches does, starting from the last cell of the row. *)
Lemma extend_row_Ok {A} r (fs : list A) p l :
  last (row_cells r p) = Some l →
  extend_row r fs p = Ok tt (with_chain r l (length fs) p).
Proof.
  revert p l. induction fs as [|f fs IH]; intros p l Hl; simpl.
  - by rewrite with_chain_0.
  - rewrite bind_gets, getitem_last, Hl, bind_expect_Some.
    unfold RTDC_Hierarchy, row_append.
    rewrite bind_assoc, bind_gets, bind_assoc, bind_modify, bind_ret.
    rewrite bind_assoc, bind_gets, bind_modify.
    assert (r < length (rowobjs p)) as Hr.
    { apply row_cells_nonempty. intros E. by rewrite E in Hl. }
    change (set_rowobjs _ _) with (with_chain r l 1 p).
    rewrite (IH _ (length (datasets p))).
    + f_equal. apply with_chain_S.
    + rewrite with_chain_row by done. simpl. by rewrite last_snoc.
Qed.

End store_properties.
Section store_invariant.
Context `{env : Env}.
Implicit Types p q : Pipeline.

Lemma frame_with_chain r prev n p : frame (with_chain r prev n p) = frame p.
Proof. reflexivity. Qed.

Lemma datasets_with_chain r prev n p :
  datasets (with_chain r prev n p)
  = datasets p ++ children prev (length (datasets p)) n.
Proof. done. Qed.

Lemma rowobjs_length_with_chain r prev n p :
  length (rowobjs (with_chain r prev n p)) = length (rowobjs p).
Proof. unfold with_chain. simpl. by rewrite length_alter. Qed.

Lemma concat_alter_app {A} (rows : list (list A)) r new :
  r < length rows →
  concat (alter (λ row, row ++ new) r rows) ≡ₚ concat rows ++ new.
Proof.
  revert r. induction rows as [|row rows IH]; intros r Hr; simpl in *; [lia|].
  destruct r as [|r]; simpl.
  - rewrite <- !app_assoc. apply Permutation_app_head, Permutation_app_comm.
  - rewrite <- app_assoc. apply Permutation_app_head, IH. lia.
Qed.

Lemma alter_ge {A} (f : A → A) (l : list A) i : length l ≤ i → alter f i l = l.
Proof.
  revert i. induction l as [|x l IH]; intros i Hi; [done|].
  destruct i as [|i]; simpl in *; [lia|]. f_equal. apply IH. lia.
Qed.

Lemma store_ok_with_chain r prev n p :
  store_ok p → store_ok (with_chain r prev n p).
Proof.
  unfold store_ok. rewrite datasets_with_chain, length_app, children_length.
  unfold with_chain. simpl. intros [Hnd Hv].
  destruct (decide (r < length (rowobjs p))) as [Hr|Hr].
  - rewrite concat_alter_app by done. rewrite Forall_forall in Hv. split.
    + apply NoDup_app. split; [done|]. split; [|apply NoDup_seq].
      intros c Hc Hc'. apply Hv in Hc. apply elem_of_seq in Hc'. lia.
    + apply Forall_app. split.
      * apply Forall_forall. intros c Hc. apply Hv in Hc. lia.
      * apply Forall_forall. intros c Hc. apply elem_of_seq in Hc. lia.
  - rewrite alter_ge by lia. split; [done|].
    eapply Forall_impl; [exact Hv|]. simpl. lia.
Qed.

Lemma concat_lookup {A} (rows : list (list A)) r row :
  rows !! r = Some row → ∃ l1 l2, concat rows = l1 ++ row ++ l2.
Proof.
  intros H. rewrite <- (take_drop_middle _ _ _ H), concat_app. simpl. eauto.
Qed.



Lemma store_ok_row p r :
  store_ok p → r < length (rowobjs p) →
  NoDup (row_cells r p) ∧ Forall (λ c, c < length (datasets p)) (row_cells r p).
Proof.
  intros [Hnd Hv] Hr.
  destruct (lookup_lt_is_Some_2 _ _ Hr) as [row Hrow].
  unfold row_cells. rewrite list_lookup_total_alt, Hrow. simpl.
  destruct (concat_lookup _ _ _ Hrow) as (l1 & l2 & E). rewrite E in Hnd, Hv.
  apply NoDup_app in Hnd as (_ & _ & Hnd). apply NoDup_app in Hnd as (Hnd & _).
  apply Forall_app in Hv as (_ & Hv). apply Forall_app in Hv as (Hv & _). done.
Qed.

Lemma stretched_refl p : stretched p p.
Proof. by repeat split. Qed.

Lemma stretched_trans p q s : stretched p q → stretched q s → stretched p s.
Proof.
  intros (Hf & Hd & Hl & Hr) (Hf' & Hd' & Hl' & Hr').
  repeat split; [congruence | by trans (datasets q) | congruence |].
  intros r. by trans (row_cells r q).
Qed.

Lemma stretched_with_chain r prev n p : stretched p (with_chain r prev n p).
Proof.
  split; [apply frame_with_chain|]. split; [by apply prefix_app_r|].
  split; [apply rowobjs_length_with_chain|]. intros r'.
  destruct (decide (r = r')) as [<-|Hne].
  - destruct (decide (r < length (rowobjs p))).
    + rewrite with_chain_row by done. by apply prefix_app_r.
    + unfold row_cells, with_chain. simpl.
      rewrite !list_lookup_total_alt, list_lookup_alter_eq.
      rewrite lookup_ge_None_2 by lia. done.
  - by rewrite with_chain_row_ne.
Qed.

Lemma grown_refl p : grown p p.
Proof. by repeat split. Qed.

Lemma grown_trans p q s : grown p q → grown q s → grown p s.
Proof.
  intros (Hf & Hd & Hr) (Hf' & Hd' & Hr').
  repeat split; [congruence | by trans (datasets q) | by trans (rowobjs q)].
Qed.

Lemma grown_row_cells p q r :
  grown p q → r < length (rowobjs p) → row_cells r q = row_cells r p.
Proof.
  intros (_ & _ & [k Hk]) Hr. unfold row_cells.
  rewrite Hk, !list_lookup_total_alt. by rewrite lookup_app_l.
Qed.

Lemma grown_rowobjs_length p q :
  grown p q → length (rowobjs p) ≤ length (rowobjs q).
Proof. intros (_ & _ & H). by apply prefix_length. Qed.

(** *** A new row *)

Lemma with_row_row raw n p :
  row_cells (length (rowobjs p)) (with_row raw n p)
  = length (datasets p) :: seq (S (length (datasets p))) n.
Proof.
  unfold with_row. rewrite with_chain_row.
  - unfold row_cells. simpl. rewrite list_lookup_total_middle by done.
    simpl. by rewrite length_app, Nat.add_1_r.
  - simpl. rewrite length_app. simpl. lia.
Qed.

Lemma grown_with_row raw n p : grown p (with_row raw n p).
Proof.
  unfold with_row. split; [reflexivity|]. split.
  - rewrite datasets_with_chain. simpl. rewrite <- app_assoc. by apply prefix_app_r.
  - unfold with_chain. simpl.
    rewrite alter_app_r_alt by done. by apply prefix_app_r.
Qed.

Lemma store_ok_with_row raw n p : store_ok p → store_ok (with_row raw n p).
Proof.
  intros [Hnd Hv]. apply store_ok_with_chain. unfold store_ok. simpl.
  rewrite length_app, concat_app. simpl.
  rewrite Forall_forall in Hv. split.
  - apply NoDup_app. split; [done|]. split; [|apply NoDup_singleton].
    intros c Hc ->%list_elem_of_singleton. apply Hv in Hc. lia.
  - apply Forall_app. split.
    + apply Forall_forall. intros c Hc. apply Hv in Hc. lia.
    + apply Forall_singleton. lia.
Qed.

End store_invariant.
Section strategies.
Context `{env : Env}.
Implicit Types p q : Pipeline.

(** *** The bodies that build a new row *)

Lemma update_new_dataset (ds : list Dataset) raw f :
  alter f (length ds) (ds ++ [raw]) = ds ++ [f raw].
Proof. rewrite alter_app_r_alt by done. by rewrite Nat.sub_diag. Qed.

Lemma new_row_plain_Ok sl p :
  (let* ds := new_dataset (s_path sl) (s_identifier sl) in
   let* row := new_row [ds] in
   let* fs := gets filters in
   chain_children row ds fs ;;
   ret row) p
  = Ok (length (rowobjs p))
       (with_row (mkDataset (s_identifier sl) (Raw (s_path sl)) default_config None)
                 (length (filters p)) p).
Proof.
  unfold new_dataset, new_row.
  rewrite bind_assoc, bind_gets, bind_assoc, bind_modify, bind_ret.
  rewrite bind_assoc, bind_gets, bind_assoc, bind_modify, bind_ret.
  rewrite bind_gets. erewrite bind_Ok by apply chain_children_Ok. done.
Qed.

Lemma new_row_updated_Ok sl p :
  (let* ds := new_dataset (s_path sl) (s_identifier sl) in
   update_dataset ds (set_config (Dataslot_update_dataset sl)) ;;
   let* row := new_row [ds] in
   let* fs := gets filters in
   chain_children row ds fs ;;
   ret row) p
  = Ok (length (rowobjs p))
       (with_row (set_config (Dataslot_update_dataset sl)
                    (mkDataset (s_identifier sl) (Raw (s_path sl)) default_config None))
                 (length (filters p)) p).
Proof.
  unfold new_dataset, new_row, update_dataset.
  rewrite bind_assoc, bind_gets, bind_assoc, bind_modify, bind_ret.
  rewrite bind_assoc, bind_gets, bind_modify.
  rewrite bind_assoc, bind_gets, bind_assoc, bind_modify, bind_ret.
  rewrite bind_gets. erewrite bind_Ok by apply chain_children_Ok.
  unfold ret. f_equal. unfold with_row. simpl.
  rewrite update_new_dataset. reflexivity.
Qed.

(** *** The search for an existing row *)

Lemma getitem_0 {A} (l : list A) : Py.getitem l 0 = head l.
Proof. by destruct l. Qed.

Lemma find_row_Ok i mx p :
  Forall (λ r, row_cells r p ≠ []) mx →
  ∃ o, find_row i mx p = Ok o p ∧ ∀ r, o = Some r → r ∈ mx.
Proof.
  induction mx as [|r mx IH]; intros H; simpl.
  - eexists. split; [done|]. by intros r [=].
  - apply Forall_cons in H as [Hr H].
    rewrite bind_gets, getitem_0.
    destruct (row_cells r p) as [|c row] eqn:E; [done|].
    change (head (c :: row)) with (Some c).
    rewrite bind_expect_Some, bind_gets. case_decide.
    + eexists. split; [done|]. intros ? [= <-]. by left.
    + destruct (IH H) as (o & -> & Ho). exists o. split; [done|].
      intros r' Hr'. right. by apply Ho.
Qed.

(** *** Collecting the rows *)

Lemma returns_collect_rows body sls p0 p (G : Pipeline → nat → Prop) :
  (∀ sl q, store_ok q → grown p0 q →
     returns (body sl) q (λ r q', store_ok q' ∧ grown q q' ∧ G q' r)) →
  (∀ q q' r, G q r → grown q q' → G q' r) →
  store_ok p → grown p0 p →
  returns (collect_rows body sls) p
    (λ rows q, store_ok q ∧ grown p q
               ∧ length rows = length sls ∧ Forall (G q) rows).
Proof.
  intros Hbody Hmono. revert p. induction sls as [|sl sls IH]; intros p Hok Hg; simpl.
  - apply returns_ret. split; [done|]. split; [apply grown_refl|]. by split.
  - apply returns_bind. eapply returns_weaken; [by apply Hbody|].
    intros r q (Hok' & Hg' & HG). simpl.
    apply returns_bind. eapply returns_weaken.
    { apply IH; [done|]. by eapply grown_trans. }
    intros rows q' (Hok'' & Hg'' & Hlen & HGs). simpl.
    apply returns_ret. split; [done|]. split; [by eapply grown_trans|]. split.
    + simpl. by rewrite Hlen.
    + apply Forall_cons. split; [by eapply Hmono | done].
Qed.

Lemma frame_fields p q :
  frame q = frame p →
  filters q = filters p ∧ slots q = slots p ∧ matrix q = matrix p
  ∧ _matrix_hash q = _matrix_hash p ∧ _matrix_slots q = _matrix_slots p
  ∧ _matrix_filters q = _matrix_filters p
  ∧ configuration q = configuration p.
Proof. unfold frame, configuration. intros [= ]. by repeat split; try congruence. Qed.

Lemma longer_row_grown n p q r :
  n < length (row_cells r p) → grown p q → n < length (row_cells r q).
Proof.
  intros Hn Hg. rewrite (grown_row_cells p q r Hg); [done|].
  apply row_cells_nonempty. intros E. rewrite E in Hn. simpl in Hn. lia.
Qed.

(** *** The three branches *)

Lemma only_slots_changed_returns p :
  store_ok p →
  Forall (λ r, length (filters p) < length (row_cells r p)) (matrix p) →
  returns only_slots_changed p
    (λ rows q, store_ok q ∧ grown p q ∧ length rows = length (slots p)
               ∧ Forall (λ r, length (filters p) < length (row_cells r q)) rows).
Proof.
  intros Hok Hmx. unfold only_slots_changed. apply returns_bind, returns_gets.
  apply (returns_collect_rows _ _ p p
           (λ q r, length (filters p) < length (row_cells r q)));
    [|by eauto using longer_row_grown|done|apply grown_refl].
  intros sl q Hokq Hg.
  destruct (frame_fields p q) as (Hf & _ & Hm & _); [apply Hg|].
  apply returns_bind, returns_gets. rewrite Hm.
  destruct (find_row_Ok (s_identifier sl) (matrix p) q) as (o & Ho & Hin).
  { eapply Forall_impl; [exact Hmx|]. intros r Hr.
    pose proof (longer_row_grown _ _ _ _ Hr Hg) as Hr'.
    intros E. rewrite E in Hr'. simpl in Hr'. lia. }
  apply returns_bind. eapply returns_step; [exact Ho|]. destruct o as [r|].
  - apply returns_ret. split; [done|]. split; [apply grown_refl|].
    rewrite Forall_forall in Hmx.
    eapply longer_row_grown; [|exact Hg]. apply Hmx. by apply Hin.
  - eapply returns_step; [apply new_row_updated_Ok|].
    split; [by apply store_ok_with_row|]. split; [apply grown_with_row|].
    rewrite with_row_row, Hf. simpl. rewrite length_seq. lia.
Qed.

Lemma everything_changed_returns p :
  store_ok p →
  returns everything_changed p
    (λ rows q, store_ok q ∧ grown p q ∧ length rows = length (slots p)
               ∧ Forall (λ r, length (filters p) < length (row_cells r q)) rows).
Proof.
  intros Hok. unfold everything_changed. apply returns_bind, returns_gets.
  apply (returns_collect_rows _ _ p p
           (λ q r, length (filters p) < length (row_cells r q)));
    [|by eauto using longer_row_grown|done|apply grown_refl].
  intros sl q Hokq Hg.
  destruct (frame_fields p q) as (Hf & _); [apply Hg|].
  eapply returns_step; [apply new_row_plain_Ok|].
  split; [by apply store_ok_with_row|]. split; [apply grown_with_row|].
  rewrite with_row_row, Hf. simpl. rewrite length_seq. lia.
Qed.

(** The loop over [enumerate(self.slots)] visits the rows at the first
    [len(self.slots)] positions of the matrix, one after the other. *)
Lemma extend_rows_for_each {A B} mx ii (sls : list A) (added : list B) p :
  ii + length sls ≤ length mx →
  extend_rows mx ii sls added p
  = for_each (λ r, extend_row r added) (take (length sls) (drop ii mx)) p.
Proof.
  revert ii p. induction sls as [|sl sls IH]; intros ii p Hlen; simpl in *.
  - done.
  - destruct (lookup_lt_is_Some_2 mx ii) as [r Hr]; [lia|].
    rewrite Hr, bind_expect_Some. rewrite (drop_S _ _ _ Hr). simpl.
    unfold bind. destruct (extend_row r added p) as [[] q|e q]; [|done].
    apply IH. lia.
Qed.

Lemma extend_each_returns {B} (added : list B) L p :
  store_ok p →
  Forall (λ r, row_cells r p ≠ []) L →
  returns (for_each (λ r, extend_row r added) L) p
    (λ _ q, store_ok q ∧ stretched p q
            ∧ Forall (λ r, length (row_cells r p) + length added
                           ≤ length (row_cells r q)) L).
Proof.
  revert p. induction L as [|r L IH]; intros p Hok HL; simpl.
  - apply returns_ret. split; [done|]. split; [apply stretched_refl|done].
  - apply Forall_cons in HL as [Hr HL].
    destruct (last (row_cells r p)) as [l|] eqn:El;
      [|by apply last_None in El].
    apply returns_bind. eapply returns_step; [by apply extend_row_Ok|].
    set (q1 := with_chain r l (length added) p).
    pose proof (stretched_with_chain r l (length added) p) as Hs1. fold q1 in Hs1.
    assert (∀ r', length (row_cells r' p) ≤ length (row_cells r' q1)) as Hle.
    { intros r'. apply prefix_length, Hs1. }
    eapply returns_weaken.
    { apply IH; [by apply store_ok_with_chain|].
      eapply Forall_impl; [exact HL|]. intros r' Hr' E.
      specialize (Hle r'). rewrite E in Hle.
      simpl in Hr'. destruct (row_cells r' p); [done|simpl in Hle; lia]. }
    intros [] q (Hokq & Hs & Hall). split; [done|].
    split; [by eapply stretched_trans|].
    assert (∀ r', length (row_cells r' q1) ≤ length (row_cells r' q)) as Hle'.
    { intros r'. apply prefix_length, Hs. }
    apply Forall_cons. split.
    + specialize (Hle' r). subst q1.
      rewrite with_chain_row, length_app, length_seq in Hle'; [done|].
      by apply row_cells_nonempty.
    + eapply Forall_impl; [exact Hall|]. intros r' Hr'. simpl in Hr'.
      specialize (Hle r'). lia.
Qed.

Lemma only_filter_added_returns p n :
  store_ok p →
  length (slots p) ≤ length (matrix p) →
  Forall (λ r, row_cells r p ≠ []) (matrix p) →
  returns (only_filter_added n) p
    (λ rows q, store_ok q ∧ stretched p q ∧ rows = matrix p
               ∧ Forall (λ r, length (row_cells r p) + (length (filters p) - n)
                              ≤ length (row_cells r q))
                        (take (length (slots p)) (matrix p))).
Proof.
  intros Hok Hlen Hmx. unfold only_filter_added.
  rewrite <- length_drop.
  apply returns_bind, returns_gets. apply returns_bind, returns_gets.
  apply returns_bind, returns_gets. apply returns_bind.
  unfold returns at 1. rewrite extend_rows_for_each by (simpl; lia).
  rewrite drop_0. fold (returns (for_each (λ r, extend_row r (drop n (filters p)))
                                   (take (length (slots p)) (matrix p))) p).
  eapply returns_weaken.
  { apply extend_each_returns; [done|]. by apply Forall_take. }
  intros [] q (Hokq & Hs & Hall). by apply returns_ret.
Qed.

End strategies.
Section construct_total.
Context `{env : Env}.
Implicit Types p q : Pipeline.

Lemma grown_datasets p q : grown p q → datasets p `prefix_of` datasets q.
Proof. by intros (_ & ? & _). Qed.

(** The three-way choice builds a row for every slot, with a cell for
    the raw dataset and for every filter. *)
Lemma rebuild_returns p :
  wf p →
  returns
    (if decide (_matrix_filters p = filter_ids p) then only_slots_changed
     else if decide (_matrix_slots p = slot_ids p
                     ∧ _matrix_filters p
                       = take (length (_matrix_filters p)) (filter_ids p))
          then only_filter_added (length (_matrix_filters p))
          else everything_changed) p
    (λ mx q, store_ok q ∧ frame q = frame p
             ∧ datasets p `prefix_of` datasets q
             ∧ length mx = length (slots p)
             ∧ Forall (λ r, length (filters p) < length (row_cells r q)) mx).
Proof.
  intros (Hok & Hlen & Hrows & Hcache).
  assert (length (filter_ids p) = length (filters p)) as Hfl
    by (unfold filter_ids; by rewrite length_fmap).
  assert (length (slot_ids p) = length (slots p)) as Hsl
    by (unfold slot_ids; by rewrite length_fmap).
  destruct (decide (_matrix_filters p = filter_ids p)) as [Hf|Hf].
  - eapply returns_weaken.
    { apply only_slots_changed_returns; [done|]. by rewrite <- Hfl, <- Hf. }
    intros mx q (? & Hg & ? & ?).
    split; [done|]. split; [apply Hg|]. split; [apply Hg|]. by split.
  - destruct (decide _) as [[Hs Hpre]|_].
    + assert (length (_matrix_filters p) ≤ length (filters p)) as Hn.
      { pose proof (f_equal length Hpre) as Hl.
        rewrite length_take in Hl. rewrite <- Hfl, Hl. apply Nat.le_min_r. }
      assert (length (matrix p) = length (slots p)) as Hml by congruence.
      eapply returns_weaken.
      { apply only_filter_added_returns; [done|lia|].
        eapply Forall_impl; [exact Hrows|]. intros r Hr E. simpl in Hr.
        rewrite E in Hr. simpl in Hr. lia. }
      intros mx q (? & Hst & -> & Hall).
      rewrite take_ge in Hall by lia.
      split; [done|]. split; [apply Hst|]. split; [apply Hst|].
      split; [lia|].
      rewrite Forall_forall in Hrows, Hall. apply Forall_forall.
      intros r Hr. specialize (Hrows r Hr). specialize (Hall r Hr). lia.
    + eapply returns_weaken; [by apply everything_changed_returns|].
      intros mx q (? & Hg & ? & ?).
    split; [done|]. split; [apply Hg|]. split; [apply Hg|]. by split.
Qed.

Lemma cache_current p :
  collision_free → cache_ok p →
  _matrix_hash p = hashobj (slot_ids p) (filter_ids p) →
  _matrix_slots p = slot_ids p ∧ _matrix_filters p = filter_ids p.
Proof.
  intros [Hinj Hnone] [Hc|(Hc & _)] Hh.
  - apply Hinj. congruence.
  - destruct (Hnone (slot_ids p) (filter_ids p)). congruence.
Qed.

(** From a well-formed state, [construct_matrix] returns a well-formed
    state whose matrix is current; the configuration and the datasets
    that existed are untouched. *)
Lemma construct_matrix_returns p :
  collision_free → wf p →
  returns construct_matrix p
    (λ _ q, wf q ∧ configuration q = configuration p
            ∧ _matrix_slots q = slot_ids p
            ∧ _matrix_filters q = filter_ids p
            ∧ _matrix_hash q = hashobj (slot_ids p) (filter_ids p)
            ∧ datasets p `prefix_of` datasets q).
Proof.
  intros Hcf Hwf. unfold construct_matrix.
  do 4 apply returns_bind, returns_gets.
  destruct (decide (_matrix_hash p ≠ hashobj (slot_ids p) (filter_ids p)))
    as [Hh|Hh].
  - apply returns_bind, returns_gets. apply returns_bind.
    eapply returns_weaken; [by apply rebuild_returns|].
    intros mx q (Hok & Hfr & Hpre & Hlen & Hall).
    destruct (frame_fields p q Hfr) as (Hf & Hs & _ & _ & _ & _ & Hcfg).
    do 3 apply returns_bind, returns_modify. apply returns_modify.
    split; [|by repeat split].
    split; [exact Hok|]. simpl. split.
    { unfold slot_ids. by rewrite length_fmap. }
    split; [|by left].
    unfold filter_ids. rewrite length_fmap. exact Hall.
  - apply dec_stable in Hh. apply returns_ret. split; [exact Hwf|].
    destruct Hwf as (Hok & Hlen & Hrows & Hcache).
    destruct (cache_current p Hcf Hcache Hh) as [Hs Hf].
    by repeat split.
Qed.

End construct_total.

Section filters_appended.
Context `{env : Env}.
Implicit Types p q : Pipeline.

Lemma chained_on_prefix ds ds' prev new :
  ds `prefix_of` ds' → chained_on ds prev new → chained_on ds' prev new.
Proof.
  intros Hpre. revert prev. induction new as [|c new IH]; intros prev; simpl; [done|].
  intros [Hc Hnew]. split; [|by apply IH].
  by eapply prefix_lookup_Some.
Qed.

Lemma chained_on_children ds prev n :
  chained_on (ds ++ children prev (length ds) n) prev (seq (length ds) n).
Proof.
  revert ds prev. induction n as [|n IH]; intros ds prev; simpl; [done|]. split.
  - by rewrite list_lookup_middle.
  - rewrite cons_middle, app_assoc.
    replace (S (length ds)) with (length (ds ++
      [mkDataset (hierarchy_identifier (length ds)) (Hierarchy prev)
         default_config None])) by (rewrite length_app; simpl; lia).
    apply IH.
Qed.





End filters_appended.

Section get_dataset_properties.
Context `{env : Env}.
Implicit Types p q : Pipeline.

(** *** The loop over the filter stages *)


Lemma apply_stages_other fs cells ds c :
  c ∉ take (length fs) cells → apply_stages fs cells ds !! c = ds !! c.
Proof.
  revert cells ds. induction fs as [|f fs IH]; intros [|c' cells] ds; simpl; try done.
  intros [Hne Hc]%not_elem_of_cons. rewrite IH by done.
  by rewrite list_lookup_alter_ne.
Qed.

Lemma apply_stages_lookup fs cells ds i f c :
  NoDup cells → fs !! i = Some f → cells !! i = Some c →
  apply_stages fs cells ds !! c = set_config f <$> ds !! c.
Proof.
  revert cells ds i. induction fs as [|f' fs IH]; intros [|c' cells] ds i; try done.
  intros [Hc' Hnd]%NoDup_cons. destruct i as [|i]; simpl.
  - intros [= ->] [= ->]. rewrite apply_stages_other.
    + by rewrite list_lookup_alter_eq.
    + intros (j & Hj & _)%elem_of_take. apply Hc'.
      by eapply list_elem_of_lookup_2.
  - intros Hf Hc. rewrite (IH _ _ i) by done.
    rewrite list_lookup_alter_ne; [done|]. intros ->. apply Hc'.
    by eapply list_elem_of_lookup_2.
Qed.

Lemma stages_Ok row fstates k n q :
  k + n ≤ length (filters q) →
  k + n ≤ length row →
  (∀ filt, filt ∈ take n (drop k (filters q)) →
           is_Some (fstates !! f_identifier filt)) →
  for_each (filter_stage row fstates) (seq k n) q
  = Ok tt (set_datasets
             (apply_stages
                (stage_of (filters_used q) fstates <$> take n (drop k (filters q)))
                (take n (drop k row)) (datasets q)) q).
Proof.
  revert k q. induction n as [|n IH]; intros k q Hf Hr Hent; simpl.
  - unfold ret. by rewrite set_datasets_id.
  - destruct (lookup_lt_is_Some_2 (filters q) k) as [filt Hfilt]; [lia|].
    destruct (lookup_lt_is_Some_2 row k) as [c Hc]; [lia|].
    rewrite (drop_S _ _ _ Hfilt), (drop_S _ _ _ Hc) in *. simpl in *.
    destruct (Hent filt) as [on Hon]; [by left|].
    set (q1 := set_datasets
                 (alter (set_config (stage_of (filters_used q) fstates filt)) c
                    (datasets q)) q).
    assert (filter_stage row fstates k q = Ok tt q1) as Hstage.
    { unfold filter_stage. rewrite bind_gets, Hfilt, bind_expect_Some.
      rewrite Hon, bind_expect_Some, bind_gets, Hc, bind_expect_Some.
      subst q1. unfold stage_of. rewrite Hon. simpl.
      by destruct (on && _). }
    rewrite (bind_Ok _ _ _ _ _ Hstage).
    rewrite (IH (S k) q1); [done|simpl; lia|lia|].
    intros f' Hf'. apply Hent. by right.
Qed.

(** *** One call on a current matrix *)

Lemma get_dataset_current q si fi apply_filter ret_color r slot fstates dsend :
  _matrix_hash q = hashobj (slot_ids q) (filter_ids q) →
  Py.getitem (matrix q) si = Some r →
  Py.getitem (slots q) si = Some slot →
  element_states q !! s_identifier slot = Some fstates →
  Z.to_nat (fi + 1) ≤ length (filters q) →
  Z.to_nat (fi + 1) ≤ length (row_cells r q) →
  (∀ filt, filt ∈ take (Z.to_nat (fi + 1)) (filters q) →
           is_Some (fstates !! f_identifier filt)) →
  Py.getitem (row_cells r q) fi = Some dsend →
  get_dataset si fi apply_filter ret_color q
  = Ok (dsend, if ret_color then Some (s_color slot) else None)
       (set_datasets
          (alter (finish slot apply_filter) dsend
             (apply_stages
                (stage_of (filters_used q) fstates
                   <$> take (Z.to_nat (fi + 1)) (filters q))
                (take (Z.to_nat (fi + 1)) (row_cells r q)) (datasets q))) q).
Proof.
  intros Hh Hr Hs He Hnf Hnr Hent Hend. unfold get_dataset.
  rewrite (bind_Ok _ _ _ _ _ (construct_matrix_current q Hh)).
  rewrite bind_gets, Hr, bind_expect_Some, bind_gets.
  rewrite bind_gets, Hs, bind_expect_Some.
  rewrite bind_gets, He, bind_expect_Some.
  unfold range.
  erewrite bind_Ok; last first.
  { apply stages_Ok; [done|done|]. by rewrite drop_0. }
  rewrite !drop_0, Hend, bind_expect_Some.
  unfold update_dataset. rewrite bind_assoc, bind_gets, bind_modify.
  unfold finish.
  destruct apply_filter.
  - rewrite bind_assoc, bind_gets, bind_modify. simpl.
    rewrite list_alter_alter_eq. by destruct ret_color.
  - rewrite bind_ret. by destruct ret_color.
Qed.

Lemma construct_matrix_again p q :
  construct_matrix p = Ok tt q →
  _matrix_hash q = hashobj (slot_ids q) (filter_ids q).
Proof.
  intros Hq. destruct (configuration_ids p q) as [-> ->].
  { by apply (preserves_Ok _ _ _ _ _ preserves_construct_matrix Hq). }
  by apply construct_matrix_hash.
Qed.

Lemma get_dataset_after_construct p q si fi apply_filter ret_color :
  construct_matrix p = Ok tt q →
  get_dataset si fi apply_filter ret_color p
  = get_dataset si fi apply_filter ret_color q.
Proof.
  intros Hq. unfold get_dataset. rewrite (bind_Ok _ _ _ _ _ Hq).
  by rewrite (bind_Ok _ _ _ _ _
                (construct_matrix_current q (construct_matrix_again p q Hq))).
Qed.

Lemma getitem_nat {A} (l : list A) (i : nat) : Py.getitem l (Z.of_nat i) = l !! i.
Proof.
  unfold Py.getitem. destruct (Z.leb_spec 0 (Z.of_nat i)); [|lia].
  by rewrite Nat2Z.id.
Qed.

Lemma wf_row p r :
  wf p → r ∈ matrix p →
  length (_matrix_filters p) < length (row_cells r p)
  ∧ NoDup (row_cells r p)
  ∧ Forall (λ c, c < length (datasets p)) (row_cells r p).
Proof.
  intros (Hok & _ & Hrows & _) Hr.
  rewrite Forall_forall in Hrows. specialize (Hrows r Hr). split; [done|].
  apply store_ok_row; [done|].
  apply row_cells_nonempty. intros E. rewrite E in Hrows. simpl in Hrows. lia.
Qed.

(** The rounds of the loop run in ascending order: the loop up to and
    including stage [n] is the loop over the stages below [n] followed
    by stage [n]. *)
Lemma stages_ascending row fstates n p :
  for_each (filter_stage row fstates) (range (Z.of_nat n + 1)) p
  = (for_each (filter_stage row fstates) (range (Z.of_nat n)) ;;
     filter_stage row fstates n) p.
Proof.
  unfold range. replace (Z.to_nat (Z.of_nat n + 1)) with (S n) by lia.
  rewrite Nat2Z.id, seq_S, for_each_app. simpl.
  unfold bind. destruct (for_each _ _ p) as [[] q|e q]; [|done].
  by destruct (filter_stage row fstates n q) as [[] ?|? ?].
Qed.

(** C4: on a well-formed pipeline, [get_dataset(slot_index, filt_index)]
    with indices in range and enablement entries present returns the
    cell at column [filt_index] of the slot's row.  The stages
    [0 .. filt_index] are run in ascending order; the cell of stage [ii]
    ends with the configuration of filter [ii] pushed onto it when the
    slot's entry for that filter is true and the filter is used, and
    with filtering disabled otherwise; the returned cell in addition gets
    the slot's overrides and, if asked, its mask.  Nothing else
    changes. *)
Theorem get_dataset_stages p (slot_index filt_index : nat) apply_filter ret_color
    slot fstates :
  collision_free → wf p →
  slots p !! slot_index = Some slot →
  element_states p !! s_identifier slot = Some fstates →
  filt_index < length (filters p) →
  (∀ filt, filt ∈ take (S filt_index) (filters p) →
           is_Some (fstates !! f_identifier filt)) →
  ∃ q r dsend p',
    construct_matrix p = Ok tt q
    ∧ matrix q !! slot_index = Some r
    ∧ row_cells r q !! filt_index = Some dsend
    ∧ get_dataset (Z.of_nat slot_index) (Z.of_nat filt_index)
        apply_filter ret_color p
      = Ok (dsend, if ret_color then Some (s_color slot) else None) p'
    ∧ shape p' = shape q
    ∧ (∀ ii c filt,
         ii ≤ filt_index →
         row_cells r q !! ii = Some c →
         filters p !! ii = Some filt →
         ∃ d, datasets q !! c = Some d
              ∧ datasets p' !! c
                = Some (let d' := set_config
                                    (stage_of (filters_used p) fstates filt) d in
                        if decide (ii = filt_index)
                        then finish slot apply_filter d' else d'))
    ∧ (∀ c, c ∉ take (S filt_index) (row_cells r q) →
            datasets p' !! c = datasets q !! c)
    ∧ (∀ n s,
         for_each (filter_stage (row_cells r q) fstates) (range (Z.of_nat n + 1)) s
         = (for_each (filter_stage (row_cells r q) fstates) (range (Z.of_nat n)) ;;
            filter_stage (row_cells r q) fstates n) s).
Proof.
  intros Hcf Hwf Hslot Hent Hfi Hall.
  pose proof (construct_matrix_returns p Hcf Hwf) as Hc.
  apply returns_Ok in Hc as ([] & q & Hq & Hwfq & Hcfg & Hms & Hmf & Hh & Hpre).
  injection Hcfg as Hfs Hfu _ Hss _ Hes _.
  assert (length (matrix q) = length (slots p)) as Hlen.
  { destruct Hwfq as (_ & -> & _). rewrite Hms. unfold slot_ids.
    by rewrite length_fmap. }
  destruct (lookup_lt_is_Some_2 (matrix q) slot_index) as [r Hr].
  { rewrite Hlen. by eapply lookup_lt_Some. }
  destruct (wf_row q r Hwfq) as (Hrl & Hnd & Hvalid);
    [by eapply list_elem_of_lookup_2|].
  assert (length (_matrix_filters q) = length (filters p)) as Hnf.
  { rewrite Hmf. unfold filter_ids. by rewrite length_fmap. }
  destruct (lookup_lt_is_Some_2 (row_cells r q) filt_index) as [dsend Hend]; [lia|].
  assert (Z.to_nat (Z.of_nat filt_index + 1) = S filt_index) as Hn by lia.
  eexists q, r, dsend, _. split; [done|]. split; [done|]. split; [done|].
  split.
  { rewrite (get_dataset_after_construct p q) by done.
    apply (get_dataset_current q _ _ _ _ r slot fstates dsend).
    - apply (construct_matrix_again p q Hq).
    - by rewrite getitem_nat.
    - by rewrite getitem_nat, Hss.
    - by rewrite Hes.
    - rewrite Hn, Hfs. lia.
    - rewrite Hn. lia.
    - by rewrite Hn, Hfs.
    - by rewrite getitem_nat. }
  rewrite Hn, Hfs, Hfu. split; [done|]. simpl. split; [|split].
  - intros ii c filt Hii Hc Hfilt.
    assert (c < length (datasets q)) as Hcv.
    { rewrite Forall_forall in Hvalid. apply Hvalid.
      by eapply list_elem_of_lookup_2. }
    destruct (lookup_lt_is_Some_2 _ _ Hcv) as [d Hd]. exists d. split; [done|].
    assert (apply_stages
              (stage_of (filters_used p) fstates <$> take (S filt_index) (filters p))
              (take (S filt_index) (row_cells r q)) (datasets q) !! c
            = Some (set_config (stage_of (filters_used p) fstates filt) d)) as Hst.
    { rewrite (apply_stages_lookup _ _ _ ii (stage_of (filters_used p) fstates filt)).
      - by rewrite Hd.
      - eapply sublist_NoDup; [exact Hnd|apply sublist_take].
      - rewrite list_lookup_fmap, lookup_take_lt by lia. by rewrite Hfilt.
      - by rewrite lookup_take_lt by lia. }
    case_decide as Hdec.
    + subst ii. assert (c = dsend) as -> by congruence.
      by rewrite list_lookup_alter_eq, Hst.
    + rewrite list_lookup_alter_ne; [done|]. intros <-.
      apply Hdec. by eapply NoDup_lookup.
  - intros c Hc. rewrite list_lookup_alter_ne.
    + apply apply_stages_other.
      rewrite length_fmap, length_take_le by lia.
      by rewrite take_take, Nat.min_id.
    + intros <-. apply Hc. apply elem_of_take. exists filt_index. split; [done|lia].
  - intros n s. apply stages_ascending.
Qed.

End get_dataset_properties.

Section plot_datasets.
Context `{env : Env}.
Implicit Types p q : Pipeline.





(** *** The loop over the slots *)

Section loop.
Variables (p q : Pipeline) (plot_id : ident).
Hypothesis Hwf : wf q.
Hypothesis Hq : construct_matrix p = Ok tt q.
Hypothesis Hmf : _matrix_filters q = filter_ids q.
Hypothesis Hml : length (matrix q) = length (slots q).
Hypothesis Hentries :
  ∀ slot, slot ∈ slots q →
    ∃ row, element_states q !! s_identifier slot = Some row
           ∧ is_Some (row !! plot_id)
           ∧ ∀ filt, filt ∈ filters q → is_Some (row !! f_identifier filt).

Let fi : Z := (Z.of_nat (num_filters q) - 1)%Z.






End loop.


End plot_datasets.

Section adding.
Context `{env : Env}.
Implicit Types p q : Pipeline.

(** ** add_filter and add_plot *)

Lemma mark_False_lookup sids elem es k :
  mark_False sids elem es !! k
  = if decide (k ∈ sids) then <[elem := false]> <$> es !! k else es !! k.
Proof.
  unfold mark_False. revert es. induction sids as [|sid sids IH]; intros es; simpl.
  - done.
  - rewrite IH.
    assert ((match es !! sid with
             | Some row => <[sid := <[elem := false]> row]> es
             | None => es
             end) !! k
            = if decide (k = sid) then <[elem := false]> <$> es !! k else es !! k)
      as ->.
    { destruct (decide (k = sid)) as [->|Hne].
      - destruct (es !! sid) as [row|] eqn:E; [by rewrite lookup_insert_eq|].
        by rewrite E.
      - destruct (es !! sid); [by rewrite lookup_insert_ne|done]. }
    destruct (decide (k ∈ sids)) as [Hin|Hnin], (decide (k = sid)) as [->|Hne].
    + rewrite decide_True by (by left). destruct (es !! sid); simpl; [|done].
      by rewrite insert_insert_eq.
    + by rewrite decide_True by (by right).
    + by rewrite decide_True by (by left).
    + rewrite decide_False; [done|]. by intros [?|?]%elem_of_cons.
Qed.

(** The loop [for slot_id in self.slot_ids: es[slot_id][elem] = False]. *)
Lemma mark_entries_Ok sids elem p :
  Forall (λ sid, is_Some (element_states p !! sid)) sids →
  for_each (λ sid, set_element_False sid elem) sids p
  = Ok tt (set_element_states (mark_False sids elem (element_states p)) p).
Proof.
  revert p. induction sids as [|sid sids IH]; intros p Hall; simpl.
  - unfold ret. by rewrite set_element_states_id.
  - apply Forall_cons in Hall as [[row Hrow] Hall].
    unfold bind at 1. unfold set_element_False at 1.
    unfold bind, gets, expect. rewrite Hrow. simpl.
    rewrite IH.
    + done.
    + simpl. eapply Forall_impl; [exact Hall|]. intros k [r Hr].
      destruct (decide (k = sid)) as [->|Hne].
      * rewrite lookup_insert_eq. by eexists.
      * rewrite lookup_insert_ne by done. by eexists.
Qed.

Lemma mark_entries_Raise sids elem p :
  ¬ Forall (λ sid, is_Some (element_states p !! sid)) sids →
  ∃ es, for_each (λ sid, set_element_False sid elem) sids p
        = Raise KeyError (set_element_states es p).
Proof.
  revert p. induction sids as [|sid sids IH]; intros p Hall; simpl.
  - destruct Hall. constructor.
  - unfold bind at 1. unfold set_element_False at 1.
    unfold bind, gets, expect.
    destruct (element_states p !! sid) as [row|] eqn:Hrow; simpl.
    + destruct (IH (set_element_states
                      (<[sid := <[elem := false]> row]> (element_states p)) p))
        as [es Hes].
      * intros H. apply Hall. constructor; [by eexists|].
        eapply Forall_impl; [exact H|]. simpl. intros k [r Hr].
        destruct (decide (k = sid)) as [->|Hne]; [by eexists|].
        rewrite lookup_insert_ne in Hr by done. by eexists.
      * exists es. rewrite Hes. done.
    + exists (element_states p). by rewrite set_element_states_id.
Qed.

(** X1: on a pipeline whose enablement dictionary has a row for every
    slot, [add_filter] returns the filter's identifier; the filter is at
    the given position (by default the end) of the filter list, its
    identifier is appended to the used list, every slot's row has the
    entry [False] for it, and nothing else changes. *)
Theorem add_filter_returns p fo index :
  Forall (λ sid, is_Some (element_states p !! sid)) (slot_ids p) →
  let filt := match fo with None => new_Filter | Some g => resolve g end in
  ∃ q, add_filter fo index p = Ok (f_identifier filt) q
       ∧ filters q
         = Py.list_insert (Py.index_or_len index (filters p)) filt (filters p)
       ∧ filters_used q = filters_used p ++ [f_identifier filt]
       ∧ (∀ sid, element_states q !! sid
                 = if decide (sid ∈ slot_ids p)
                   then <[f_identifier filt := false]> <$> element_states p !! sid
                   else element_states p !! sid)
       ∧ (plots q, slots q, slots_used q) = (plots p, slots p, slots_used p)
       ∧ (matrix q, _matrix_hash q, _matrix_slots q, _matrix_filters q,
          datasets q, rowobjs q)
         = (matrix p, _matrix_hash p, _matrix_slots p, _matrix_filters p,
            datasets p, rowobjs p).
Proof.
  intros Hrows filt. unfold add_filter.
  rewrite bind_gets, bind_modify, bind_gets.
  erewrite bind_Ok; last by apply mark_entries_Ok.
  rewrite bind_gets, bind_modify. eexists. split; [done|].
  simpl. split; [done|]. split; [done|]. split; [|done].
  intros sid. apply mark_False_lookup.
Qed.

(** X2: when some slot has no row in the enablement dictionary,
    [add_filter] raises [KeyError] after it has inserted the filter:
    the filter list is one longer, the used list is as before. *)
Theorem add_filter_missing_row p fo index :
  ¬ Forall (λ sid, is_Some (element_states p !! sid)) (slot_ids p) →
  let filt := match fo with None => new_Filter | Some g => resolve g end in
  ∃ q, add_filter fo index p = Raise KeyError q
       ∧ filters q
         = Py.list_insert (Py.index_or_len index (filters p)) filt (filters p)
       ∧ length (filters q) = S (length (filters p))
       ∧ filters_used q = filters_used p.
Proof.
  intros Hrows filt. unfold add_filter.
  rewrite bind_gets, bind_modify, bind_gets. fold filt.
  destruct (mark_entries_Raise (slot_ids p) (f_identifier filt)
              (set_filters (Py.list_insert (Py.index_or_len index (filters p))
                              filt (filters p)) p)) as [es Hes]; [done|].
  change (slot_ids (set_filters _ p)) with (slot_ids p).
  erewrite bind_Raise by exact Hes.
  eexists. split; [done|]. simpl. split; [done|]. split; [|done].
  unfold Py.list_insert. rewrite length_app. simpl.
  rewrite length_take, length_drop. lia.
Qed.

(** X3: on a pipeline whose enablement dictionary has a row for every
    slot, [add_plot] returns the plot's identifier; the plot is at the
    given position of the plot list, every slot's row has the entry
    [False] for it, and nothing else changes: there is no used list for
    plots. *)
Theorem add_plot_returns p po index :
  Forall (λ sid, is_Some (element_states p !! sid)) (slot_ids p) →
  let plot := match po with None => new_Plot | Some g => resolve g end in
  ∃ q, add_plot po index p = Ok (p_identifier plot) q
       ∧ plots q
         = Py.list_insert (Py.index_or_len index (plots p)) plot (plots p)
       ∧ (∀ sid, element_states q !! sid
                 = if decide (sid ∈ slot_ids p)
                   then <[p_identifier plot := false]> <$> element_states p !! sid
                   else element_states p !! sid)
       ∧ (filters q, filters_used q, slots q, slots_used q)
         = (filters p, filters_used p, slots p, slots_used p)
       ∧ (matrix q, _matrix_hash q, _matrix_slots q, _matrix_filters q,
          datasets q, rowobjs q)
         = (matrix p, _matrix_hash p, _matrix_slots p, _matrix_filters p,
            datasets p, rowobjs p).
Proof.
  intros Hrows plot. unfold add_plot.
  rewrite bind_gets, bind_modify, bind_gets.
  erewrite bind_Ok; last by apply mark_entries_Ok.
  eexists. split; [done|].
  simpl. split; [done|]. split; [|done].
  intros sid. apply mark_False_lookup.
Qed.

End adding.

Section adding_slots.
Context `{env : Env}.
Implicit Types p q : Pipeline.

(** ** The outcomes of add_slot *)

Lemma list_insert_0 {A} (x : A) l : Py.list_insert 0 x l = x :: l.
Proof.
  unfold Py.list_insert. simpl.
  destruct (Z.min_spec 0 (Z.of_nat (length l))) as [[_ ->]|[? ->]]; [done|].
  by replace (Z.to_nat (Z.of_nat (length l))) with 0 by lia.
Qed.

(** X4: with the default position, [add_slot] appends the slot, gives
    it a row with the entry [False] for every filter and appends its
    identifier to the used list; it then returns the identifier when the
    pipeline had no slot or the new slot exposes the features of the
    first slot, and raises [ValueError] otherwise.  The slots in between
    are not looked at, and no other exception is possible. *)
Theorem add_slot_appends p g :
  let slot := resolve g in
  let q := add_slot_state slot None p in
  slots q = slots p ++ [slot]
  ∧ slots_used q = slots_used p ++ [s_identifier slot]
  ∧ element_states q = <[s_identifier slot := with_False (filter_ids p) ∅]>
                         (element_states p)
  ∧ add_slot (Some g) None None p
    = if same_features_as_first p slot
      then Ok (s_identifier slot) q
      else Raise ValueError q.
Proof.
  intros slot q.
  assert (slots q = slots p ++ [slot]) as Hs.
  { unfold q, add_slot_state. simpl. by rewrite list_insert_end. }
  split; [done|]. split; [done|]. split; [done|].
  rewrite add_slot_unfold. cbv zeta. fold slot q. rewrite Hs.
  unfold same_features_as_first.
  destruct (slots p) as [|s0 l]; simpl.
  - by rewrite decide_True.
  - destruct (decide _); [by rewrite bool_decide_true|by rewrite bool_decide_false].
Qed.

(** X5: with position [0] the new slot becomes the first slot, so the
    feature check compares it with itself: the call returns whatever
    features the slots already present expose. *)
Theorem add_slot_first_accepts p g :
  let slot := resolve g in
  ∃ q, add_slot (Some g) None (Some 0%Z) p = Ok (s_identifier slot) q
       ∧ slots q = slot :: slots p
       ∧ slots_used q = slots_used p ++ [s_identifier slot]
       ∧ element_states q = <[s_identifier slot := with_False (filter_ids p) ∅]>
                              (element_states p).
Proof.
  intros slot. rewrite add_slot_unfold. cbv zeta. fold slot.
  assert (slots (add_slot_state slot (Some 0%Z) p) = slot :: slots p) as Hs.
  { unfold add_slot_state. simpl. by rewrite list_insert_0. }
  rewrite Hs, getitem_0_cons, decide_True by done.
  eexists. split; [done|]. split; [done|]. done.
Qed.

End adding_slots.

Section removing.
Context `{env : Env}.
Implicit Types p q : Pipeline.

(** ** remove_filter and remove_plot *)

Lemma list_index_Some `{EqDecision A} (x : A) l :
  x ∈ l →
  ∃ i, Py.list_index x l = Some i ∧ l !! i = Some x ∧ x ∉ take i l.
Proof.
  induction l as [|y l IH]; simpl; [by intros ?%elem_of_nil|].
  intros Hin. destruct (decide (y = x)) as [->|Hne].
  - exists 0. split; [done|]. split; [done|]. apply not_elem_of_nil.
  - apply elem_of_cons in Hin as [->|Hin]; [done|].
    destruct (IH Hin) as (i & -> & Hi & Hn). exists (S i).
    split; [done|]. split; [done|]. simpl.
    intros [->|?]%elem_of_cons; done.
Qed.

Lemma list_pop_fmap {A B} (f : A → B) i (l : list A) :
  f <$> Py.list_pop i l = Py.list_pop i (f <$> l).
Proof. unfold Py.list_pop. by rewrite fmap_app, fmap_take, fmap_drop. Qed.

Lemma list_pop_remove `{EqDecision A} (x : A) l i :
  Py.list_index x l = Some i → Py.list_pop i l = Py.list_remove x l.
Proof.
  revert i. induction l as [|y l IH]; intros i; simpl; [done|].
  destruct (decide (y = x)) as [->|Hne].
  - by intros [= <-].
  - destruct (Py.list_index x l) as [j|]; [|done]. intros [= <-].
    unfold Py.list_pop in *. simpl. f_equal. by apply IH.
Qed.

Lemma list_pop_length {A} (l : list A) i :
  i < length l → S (length (Py.list_pop i l)) = length l.
Proof.
  intros Hi. unfold Py.list_pop.
  rewrite length_app, length_take, length_drop. lia.
Qed.

Lemma contains_spec `{EqDecision A} (x : A) l :
  Py.contains x l = true ↔ x ∈ l.
Proof. unfold Py.contains. apply bool_decide_eq_true. Qed.

(** X6: [remove_filter] raises [ValueError] and changes nothing when no
    filter has the identifier.  Otherwise it returns: the first filter
    with that identifier is gone from the filter list, the first
    occurrence of the identifier is gone from the used list if it was in
    it, the entry for the identifier is gone from every row of the
    enablement dictionary, and nothing else changes. *)
Theorem remove_filter_outcome p filt_id :
  (filt_id ∉ filter_ids p → remove_filter filt_id p = Raise ValueError p)
  ∧ (filt_id ∈ filter_ids p →
     ∃ q, remove_filter filt_id p = Ok tt q
          ∧ filter_ids q = Py.list_remove filt_id (filter_ids p)
          ∧ S (length (filters q)) = length (filters p)
          ∧ filters_used q
            = (if decide (filt_id ∈ filters_used p)
               then Py.list_remove filt_id (filters_used p)
               else filters_used p)
          ∧ (∀ sid, element_states q !! sid
                    = delete filt_id <$> element_states p !! sid)
          ∧ (plots q, slots q, slots_used q, _old_state q)
            = (plots p, slots p, slots_used p, _old_state p)
          ∧ (matrix q, _matrix_hash q, _matrix_slots q, _matrix_filters q,
             datasets q, rowobjs q)
            = (matrix p, _matrix_hash p, _matrix_slots p, _matrix_filters p,
               datasets p, rowobjs p)).
Proof.
  split.
  - intros Hn. unfold remove_filter. rewrite bind_gets.
    rewrite list_index_None by done. by rewrite bind_expect_None.
  - intros Hin. destruct (list_index_Some _ _ Hin) as (i & Hi & Hl & _).
    unfold remove_filter. rewrite bind_gets, Hi, bind_expect_Some.
    rewrite bind_gets, bind_modify, bind_gets.
    assert (i < length (filters p)) as Hlen.
    { apply lookup_lt_Some in Hl. unfold filter_ids in Hl.
      by rewrite length_fmap in Hl. }
    change (filters_used (set_filters _ p)) with (filters_used p).
    unfold Py.contains.
    destruct (decide (filt_id ∈ filters_used p)) as [Hu|Hu].
    + rewrite bool_decide_true by done. rewrite bind_modify, bind_gets.
      eexists. split; [done|]. simpl. split.
      { unfold filter_ids. simpl. rewrite list_pop_fmap. by apply list_pop_remove. }
      split; [by apply list_pop_length|]. split; [done|]. split; [|done].
      intros sid. by rewrite lookup_fmap.
    + rewrite bool_decide_false by done. rewrite bind_ret, bind_gets.
      eexists. split; [done|]. simpl. split.
      { unfold filter_ids. simpl. rewrite list_pop_fmap. by apply list_pop_remove. }
      split; [by apply list_pop_length|]. split; [done|]. split; [|done].
      intros sid. by rewrite lookup_fmap.
Qed.

(** X7: [remove_plot] raises [ValueError] and changes nothing when no
    plot has the identifier.  Otherwise it returns: the first plot with
    that identifier is gone from the plot list, the entry for the
    identifier is gone from every row of the enablement dictionary, and
    nothing else changes. *)
Theorem remove_plot_outcome p plot_id :
  (plot_id ∉ plot_ids p → remove_plot plot_id p = Raise ValueError p)
  ∧ (plot_id ∈ plot_ids p →
     ∃ q, remove_plot plot_id p = Ok tt q
          ∧ plot_ids q = Py.list_remove plot_id (plot_ids p)
          ∧ S (length (plots q)) = length (plots p)
          ∧ (∀ sid, element_states q !! sid
                    = delete plot_id <$> element_states p !! sid)
          ∧ (filters q, filters_used q, slots q, slots_used q, _old_state q)
            = (filters p, filters_used p, slots p, slots_used p, _old_state p)
          ∧ (matrix q, _matrix_hash q, _matrix_slots q, _matrix_filters q,
             datasets q, rowobjs q)
            = (matrix p, _matrix_hash p, _matrix_slots p, _matrix_filters p,
               datasets p, rowobjs p)).
Proof.
  split.
  - intros Hn. unfold remove_plot. rewrite bind_gets.
    rewrite list_index_None by done. by rewrite bind_expect_None.
  - intros Hin. destruct (list_index_Some _ _ Hin) as (i & Hi & Hl & _).
    unfold remove_plot. rewrite bind_gets, Hi, bind_expect_Some.
    rewrite bind_gets, bind_modify, bind_gets.
    assert (i < length (plots p)) as Hlen.
    { apply lookup_lt_Some in Hl. unfold plot_ids in Hl.
      by rewrite length_fmap in Hl. }
    eexists. split; [done|]. simpl. split.
    { unfold plot_ids. simpl. rewrite list_pop_fmap. by apply list_pop_remove. }
    split; [by apply list_pop_length|]. split; [|done].
    intros sid. by rewrite lookup_fmap.
Qed.

(** *** Adding and removing again *)

Lemma list_insert_split {A} (i : Z) (x : A) l :
  ∃ k, k ≤ length l ∧ Py.list_insert i x l = take k l ++ x :: drop k l.
Proof.
  unfold Py.list_insert. eexists. split; [|done].
  destruct (Z.ltb_spec i 0); lia.
Qed.

Lemma list_index_middle `{EqDecision A} (x : A) l1 l2 :
  x ∉ l1 → Py.list_index x (l1 ++ x :: l2) = Some (length l1).
Proof.
  induction l1 as [|y l1 IH]; simpl; intros Hn.
  - by rewrite decide_True.
  - rewrite decide_False; last by (intros ->; apply Hn; left).
    rewrite IH; [done|]. intros ?. apply Hn. by right.
Qed.

Lemma list_pop_middle {A} (x : A) l1 l2 :
  Py.list_pop (length l1) (l1 ++ x :: l2) = l1 ++ l2.
Proof.
  unfold Py.list_pop. rewrite take_app_length.
  change (l1 ++ x :: l2) with (l1 ++ [x] ++ l2). rewrite app_assoc.
  rewrite drop_app_length'; [done|]. rewrite length_app. simpl. lia.
Qed.

Lemma list_remove_end `{EqDecision A} (x : A) l :
  x ∉ l → Py.list_remove x (l ++ [x]) = l.
Proof.
  induction l as [|y l IH]; simpl; intros Hn.
  - by rewrite decide_True.
  - rewrite decide_False; last by (intros ->; apply Hn; left).
    rewrite IH; [done|]. intros ?. apply Hn. by right.
Qed.

(** deleting the entries that [mark_False] made, in rows without one *)
Lemma unmark_False sids elem (es : gmap ident (gmap ident bool)) :
  (∀ sid row, es !! sid = Some row → row !! elem = None) →
  delete elem <$> mark_False sids elem es = es.
Proof.
  intros Hfresh. apply map_eq. intros sid.
  rewrite lookup_fmap, mark_False_lookup.
  destruct (es !! sid) as [row|] eqn:E; simpl.
  - specialize (Hfresh _ _ E).
    destruct (decide _); simpl; f_equal.
    + rewrite delete_insert_eq. by apply delete_id.
    + by apply delete_id.
  - by destruct (decide _).
Qed.

(** X8: a filter whose identifier the pipeline does not know yet (no
    filter has it, it is not in the used list, no row has an entry for
    it) is added at any position and removed again: the pipeline is as
    it was before. *)
Theorem add_remove_filter p fo index :
  let filt := match fo with None => new_Filter | Some g => resolve g end in
  Forall (λ sid, is_Some (element_states p !! sid)) (slot_ids p) →
  f_identifier filt ∉ filter_ids p →
  f_identifier filt ∉ filters_used p →
  (∀ sid row, element_states p !! sid = Some row → row !! f_identifier filt = None) →
  (add_filter fo index ;; remove_filter (f_identifier filt)) p = Ok tt p.
Proof.
  intros filt Hrows Hnew Hunused Hfresh.
  unfold add_filter. fold filt.
  rewrite bind_assoc, bind_gets, bind_assoc, bind_modify, bind_assoc, bind_gets.
  rewrite bind_assoc.
  erewrite bind_Ok; last by apply mark_entries_Ok.
  rewrite bind_assoc, bind_gets, bind_assoc, bind_modify, bind_ret.
  destruct (list_insert_split (Py.index_or_len index (filters p)) filt (filters p))
    as (k & Hk & ->).
  unfold remove_filter. rewrite bind_gets.
  assert (Py.list_index (f_identifier filt)
            (f_identifier <$> (take k (filters p) ++ filt :: drop k (filters p)))
          = Some (length (take k (filters p)))) as Hi.
  { rewrite fmap_app, fmap_cons.
    rewrite <- (length_fmap f_identifier (take k (filters p))).
    apply list_index_middle. rewrite fmap_take.
    intros Hin. apply Hnew. eapply subseteq_take, Hin. }
  unfold filter_ids at 1. simpl. rewrite Hi, bind_expect_Some.
  rewrite bind_gets, bind_modify, bind_gets. simpl.
  rewrite list_pop_middle, take_drop.
  unfold Py.contains. rewrite bool_decide_true by (apply elem_of_app; right; by left).
  rewrite bind_modify, bind_gets. unfold modify. simpl.
  rewrite list_remove_end by done. rewrite unmark_False by done.
  by destruct p.
Qed.

(** X9: a plot whose identifier the pipeline does not know yet (no
    plot has it, no row has an entry for it) is added at any position
    and removed again: the pipeline is as it was before. *)
Theorem add_remove_plot p po index :
  let plot := match po with None => new_Plot | Some g => resolve g end in
  Forall (λ sid, is_Some (element_states p !! sid)) (slot_ids p) →
  p_identifier plot ∉ plot_ids p →
  (∀ sid row, element_states p !! sid = Some row → row !! p_identifier plot = None) →
  (add_plot po index ;; remove_plot (p_identifier plot)) p = Ok tt p.
Proof.
  intros plot Hrows Hnew Hfresh.
  unfold add_plot. fold plot.
  rewrite bind_assoc, bind_gets, bind_assoc, bind_modify, bind_assoc, bind_gets.
  rewrite bind_assoc.
  erewrite bind_Ok; last by apply mark_entries_Ok.
  rewrite bind_ret.
  destruct (list_insert_split (Py.index_or_len index (plots p)) plot (plots p))
    as (k & Hk & ->).
  unfold remove_plot. rewrite bind_gets.
  assert (Py.list_index (p_identifier plot)
            (p_identifier <$> (take k (plots p) ++ plot :: drop k (plots p)))
          = Some (length (take k (plots p)))) as Hi.
  { rewrite fmap_app, fmap_cons.
    rewrite <- (length_fmap p_identifier (take k (plots p))).
    apply list_index_middle. rewrite fmap_take.
    intros Hin. apply Hnew. eapply subseteq_take, Hin. }
  unfold plot_ids at 1. simpl. rewrite Hi, bind_expect_Some.
  rewrite bind_gets, bind_modify, bind_gets. unfold modify. simpl.
  rewrite list_pop_middle, take_drop.
  rewrite unmark_False by done.
  by destruct p.
Qed.

End removing.

Section keeping.
Context {S : Type}.
Implicit Types (I : S → Prop).

Lemma keeps_ret {A} I (a : A) : keeps I (ret a).
Proof. by intros p. Qed.

Lemma keeps_raise {A} I e : keeps I (raise (A:=A) e).
Proof. by intros p. Qed.

Lemma keeps_expect {A} I e (o : option A) : keeps I (expect e o).
Proof. destruct o; by intros p. Qed.

Lemma keeps_gets {A} I (f : S → A) : keeps I (gets f).
Proof. by intros p. Qed.

Lemma keeps_modify I (h : S → S) : (∀ p, I p → I (h p)) → keeps I (modify h).
Proof. intros H p. apply H. Qed.

Lemma keeps_bind {A B} I (c : M S A) (k : A → M S B) :
  keeps I c → (∀ a, keeps I (k a)) → keeps I (bind c k).
Proof.
  intros Hc Hk p Hp. unfold bind. specialize (Hc p Hp).
  destruct (c p) as [a q|e q]; simpl in *; [|done].
  by apply Hk.
Qed.

Lemma keeps_for_each {A} I (body : A → M S unit) l :
  (∀ x, keeps I (body x)) → keeps I (for_each body l).
Proof.
  intros Hb. induction l as [|x l IH]; simpl.
  - apply keeps_ret.
  - apply keeps_bind; [apply Hb | done].
Qed.

Lemma keeps_preserves {A X} I (g : S → X) (c : M S A) :
  (∀ p q, g q = g p → I p → I q) → preserves g c → keeps I c.
Proof. intros HI Hc p Hp. apply (HI p); [apply Hc | done]. Qed.

End keeping.

Section sides.
Context `{env : Env}.
Implicit Types p q : Pipeline.

Ltac preserves_steps :=
  repeat first
    [ apply preserves_for_each; intros ?
    | apply preserves_bind; [|intros ?]
    | apply preserves_ret
    | apply preserves_raise
    | apply preserves_expect
    | apply preserves_gets
    | apply preserves_modify; by intros [? ? ? ? ? ? ? ? ? ? [?|] ? ?]
    | progress case_match ].

(** ** The configuration side and the analysis side *)

Lemma preserves_analysis_add_filter filt index :
  preserves analysis (add_filter filt index).
Proof. unfold add_filter, set_element_False. preserves_steps. Qed.

Lemma preserves_analysis_add_plot plot index :
  preserves analysis (add_plot plot index).
Proof. unfold add_plot, set_element_False. preserves_steps. Qed.

Lemma preserves_analysis_add_slot slot path index :
  preserves analysis (add_slot slot path index).
Proof. unfold add_slot, set_element_False. preserves_steps. Qed.

Lemma preserves_analysis_remove_filter filt_id :
  preserves analysis (remove_filter filt_id).
Proof. unfold remove_filter. preserves_steps. Qed.

Lemma preserves_analysis_remove_plot plot_id :
  preserves analysis (remove_plot plot_id).
Proof. unfold remove_plot. preserves_steps. Qed.

Lemma preserves_analysis_remove_slot slot_id :
  preserves analysis (remove_slot slot_id).
Proof. unfold remove_slot. preserves_steps. Qed.

Lemma preserves_analysis_reset : preserves analysis reset.
Proof. unfold reset. preserves_steps. Qed.

Lemma preserves_analysis_setstate state : preserves analysis (__setstate__ state).
Proof.
  unfold __setstate__, reset, add_filter, add_plot, add_slot, set_element_False.
  preserves_steps.
Qed.

(** X10: the methods that edit the configuration ([add_filter],
    [add_plot], [add_slot], [remove_filter], [remove_plot], [remove_slot],
    [reset] and [__setstate__]) never touch the matrix, its cache keys or
    the datasets, whether they return or raise: the matrix stays as it
    is until [construct_matrix] runs. *)
Theorem editing_keeps_analysis p :
  (∀ filt index, analysis (state_of (add_filter filt index p)) = analysis p)
  ∧ (∀ plot index, analysis (state_of (add_plot plot index p)) = analysis p)
  ∧ (∀ slot path index,
       analysis (state_of (add_slot slot path index p)) = analysis p)
  ∧ (∀ filt_id, analysis (state_of (remove_filter filt_id p)) = analysis p)
  ∧ (∀ plot_id, analysis (state_of (remove_plot plot_id p)) = analysis p)
  ∧ (∀ slot_id, analysis (state_of (remove_slot slot_id p)) = analysis p)
  ∧ analysis (state_of (reset p)) = analysis p
  ∧ (∀ state, analysis (state_of (__setstate__ state p)) = analysis p).
Proof.
  split; [intros; apply preserves_analysis_add_filter|].
  split; [intros; apply preserves_analysis_add_plot|].
  split; [intros; apply preserves_analysis_add_slot|].
  split; [intros; apply preserves_analysis_remove_filter|].
  split; [intros; apply preserves_analysis_remove_plot|].
  split; [intros; apply preserves_analysis_remove_slot|].
  split; [apply preserves_analysis_reset|].
  intros; apply preserves_analysis_setstate.
Qed.

Lemma preserves_configuration_filter_stage row fstates ii :
  preserves configuration (filter_stage row fstates ii).
Proof. unfold filter_stage, update_dataset. preserves_steps. Qed.

Lemma preserves_configuration_get_dataset si fi af rc :
  preserves configuration (get_dataset si fi af rc).
Proof.
  unfold get_dataset.
  apply preserves_bind; [apply preserves_construct_matrix|intros _].
  unfold update_dataset.
  repeat first
    [ apply preserves_configuration_filter_stage
    | apply preserves_for_each; intros ?
    | apply preserves_bind; [|intros ?]
    | apply preserves_ret
    | apply preserves_expect
    | apply preserves_gets
    | apply preserves_modify; by intros []
    | progress case_match ].
Qed.

Lemma preserves_configuration_plot_loop plot_id fi idxs acc :
  preserves configuration (plot_loop plot_id fi idxs acc).
Proof.
  revert acc. induction idxs as [|i idxs IH]; intros acc; simpl.
  - apply preserves_ret.
  - repeat first
      [ apply IH
      | apply preserves_configuration_get_dataset
      | apply preserves_bind; [|intros ?]
      | apply preserves_expect
      | apply preserves_gets
      | progress case_match ].
Qed.

Lemma preserves_configuration_get_plot_datasets plot_id :
  preserves configuration (get_plot_datasets plot_id).
Proof.
  unfold get_plot_datasets.
  apply preserves_bind; [apply preserves_gets|intros ?].
  apply preserves_bind; [apply preserves_gets|intros ?].
  apply preserves_configuration_plot_loop.
Qed.

(** X11: the methods that read the analysis ([construct_matrix],
    [get_dataset] and [get_plot_datasets]) never change the
    configuration (the entity lists, the used lists, the enablement
    dictionary and the remembered state), whether they return or
    raise. *)
Theorem reading_keeps_configuration p :
  configuration (state_of (construct_matrix p)) = configuration p
  ∧ (∀ slot_index filt_index apply_filter ret_color,
       configuration
         (state_of (get_dataset slot_index filt_index apply_filter ret_color p))
       = configuration p)
  ∧ (∀ plot_id,
       configuration (state_of (get_plot_datasets plot_id p)) = configuration p).
Proof.
  split; [apply preserves_construct_matrix|].
  split; [intros; apply preserves_configuration_get_dataset|].
  intros; apply preserves_configuration_get_plot_datasets.
Qed.

End sides.

Section slot_lookup.
Context `{env : Env}.
Implicit Types p q : Pipeline.

(** ** get_slot *)

Lemma slot_of_row_Ok slot_id pairs q i slot r :
  pairs !! i = Some (slot, r) →
  slot_id ∈ row_names q r →
  (∀ j s' r', j < i → pairs !! j = Some (s', r') → slot_id ∉ row_names q r') →
  slot_of_row slot_id pairs q = Ok slot q.
Proof.
  revert i. induction pairs as [|[s0 r0] pairs IH]; intros i Hi Hin Hbefore; [done|].
  cbn [slot_of_row]. rewrite !bind_gets. fold (row_names q r0).
  unfold Py.contains. destruct i as [|i].
  - injection Hi as -> ->. by rewrite bool_decide_true.
  - rewrite bool_decide_false by (by apply (Hbefore 0 s0 r0); [lia|]).
    apply (IH i); [done|done|].
    intros j s' r' Hj Hl. apply (Hbefore (S j) s' r'); [lia|done].
Qed.

Lemma slot_of_row_Raise slot_id pairs q :
  (∀ s r, (s, r) ∈ pairs → slot_id ∉ row_names q r) →
  slot_of_row slot_id pairs q = Raise ValueError q.
Proof.
  induction pairs as [|[s0 r0] pairs IH]; intros Hnone; [done|].
  cbn [slot_of_row]. rewrite !bind_gets. fold (row_names q r0).
  unfold Py.contains.
  rewrite bool_decide_false by (apply (Hnone s0 r0); by left).
  apply IH. intros s r Hin. apply (Hnone s r). by right.
Qed.

Lemma preserves_configuration_slot_of_row slot_id pairs :
  preserves configuration (slot_of_row slot_id pairs).
Proof.
  induction pairs as [|[s0 r0] pairs IH]; [done|].
  cbn [slot_of_row].
  apply preserves_bind; [apply preserves_gets|intros ?].
  apply preserves_bind; [apply preserves_gets|intros ?].
  case_match; [apply preserves_ret|apply IH].
Qed.

Lemma preserves_configuration_get_slot slot_id :
  preserves configuration (get_slot slot_id).
Proof.
  unfold get_slot.
  apply preserves_bind; [apply preserves_construct_matrix|intros _].
  apply preserves_bind; [apply preserves_gets|intros ?].
  apply preserves_bind; [apply preserves_gets|intros ?].
  apply preserves_configuration_slot_of_row.
Qed.

Lemma slot_of_row_state slot_id pairs q : state_of (slot_of_row slot_id pairs q) = q.
Proof.
  induction pairs as [|[s0 r0] pairs IH]; [done|].
  cbn [slot_of_row]. rewrite !bind_gets. by case_match.
Qed.

Lemma state_of_get_slot slot_id p :
  state_of (get_slot slot_id p) = state_of (construct_matrix p).
Proof.
  unfold get_slot, bind at 1.
  destruct (construct_matrix p) as [[] q|]; [|done].
  rewrite !bind_gets. apply slot_of_row_state.
Qed.

(** X24: [get_slot] builds the matrix and returns the slot of the first
    row that holds a dataset with the given identifier, be it the raw
    dataset of the row or one of its hierarchy children; it raises
    [ValueError] when no row of the matrix holds such a dataset.  Nothing
    but the matrix is changed. *)
Theorem get_slot_outcome p slot_id :
  collision_free → wf p →
  ∃ q, construct_matrix p = Ok tt q
       ∧ ((∀ r, r ∈ matrix q → slot_id ∉ row_names q r) →
          get_slot slot_id p = Raise ValueError q)
       ∧ (∀ i slot r,
            slots p !! i = Some slot →
            matrix q !! i = Some r →
            slot_id ∈ row_names q r →
            (∀ j r', j < i → matrix q !! j = Some r' → slot_id ∉ row_names q r') →
            get_slot slot_id p = Ok slot q).
Proof.
  intros Hfree Hwf.
  pose proof (construct_matrix_returns p Hfree Hwf) as Hret.
  unfold returns in Hret.
  destruct (construct_matrix p) as [[] q|] eqn:Hq; [|done].
  destruct Hret as (_ & Hc & _).
  assert (slots q = slots p) as Hs.
  { unfold configuration in Hc. injection Hc as ? ? ? ? ? ? ?. done. }
  exists q. split; [done|]. split.
  - intros Hnone. unfold get_slot.
    rewrite (bind_Ok _ _ _ _ _ Hq), !bind_gets.
    apply slot_of_row_Raise. intros s r Hin. apply Hnone.
    apply list_elem_of_lookup in Hin as [i Hi]. unfold zip in Hi.
    apply lookup_zip_with_Some in Hi as (? & ? & [= <- <-] & _ & Hr).
    by eapply list_elem_of_lookup_2.
  - intros i slot r Hslot Hr Hin Hbefore. unfold get_slot.
    rewrite (bind_Ok _ _ _ _ _ Hq), !bind_gets.
    apply (slot_of_row_Ok _ _ _ i slot r); [|done|].
    + apply lookup_zip_with_Some. exists slot, r. by rewrite Hs.
    + intros j s' r' Hj Hl. unfold zip in Hl.
      apply lookup_zip_with_Some in Hl as (? & ? & [= <- <-] & _ & Hr').
      by apply (Hbefore j).
Qed.

End slot_lookup.

Section reachable.
Context `{env : Env}.
Implicit Types p q : Pipeline.

(** ** Well-formedness is kept by every call *)

Lemma wf_skeleton p q : skeleton q = skeleton p → wf p → wf q.
Proof.
  unfold skeleton. intros [= Hm Hh Hs Hf Hd Hr].
  unfold wf, store_ok, cache_ok, row_cells. by rewrite Hm, Hh, Hs, Hf, Hd, Hr.
Qed.

Lemma wf_analysis p q : analysis q = analysis p → wf p → wf q.
Proof.
  unfold analysis. intros [= Hm Hh Hs Hf Hd Hr]. apply wf_skeleton.
  unfold skeleton. by rewrite Hm, Hh, Hs, Hf, Hd, Hr.
Qed.

Lemma preserves_skeleton_update_dataset c f : preserves skeleton (update_dataset c f).
Proof.
  intros p. unfold update_dataset, bind, gets, modify, skeleton. simpl.
  by rewrite length_alter.
Qed.

Lemma preserves_skeleton_filter_stage row fstates ii :
  preserves skeleton (filter_stage row fstates ii).
Proof.
  unfold filter_stage.
  repeat first
    [ apply preserves_skeleton_update_dataset
    | apply preserves_bind; [|intros ?]
    | apply preserves_expect
    | apply preserves_gets
    | progress case_match ].
Qed.

Lemma keeps_wf_construct_matrix : collision_free → keeps wf construct_matrix.
Proof.
  intros Hfree p Hp. pose proof (construct_matrix_returns p Hfree Hp) as H.
  unfold returns in H. destruct (construct_matrix p); [|done]. simpl. tauto.
Qed.

Lemma keeps_wf_get_dataset si fi af rc :
  collision_free → keeps wf (get_dataset si fi af rc).
Proof.
  intros Hfree. unfold get_dataset.
  apply keeps_bind; [by apply keeps_wf_construct_matrix|intros _].
  apply (keeps_preserves _ skeleton); [apply wf_skeleton|].
  repeat first
    [ apply preserves_skeleton_update_dataset
    | apply preserves_skeleton_filter_stage
    | apply preserves_for_each; intros ?
    | apply preserves_bind; [|intros ?]
    | apply preserves_ret
    | apply preserves_expect
    | apply preserves_gets
    | progress case_match ].
Qed.

Lemma keeps_wf_plot_loop plot_id fi idxs acc :
  collision_free → keeps wf (plot_loop plot_id fi idxs acc).
Proof.
  intros Hfree. revert acc. induction idxs as [|i idxs IH]; intros acc; simpl.
  - apply keeps_ret.
  - repeat first
      [ apply IH
      | by apply keeps_wf_get_dataset
      | apply keeps_bind; [|intros ?]
      | apply keeps_expect
      | apply keeps_gets
      | progress case_match ].
Qed.

Lemma keeps_wf_get_plot_datasets plot_id :
  collision_free → keeps wf (get_plot_datasets plot_id).
Proof.
  intros Hfree. unfold get_plot_datasets.
  apply keeps_bind; [apply keeps_gets|intros ?].
  apply keeps_bind; [apply keeps_gets|intros ?].
  by apply keeps_wf_plot_loop.
Qed.

Lemma after_call_wf c p : collision_free → wf p → wf (after_call c p).
Proof.
  intros Hfree Hp. destruct c; simpl.
  - eapply wf_analysis; [apply preserves_analysis_add_filter|done].
  - eapply wf_analysis; [apply preserves_analysis_add_plot|done].
  - eapply wf_analysis; [apply preserves_analysis_add_slot|done].
  - eapply wf_analysis; [apply preserves_analysis_remove_filter|done].
  - eapply wf_analysis; [apply preserves_analysis_remove_plot|done].
  - eapply wf_analysis; [apply preserves_analysis_remove_slot|done].
  - eapply wf_analysis; [apply preserves_analysis_reset|].
    by eapply wf_analysis; [|exact Hp].
  - eapply wf_analysis; [apply preserves_analysis_setstate|done].
  - by apply keeps_wf_construct_matrix.
  - by apply keeps_wf_get_dataset.
  - by apply keeps_wf_get_plot_datasets.
  - rewrite state_of_get_slot. by apply keeps_wf_construct_matrix.
Qed.

Lemma after_calls_snoc cs c p :
  after_calls (cs ++ [c]) p = after_call c (after_calls cs p).
Proof. unfold after_calls. by rewrite foldl_app. Qed.

Lemma new_wf : wf (Pipeline_init [] []).
Proof.
  unfold wf, store_ok, cache_ok. simpl.
  split; [split; constructor|]. split; [done|]. split; [constructor|]. by right.
Qed.

(** X12: whatever methods are called on a well-formed pipeline, with
    whatever arguments and whether they return or raise, the pipeline
    stays well-formed: the matrix has a row object per cached slot, each
    row has a cell per cached filter and the raw cell, no dataset is
    referenced twice, and the cached fingerprint belongs to the cached
    identifier lists.  Hence [construct_matrix] returns in every state
    that a sequence of calls can reach. *)
Theorem calls_keep_wf cs p :
  collision_free → wf p →
  wf (after_calls cs p)
  ∧ ∃ q, construct_matrix (after_calls cs p) = Ok tt q ∧ wf q.
Proof.
  intros Hfree Hp.
  assert (wf (after_calls cs p)) as Hwf.
  { induction cs as [|c cs IH] using rev_ind; [done|].
    rewrite after_calls_snoc. by apply after_call_wf. }
  split; [done|].
  pose proof (construct_matrix_returns _ Hfree Hwf) as H. unfold returns in H.
  destruct (construct_matrix (after_calls cs p)) as [[] q|]; [|done].
  exists q. split; [done|]. tauto.
Qed.

End reachable.

Section loading.
Context `{env : Env}.
Implicit Types p q : Pipeline.

(** ** Loading a serialised state *)

(** *** The three loops of the replay *)

Lemma add_filter_no_slots g p :
  slots p = [] →
  add_filter (Some g) None p
  = Ok (f_identifier (resolve g))
       (set_filters_used (filters_used p ++ [f_identifier (resolve g)])
          (set_filters (filters p ++ [resolve g]) p)).
Proof.
  intros Hs. unfold add_filter.
  rewrite bind_gets, bind_modify, bind_gets.
  unfold slot_ids at 1. simpl slots. rewrite Hs. simpl for_each.
  rewrite bind_ret, bind_gets, bind_modify. unfold ret. simpl.
  by rewrite list_insert_end.
Qed.

Lemma add_plot_no_slots g p :
  slots p = [] →
  add_plot (Some g) None p
  = Ok (p_identifier (resolve g)) (set_plots (plots p ++ [resolve g]) p).
Proof.
  intros Hs. unfold add_plot.
  rewrite bind_gets, bind_modify, bind_gets.
  unfold slot_ids at 1. simpl slots. rewrite Hs. simpl for_each.
  rewrite bind_ret. unfold ret. simpl.
  by rewrite list_insert_end.
Qed.

Lemma filter_loop_Ok (l : list Filter) p :
  slots p = [] →
  for_each (λ filt_state, add_filter (Some (StateDict filt_state)) None ;; ret tt) l p
  = Ok tt (set_filters_used (filters_used p ++ (f_identifier <$> l))
             (set_filters (filters p ++ l) p)).
Proof.
  revert p. induction l as [|f l IH]; intros p Hs.
  - simpl. rewrite !app_nil_r. unfold ret. by destruct p.
  - cbn [for_each]. rewrite bind_assoc.
    rewrite (bind_Ok _ _ _ _ _ (add_filter_no_slots _ p Hs)), bind_ret.
    rewrite IH by done. destruct p; simpl. by rewrite <- !app_assoc.
Qed.

Lemma plot_loop_Ok' (l : list Plot) p :
  slots p = [] →
  for_each (λ plot_state, add_plot (Some (StateDict plot_state)) None ;; ret tt) l p
  = Ok tt (set_plots (plots p ++ l) p).
Proof.
  revert p. induction l as [|f l IH]; intros p Hs.
  - simpl. rewrite !app_nil_r. unfold ret. by destruct p.
  - cbn [for_each]. rewrite bind_assoc.
    rewrite (bind_Ok _ _ _ _ _ (add_plot_no_slots _ p Hs)), bind_ret.
    rewrite IH by done. destruct p; simpl. by rewrite <- !app_assoc.
Qed.

Lemma add_slot_state_slots s p :
  slots (add_slot_state s None p) = slots p ++ [s].
Proof. unfold add_slot_state. simpl. by rewrite list_insert_end. Qed.

Lemma add_slot_after s0 s p :
  head (slots p) = Some s0 →
  add_slot (Some (StateDict s)) None None p
  = if decide (get_rtdc_features (s_path s0) = get_rtdc_features (s_path s))
    then Ok (s_identifier s) (add_slot_state s None p)
    else Raise ValueError (add_slot_state s None p).
Proof.
  intros Hh. rewrite add_slot_unfold. cbv zeta. simpl resolve.
  rewrite add_slot_state_slots.
  destruct (slots p) as [|s1 t]; [done|]. simpl in Hh. injection Hh as ->.
  by rewrite <- app_comm_cons, getitem_0_cons.
Qed.

Lemma add_slot_empty s p :
  slots p = [] →
  add_slot (Some (StateDict s)) None None p
  = Ok (s_identifier s) (add_slot_state s None p).
Proof.
  intros Hs. rewrite add_slot_unfold. cbv zeta. simpl resolve.
  rewrite add_slot_state_slots, Hs. simpl. by rewrite decide_True.
Qed.

Lemma with_slots_fields l p :
  slots (with_slots l p) = slots p ++ l
  ∧ slots_used (with_slots l p) = slots_used p ++ (s_identifier <$> l)
  ∧ (filters (with_slots l p), filters_used (with_slots l p),
     plots (with_slots l p), _old_state (with_slots l p))
    = (filters p, filters_used p, plots p, _old_state p)
  ∧ analysis (with_slots l p) = analysis p.
Proof.
  unfold with_slots. revert p. induction l as [|s l IH]; intros p; simpl.
  - by rewrite !app_nil_r.
  - destruct (IH (add_slot_state s None p)) as (-> & -> & -> & ->).
    rewrite add_slot_state_slots. simpl. by rewrite <- !app_assoc.
Qed.

Lemma with_slots_snoc l s p :
  with_slots (l ++ [s]) p = add_slot_state s None (with_slots l p).
Proof. unfold with_slots. by rewrite foldl_app. Qed.

Lemma slot_loop_Ok s0 (l : list Dataslot) p :
  head (slots p) = Some s0 →
  Forall (λ s, get_rtdc_features (s_path s0) = get_rtdc_features (s_path s)) l →
  for_each (λ slot_state,
              add_slot (Some (StateDict slot_state)) None None ;; ret tt) l p
  = Ok tt (with_slots l p).
Proof.
  revert p. induction l as [|s l IH]; intros p Hh Hall; [done|].
  apply Forall_cons in Hall as [Hs Hall].
  cbn [for_each]. rewrite bind_assoc.
  erewrite bind_Ok;
    last by (rewrite (add_slot_after s0) by done; rewrite decide_True by done).
  rewrite bind_ret.
  apply IH; [|done]. rewrite add_slot_state_slots.
  by destruct (slots p).
Qed.

Lemma slot_loop_Raise s0 (l : list Dataslot) p :
  head (slots p) = Some s0 →
  ¬ Forall (λ s, get_rtdc_features (s_path s0) = get_rtdc_features (s_path s)) l →
  ∃ k s, l !! k = Some s
         ∧ get_rtdc_features (s_path s0) ≠ get_rtdc_features (s_path s)
         ∧ for_each (λ slot_state,
                       add_slot (Some (StateDict slot_state)) None None ;; ret tt) l p
           = Raise ValueError (with_slots (take (S k) l) p).
Proof.
  revert p. induction l as [|s l IH]; intros p Hh Hall.
  - destruct Hall. constructor.
  - cbn [for_each]. setoid_rewrite bind_assoc.
    pose proof (add_slot_after s0 s p Hh) as Hadd.
    destruct (decide (get_rtdc_features (s_path s0) = get_rtdc_features (s_path s)))
      as [Hs|Hs].
    + setoid_rewrite (bind_Ok _ _ _ _ _ Hadd). setoid_rewrite bind_ret.
      destruct (IH (add_slot_state s None p)) as (k & s' & Hk & Hne & Hrun).
      * rewrite add_slot_state_slots. by destruct (slots p).
      * intros H. apply Hall. by constructor.
      * exists (S k), s'. split; [done|]. split; [done|]. by rewrite Hrun.
    + exists 0, s. split; [done|]. split; [done|].
      by rewrite (bind_Raise _ _ _ _ _ Hadd).
Qed.

(** *** The call *)

Lemma getstate_loaded state p : __getstate__ (loaded state p) = state.
Proof. by destruct state. Qed.

Lemma old_state_loaded state p : old_state_value (loaded state p) = Some state.
Proof. by destruct state. Qed.

Lemma setstate_same state p :
  old_state_value p = Some state → __setstate__ state p = Ok tt p.
Proof.
  intros Hold. unfold __setstate__. rewrite bind_gets, Hold.
  by rewrite decide_True.
Qed.

Lemma reset_closed p :
  reset p
  = Ok tt (set_element_states ∅
             (set_slots_used []
                (set_slots []
                   (set_plots [] (set_filters_used [] (set_filters [] p)))))).
Proof. done. Qed.

(** The state in which the slot loop of [__setstate__] starts. *)
Lemma setstate_unfold state p :
  old_state_value p ≠ Some state →
  ∃ p3, slots p3 = []
        ∧ slots_used p3 = []
        ∧ (filters p3, filters_used p3, plots p3)
          = (st_filters state, st_filters_used state, st_plots state)
        ∧ _old_state p3 = Some (mkOldState state true false false)
        ∧ analysis p3 = analysis p
        ∧ __setstate__ state p
          = (for_each (λ slot_state,
                         add_slot (Some (StateDict slot_state)) None None ;; ret tt)
                      (st_slots state) ;;
             modify share_slots_used ;;
             modify share_elements) p3.
Proof.
  intros Hold. unfold __setstate__. rewrite bind_gets.
  rewrite decide_False by done.
  rewrite bind_modify, (bind_Ok _ _ _ _ _ (reset_closed _)).
  erewrite bind_Ok; last by apply filter_loop_Ok.
  rewrite bind_modify.
  erewrite bind_Ok; last by apply plot_loop_Ok'.
  eexists. split; [|split; [|split; [|split; [|split; [|reflexivity]]]]]; done.
Qed.

Lemma share_rest q state b :
  _old_state q = Some (mkOldState state b false false) →
  share_elements (share_slots_used q)
  = set_old_state (Some (mkOldState state b true true))
      (set_slots_used (st_slots_used state)
         (set_element_states (st_elements state) q)).
Proof. destruct q. simpl. by intros ->. Qed.

Lemma setstate_compatible state p :
  old_state_value p ≠ Some state → compatible state →
  __setstate__ state p = Ok tt (loaded state p).
Proof.
  intros Hold Hc.
  destruct (setstate_unfold state p Hold) as (p3 & Hs & Hsu & Hf & Ho & Ha & ->).
  assert (for_each (λ slot_state,
                      add_slot (Some (StateDict slot_state)) None None ;; ret tt)
                   (st_slots state) p3
          = Ok tt (with_slots (st_slots state) p3)) as Hrun.
  { unfold compatible in Hc. destruct (st_slots state) as [|s0 l]; [done|].
    cbn [for_each]. rewrite bind_assoc.
    rewrite (bind_Ok _ _ _ _ _ (add_slot_empty s0 p3 Hs)), bind_ret.
    erewrite (slot_loop_Ok s0); [done| |done].
    by rewrite add_slot_state_slots, Hs. }
  rewrite (bind_Ok _ _ _ _ _ Hrun), bind_modify. unfold modify. f_equal.
  destruct (with_slots_fields (st_slots state) p3) as (Hs' & _ & Hf' & Ha').
  rewrite Hs in Hs'. simpl in Hs'.
  injection Hf' as Hf1 Hf2 Hf3 Hf4. rewrite Ho in Hf4.
  rewrite (share_rest _ state true) by done.
  injection Hf as Hg1 Hg2 Hg3.
  unfold analysis in Ha, Ha'. rewrite Ha in Ha'.
  injection Ha' as Ha1 Ha2 Ha3 Ha4 Ha5 Ha6.
  destruct (with_slots (st_slots state) p3). simpl in *.
  unfold loaded, set_old_state, set_slots_used, set_element_states. simpl.
  f_equal; congruence.
Qed.

Lemma setstate_incompatible state p :
  old_state_value p ≠ Some state → ¬ compatible state →
  ∃ p3 k s0 s,
    slots p3 = []
    ∧ slots_used p3 = []
    ∧ (filters p3, filters_used p3, plots p3)
      = (st_filters state, st_filters_used state, st_plots state)
    ∧ _old_state p3 = Some (mkOldState state true false false)
    ∧ analysis p3 = analysis p
    ∧ head (st_slots state) = Some s0
    ∧ st_slots state !! k = Some s
    ∧ get_rtdc_features (s_path s0) ≠ get_rtdc_features (s_path s)
    ∧ __setstate__ state p
      = Raise ValueError (with_slots (take (S k) (st_slots state)) p3).
Proof.
  intros Hold Hc.
  destruct (setstate_unfold state p Hold) as (p3 & Hs & Hsu & Hf & Ho & Ha & ->).
  unfold compatible in Hc. destruct (st_slots state) as [|s0 l] eqn:El; [done|].
  destruct (slot_loop_Raise s0 l (add_slot_state s0 None p3)) as (k & s & Hk & Hne & Hrun).
  { by rewrite add_slot_state_slots, Hs. }
  { done. }
  exists p3, (S k), s0, s.
  split; [done|]. split; [done|]. split; [done|]. split; [done|]. split; [done|].
  split; [done|]. split; [done|]. split; [done|].
  cbn [for_each]. rewrite !bind_assoc.
  rewrite (bind_Ok _ _ _ _ _ (add_slot_empty s0 p3 Hs)), bind_ret.
  by rewrite (bind_Raise _ _ _ _ _ Hrun).
Qed.

Lemma compatible_dec state : Decision (compatible state).
Proof. unfold compatible. destruct (st_slots state); apply _. Qed.

(** X13: when [__setstate__] is given a state other than the remembered
    one and returns, the pipeline holds exactly that state:
    [__getstate__] gives it back, it is the remembered state, the
    analysis side is untouched, and a second call with the same state
    changes nothing. *)
Theorem setstate_getstate state p q :
  old_state_value p ≠ Some state →
  __setstate__ state p = Ok tt q →
  __getstate__ q = state
  ∧ old_state_value q = Some state
  ∧ analysis q = analysis p
  ∧ __setstate__ state q = Ok tt q.
Proof.
  intros Hold Hrun. destruct (compatible_dec state) as [Hc|Hc].
  - rewrite setstate_compatible in Hrun by done. injection Hrun as <-.
    split; [apply getstate_loaded|]. split; [apply old_state_loaded|].
    split; [done|]. apply setstate_same, old_state_loaded.
  - destruct (setstate_incompatible state p Hold Hc)
      as (? & ? & ? & ? & _ & _ & _ & _ & _ & _ & _ & _ & Hr).
    by rewrite Hr in Hrun.
Qed.

(** X14: a state other than the remembered one is accepted exactly
    when all its slot states expose the features of its first slot
    state; no other property of the state or of the pipeline matters. *)
Theorem setstate_accepts_iff state p :
  old_state_value p ≠ Some state →
  (∃ q, __setstate__ state p = Ok tt q) ↔ compatible state.
Proof.
  intros Hold. split.
  - intros [q Hrun]. destruct (compatible_dec state) as [Hc|Hc]; [done|].
    destruct (setstate_incompatible state p Hold Hc)
      as (? & ? & ? & ? & _ & _ & _ & _ & _ & _ & _ & _ & Hr).
    by rewrite Hr in Hrun.
  - intros Hc. eexists. by apply setstate_compatible.
Qed.

(** X15: when a slot state exposes other features than the first one,
    [__setstate__] raises [ValueError] with the pipeline partly loaded:
    the filters, the used filters and the plots are those of the state,
    the slots are those up to and including the first such slot state,
    with [add_slot]'s rows and used list.  The state is remembered all
    the same, so that a second call with the same state returns without
    loading anything. *)
Theorem setstate_failure state p :
  old_state_value p ≠ Some state →
  ¬ compatible state →
  ∃ q k s0 s,
    __setstate__ state p = Raise ValueError q
    ∧ head (st_slots state) = Some s0
    ∧ st_slots state !! k = Some s
    ∧ get_rtdc_features (s_path s0) ≠ get_rtdc_features (s_path s)
    ∧ (filters q, filters_used q, plots q)
      = (st_filters state, st_filters_used state, st_plots state)
    ∧ slots q = take (S k) (st_slots state)
    ∧ slots_used q = s_identifier <$> take (S k) (st_slots state)
    ∧ analysis q = analysis p
    ∧ old_state_value q = Some state
    ∧ __setstate__ state q = Ok tt q.
Proof.
  intros Hold Hc.
  destruct (setstate_incompatible state p Hold Hc)
    as (p3 & k & s0 & s & Hs & Hsu & Hf & Ho & Ha & Hh & Hk & Hne & Hr).
  destruct (with_slots_fields (take (S k) (st_slots state)) p3)
    as (Hs' & Hsu' & Hf' & Ha').
  rewrite Hs in Hs'. rewrite Hsu in Hsu'. simpl in Hs', Hsu'.
  injection Hf' as Hf1 Hf2 Hf3 Hf4. rewrite Ho in Hf4.
  injection Hf as Hg1 Hg2 Hg3.
  assert (old_state_value (with_slots (take (S k) (st_slots state)) p3) = Some state)
    as Hv.
  { unfold old_state_value. rewrite Hf4. simpl. rewrite Hf2, Hg2. by destruct state. }
  eexists _, k, s0, s. split; [exact Hr|].
  split; [done|]. split; [done|]. split; [done|].
  split; [by rewrite Hf1, Hf2, Hf3, Hg1, Hg2, Hg3|].
  split; [done|]. split; [done|]. split; [by rewrite Ha'|].
  split; [done|]. by apply setstate_same.
Qed.

End loading.

Section rows.
Context `{env : Env}.
Implicit Types p q : Pipeline.

(** ** Every slot keeps its row in the enablement dictionary *)

Lemma rows_ok_configuration p q :
  configuration q = configuration p → rows_ok p → rows_ok q.
Proof.
  unfold configuration, rows_ok, slot_ids. by intros [= _ _ _ -> _ -> _].
Qed.

Lemma rows_ok_marked sids elem p f :
  rows_ok p →
  slots (f p) = slots p →
  element_states (f p) = mark_False sids elem (element_states p) →
  rows_ok (f p).
Proof.
  unfold rows_ok, slot_ids. intros Hp -> ->.
  eapply Forall_impl; [exact Hp|]. simpl. intros sid [row Hrow].
  rewrite mark_False_lookup, Hrow. by destruct (decide _); eexists.
Qed.

Lemma keeps_rows_add_filter filt index : keeps rows_ok (add_filter filt index).
Proof.
  intros p Hp. unfold add_filter.
  rewrite bind_gets, bind_modify, bind_gets.
  erewrite bind_Ok; last by apply mark_entries_Ok.
  rewrite bind_gets, bind_modify. simpl.
  set (filt' := match filt with Some g => resolve g | None => new_Filter end).
  apply (rows_ok_marked (slot_ids p) (f_identifier filt') p
           (λ p, set_filters_used _ (set_element_states _ (set_filters _ p))));
    done.
Qed.

Lemma keeps_rows_add_plot plot index : keeps rows_ok (add_plot plot index).
Proof.
  intros p Hp. unfold add_plot.
  rewrite bind_gets, bind_modify, bind_gets.
  erewrite bind_Ok; last by apply mark_entries_Ok.
  simpl.
  set (plot' := match plot with Some g => resolve g | None => new_Plot end).
  apply (rows_ok_marked (slot_ids p) (p_identifier plot') p
           (λ p, set_element_states _ (set_plots _ p)));
    done.
Qed.

Lemma rows_ok_add_slot_state s index p :
  rows_ok p → rows_ok (add_slot_state s index p).
Proof.
  unfold rows_ok, slot_ids, add_slot_state. simpl. intros Hp.
  apply Forall_forall. intros sid Hin.
  destruct (decide (sid = s_identifier s)) as [->|Hne].
  { rewrite lookup_insert_eq. by eexists. }
  rewrite lookup_insert_ne by done.
  apply list_elem_of_fmap in Hin as (s' & -> & Hin).
  unfold Py.list_insert in Hin.
  rewrite elem_of_app, elem_of_cons in Hin.
  rewrite Forall_forall in Hp. apply Hp.
  apply list_elem_of_fmap_2.
  destruct Hin as [Hin|[->|Hin]]; [|done|].
  - eapply subseteq_take, Hin.
  - eapply subseteq_drop, Hin.
Qed.

Lemma state_of_add_slot g index p :
  state_of (add_slot (Some g) None index p) = add_slot_state (resolve g) index p.
Proof.
  rewrite add_slot_unfold. cbv zeta.
  destruct (Py.getitem _ 0); [|done]. by destruct (decide _).
Qed.

Lemma keeps_rows_add_slot slot path index : keeps rows_ok (add_slot slot path index).
Proof.
  intros p Hp. destruct slot as [g|], path as [path|]; try done.
  - rewrite state_of_add_slot. by apply rows_ok_add_slot_state.
  - change (add_slot None (Some path) index p)
      with (add_slot (Some (Instance (new_Dataslot path))) None index p).
    rewrite state_of_add_slot. by apply rows_ok_add_slot_state.
Qed.

Lemma rows_ok_pruned elem p f :
  rows_ok p →
  slots (f p) = slots p →
  element_states (f p) = delete elem <$> element_states p →
  rows_ok (f p).
Proof.
  unfold rows_ok, slot_ids. intros Hp -> ->.
  eapply Forall_impl; [exact Hp|]. simpl. intros sid [row Hrow].
  rewrite lookup_fmap, Hrow. by eexists.
Qed.

Lemma keeps_rows_remove_filter filt_id : keeps rows_ok (remove_filter filt_id).
Proof.
  intros p Hp. unfold remove_filter. rewrite bind_gets.
  destruct (Py.list_index filt_id (filter_ids p)) as [i|]; [|done].
  rewrite bind_expect_Some, bind_gets, bind_modify, bind_gets.
  destruct (Py.contains filt_id _).
  - rewrite bind_modify, bind_gets. simpl.
    by apply (rows_ok_pruned filt_id p
                (λ p, set_element_states _ (set_filters_used _ (set_filters _ p)))).
  - rewrite bind_ret, bind_gets. simpl.
    by apply (rows_ok_pruned filt_id p
                (λ p, set_element_states _ (set_filters _ p))).
Qed.

Lemma keeps_rows_remove_plot plot_id : keeps rows_ok (remove_plot plot_id).
Proof.
  intros p Hp. unfold remove_plot. rewrite bind_gets.
  destruct (Py.list_index plot_id (plot_ids p)) as [i|]; [|done].
  rewrite bind_expect_Some, bind_gets, bind_modify, bind_gets. simpl.
  by apply (rows_ok_pruned plot_id p
              (λ p, set_element_states _ (set_plots _ p))).
Qed.

Lemma keeps_rows_remove_slot slot_id : keeps rows_ok (remove_slot slot_id).
Proof.
  intros p Hp. unfold remove_slot. rewrite bind_gets.
  destruct (Py.list_index slot_id (filter_ids p)) as [i|]; [|done].
  by rewrite bind_expect_Some, bind_gets, bind_modify.
Qed.

Lemma rows_ok_no_slots p : slots p = [] → rows_ok p.
Proof. unfold rows_ok, slot_ids. intros ->. constructor. Qed.

Lemma rows_ok_with_slots l p : rows_ok p → rows_ok (with_slots l p).
Proof.
  unfold with_slots. revert p. induction l as [|s l IH]; intros p Hp; simpl; [done|].
  by apply IH, rows_ok_add_slot_state.
Qed.

Lemma rows_ok_setstate state p :
  complete state → rows_ok p → rows_ok (state_of (__setstate__ state p)).
Proof.
  intros Hst Hp.
  destruct (decide (old_state_value p = Some state)) as [Hold|Hold].
  { by rewrite setstate_same. }
  destruct (compatible_dec state) as [Hc|Hc].
  - rewrite setstate_compatible by done.
    unfold rows_ok, slot_ids. simpl. by apply Forall_fmap.
  - destruct (setstate_incompatible state p Hold Hc)
      as (p3 & k & ? & ? & Hs & _ & _ & _ & _ & _ & _ & _ & ->).
    simpl. by apply rows_ok_with_slots, rows_ok_no_slots.
Qed.

Lemma after_call_rows c p :
  loads_complete c → rows_ok p → rows_ok (after_call c p).
Proof.
  intros Hc Hp. destruct c; simpl.
  - by apply keeps_rows_add_filter.
  - by apply keeps_rows_add_plot.
  - by apply keeps_rows_add_slot.
  - by apply keeps_rows_remove_filter.
  - by apply keeps_rows_remove_plot.
  - by apply keeps_rows_remove_slot.
  - by apply rows_ok_no_slots.
  - by apply rows_ok_setstate.
  - eapply rows_ok_configuration; [apply preserves_construct_matrix|done].
  - eapply rows_ok_configuration; [apply preserves_configuration_get_dataset|done].
  - eapply rows_ok_configuration;
      [apply preserves_configuration_get_plot_datasets|done].
  - eapply rows_ok_configuration; [apply preserves_configuration_get_slot|done].
Qed.

(** X16: whatever methods are called on a pipeline in which every slot
    has a row in the enablement dictionary (a new pipeline is one), and
    whether they return or raise, every slot still has a row, provided
    that the states that are loaded have a row for each of their slots.
    Hence [add_filter] and [add_plot] return in every state reached that
    way: their [KeyError] cannot occur. *)
Theorem calls_keep_rows cs p :
  rows_ok p →
  Forall loads_complete cs →
  rows_ok (after_calls cs p)
  ∧ (∀ filt index, is_Some (returned (add_filter filt index (after_calls cs p))))
  ∧ (∀ plot index, is_Some (returned (add_plot plot index (after_calls cs p)))).
Proof.
  intros Hp Hcs.
  assert (rows_ok (after_calls cs p)) as Hrows.
  { induction cs as [|c cs IH] using rev_ind; [done|].
    apply Forall_app in Hcs as [Hcs [Hc _]%Forall_cons].
    rewrite after_calls_snoc. by apply after_call_rows; [|apply IH]. }
  split; [done|]. split.
  - intros filt index. unfold add_filter.
    rewrite bind_gets, bind_modify, bind_gets.
    erewrite bind_Ok; last by apply mark_entries_Ok.
    rewrite bind_gets, bind_modify. by eexists.
  - intros plot index. unfold add_plot.
    rewrite bind_gets, bind_modify, bind_gets.
    erewrite bind_Ok; last by apply mark_entries_Ok.
    by eexists.
Qed.

End rows.

Section branches.
Context `{env : Env}.
Implicit Types p q : Pipeline.

(** ** The rows that construct_matrix builds *)

Lemma with_row_stores raw n p :
  datasets (with_row raw n p)
  = datasets p ++ raw :: children (length (datasets p)) (S (length (datasets p))) n
  ∧ rowobjs (with_row raw n p)
    = rowobjs p ++ [length (datasets p) :: seq (S (length (datasets p))) n]
  ∧ frame (with_row raw n p) = frame p.
Proof.
  unfold with_row, with_chain. simpl. split; [|split; [|done]].
  - rewrite length_app. simpl. rewrite Nat.add_1_r. by rewrite <- app_assoc.
  - rewrite alter_app_r_alt by done. rewrite Nat.sub_diag. simpl.
    rewrite length_app. simpl. by rewrite Nat.add_1_r.
Qed.

Lemma with_row_fresh p q raw n :
  grown p q →
  fresh_row p (with_row raw n q) raw n (length (rowobjs q)).
Proof.
  intros (_ & Hd & Hr).
  destruct (with_row_stores raw n q) as (Eds & Ers & _).
  split; [by apply prefix_length|].
  exists (length (datasets q)). split; [by apply prefix_length|].
  split; [apply with_row_row|]. split.
  - rewrite Eds. by rewrite list_lookup_middle.
  - rewrite Eds.
    change (datasets q ++ raw :: ?l) with (datasets q ++ [raw] ++ l).
    rewrite app_assoc.
    replace (S (length (datasets q))) with (length (datasets q ++ [raw]))
      by (rewrite length_app; simpl; lia).
    replace (length (datasets q)) with (length (datasets q ++ [raw]) - 1) at 2
      by (rewrite length_app; simpl; lia).
    rewrite length_app. simpl. rewrite Nat.add_sub.
    replace (length (datasets q) + 1) with (length (datasets q ++ [raw]))
      by (rewrite length_app; simpl; lia).
    apply chained_on_children.
Qed.

Lemma fresh_row_grown p q q' raw n r :
  fresh_row p q raw n r → grown q q' → fresh_row p q' raw n r.
Proof.
  intros (Hr & c & Hc & Hrow & Hraw & Hch) Hg. split; [done|].
  exists c. split; [done|]. split.
  - rewrite (grown_row_cells q q' r Hg); [done|].
    apply row_cells_nonempty. by rewrite Hrow.
  - destruct Hg as (_ & Hd & _). split.
    + by eapply prefix_lookup_Some.
    + by eapply chained_on_prefix.
Qed.

(** *** The third branch *)

Lemma built_snoc n sls sl p :
  built n (sls ++ [sl]) p = with_row (raw_dataset sl) n (built n sls p).
Proof. unfold built. by rewrite foldl_app. Qed.

Lemma built_grown n sls p : grown p (built n sls p).
Proof.
  induction sls as [|sl sls IH] using rev_ind; [apply grown_refl|].
  rewrite built_snoc. eapply grown_trans; [exact IH|apply grown_with_row].
Qed.

Lemma built_lengths n sls p :
  length (datasets (built n sls p)) = length (datasets p) + length sls * S n
  ∧ length (rowobjs (built n sls p)) = length (rowobjs p) + length sls.
Proof.
  induction sls as [|sl sls [IH1 IH2]] using rev_ind; [simpl; lia|].
  rewrite built_snoc.
  destruct (with_row_stores (raw_dataset sl) n (built n sls p)) as (-> & -> & _).
  rewrite !length_app. simpl. rewrite children_length, IH1, IH2. lia.
Qed.

Lemma built_rows n sls p i sl :
  sls !! i = Some sl →
  fresh_row p (built n sls p) (raw_dataset sl) n (length (rowobjs p) + i)
  ∧ row_cells (length (rowobjs p) + i) (built n sls p)
    = seq (length (datasets p) + i * S n) (S n).
Proof.
  revert i sl. induction sls as [|sl' sls IH] using rev_ind; intros i sl Hi; [done|].
  rewrite built_snoc.
  destruct (built_lengths n sls p) as [Hld Hlr].
  destruct (decide (i < length sls)) as [Hlt|Hge].
  - rewrite lookup_app_l in Hi by done. destruct (IH i sl Hi) as [Hf Hrow].
    split.
    + eapply fresh_row_grown; [exact Hf|apply grown_with_row].
    + rewrite (grown_row_cells _ _ _ (grown_with_row _ _ _)); [done|]. lia.
  - apply lookup_lt_Some in Hi as Hlen. rewrite length_app in Hlen. simpl in Hlen.
    assert (i = length sls) as -> by lia.
    rewrite list_lookup_middle in Hi by done. injection Hi as ->.
    rewrite <- Hlr, <- Hld. split.
    + apply with_row_fresh, built_grown.
    + by rewrite with_row_row.
Qed.

Lemma collect_plain_Ok sls p :
  collect_rows
    (λ sl,
       let* ds := new_dataset (s_path sl) (s_identifier sl) in
       let* row := new_row [ds] in
       let* fs := gets filters in
       chain_children row ds fs ;;
       ret row) sls p
  = Ok (seq (length (rowobjs p)) (length sls))
       (built (length (filters p)) sls p).
Proof.
  revert p. induction sls as [|sl sls IH]; intros p; [done|].
  cbn [collect_rows].
  rewrite (bind_Ok _ _ _ _ _ (new_row_plain_Ok sl p)).
  erewrite bind_Ok by apply IH.
  destruct (with_row_stores (raw_dataset sl) (length (filters p)) p)
    as (_ & Hr & Hf).
  apply frame_fields in Hf as (Hf & _).
  fold (raw_dataset sl). rewrite Hf, Hr, length_app. simpl.
  by rewrite Nat.add_1_r.
Qed.

(** X17: when the filter identifiers are not those of the cached
    matrix and the change is not a mere extension of the filter list for
    the same slots, [construct_matrix] builds every row anew (third
    branch): the matrix consists of new row objects, one per slot, each
    with a new raw dataset for the slot, in the default configuration
    and not yet carrying the slot's settings, and one hierarchy child per
    filter chained on it.  The rows and datasets of the old matrix are
    left as they are. *)
Theorem construct_matrix_rebuilds p :
  _matrix_hash p ≠ hashobj (slot_ids p) (filter_ids p) →
  _matrix_filters p ≠ filter_ids p →
  ¬ (_matrix_slots p = slot_ids p
     ∧ _matrix_filters p = take (length (_matrix_filters p)) (filter_ids p)) →
  ∃ q, construct_matrix p = Ok tt q
       ∧ matrix q = seq (length (rowobjs p)) (length (slots p))
       ∧ datasets p `prefix_of` datasets q
       ∧ rowobjs p `prefix_of` rowobjs q
       ∧ ∀ i sl, slots p !! i = Some sl →
           let c := length (datasets p) + i * S (num_filters p) in
           row_cells (length (rowobjs p) + i) q = seq c (S (num_filters p))
           ∧ datasets q !! c = Some (raw_dataset sl)
           ∧ chained_on (datasets q) c (seq (S c) (num_filters p)).
Proof.
  intros Hh Hf Hs. unfold construct_matrix.
  rewrite !bind_gets. rewrite decide_True by done.
  rewrite bind_gets, decide_False by done. rewrite decide_False by done.
  unfold everything_changed at 1.
  erewrite bind_Ok; last by (rewrite bind_gets; apply collect_plain_Ok).
  rewrite !bind_modify. unfold modify.
  eexists. split; [reflexivity|]. simpl.
  destruct (built_grown (length (filters p)) (slots p) p) as (_ & Hd & Hr).
  split; [done|]. split; [done|]. split; [done|].
  intros i sl Hi.
  destruct (built_rows (length (filters p)) (slots p) p i sl Hi)
    as [(_ & c' & _ & Hrow & Hraw & Hch) Hcells].
  unfold row_cells in *. simpl. unfold num_filters. split; [done|].
  rewrite Hcells in Hrow. simpl in Hrow. injection Hrow as <- _.
  done.
Qed.

End branches.

Section first_branch.
Context `{env : Env}.
Implicit Types p q : Pipeline.

(** *** The first branch *)

Lemma find_row_first identifier mx p :
  Forall (λ r, row_cells r p ≠ []) mx →
  find_row identifier mx p
  = Ok (first_row (datasets p) (rowobjs p) identifier mx) p.
Proof.
  induction mx as [|r mx IH]; intros H; simpl; [done|].
  apply Forall_cons in H as [Hr H].
  rewrite bind_gets, getitem_0. unfold row_cells in *.
  destruct (rowobjs p !!! r) as [|c row] eqn:E; [done|].
  change (head (c :: row)) with (Some c).
  rewrite bind_expect_Some, bind_gets.
  destruct (decide _); [done|]. by apply IH.
Qed.

Lemma prefix_lookup_total `{Inhabited A} (l1 l2 : list A) i :
  l1 `prefix_of` l2 → i < length l1 → l2 !!! i = l1 !!! i.
Proof. intros [k ->] Hi. by rewrite lookup_total_app_l. Qed.

Lemma first_row_grown p q identifier mx :
  grown p q → store_ok p →
  Forall (λ r, r < length (rowobjs p)) mx →
  first_row (datasets q) (rowobjs q) identifier mx
  = first_row (datasets p) (rowobjs p) identifier mx.
Proof.
  intros Hg Hok. induction mx as [|r mx IH]; intros H; simpl; [done|].
  apply Forall_cons in H as [Hr H].
  pose proof (grown_row_cells p q r Hg Hr) as Hrow. unfold row_cells in Hrow.
  rewrite Hrow. destruct (rowobjs p !!! r) as [|c row] eqn:E; [done|]. simpl.
  destruct (store_ok_row p r Hok Hr) as [_ Hc]. unfold row_cells in Hc.
  rewrite E in Hc. apply Forall_cons in Hc as [Hc _].
  rewrite (prefix_lookup_total (datasets p) (datasets q)) by (done || apply Hg).
  destruct (decide _); [done|]. by apply IH.
Qed.


Lemma collect_rows_Forall2 body sls p0 p (R : Pipeline → Dataslot → nat → Prop) :
  (∀ sl q, grown p0 q → returns (body sl) q (λ r q', grown q q' ∧ R q' sl r)) →
  (∀ q q' sl r, R q sl r → grown q q' → R q' sl r) →
  grown p0 p →
  returns (collect_rows body sls) p (λ rows q, grown p q ∧ Forall2 (R q) sls rows).
Proof.
  intros Hbody Hmono. revert p. induction sls as [|sl sls IH]; intros p Hg; simpl.
  - apply returns_ret. split; [apply grown_refl|constructor].
  - apply returns_bind. eapply returns_weaken; [by apply Hbody|].
    intros r q (Hg' & HR). simpl.
    apply returns_bind. eapply returns_weaken.
    { apply IH. by eapply grown_trans. }
    intros rows q' (Hg'' & HRs). simpl.
    apply returns_ret. split; [by eapply grown_trans|].
    constructor; [by eapply Hmono | done].
Qed.

(** What the first branch does for one slot: it takes the first row of
    the old matrix whose raw dataset has the slot's identifier, or else
    builds a row on a raw dataset with the slot's settings applied. *)
Lemma first_branch_rows p :
  store_ok p →
  Forall (λ r, length (filters p) < length (row_cells r p)) (matrix p) →
  returns only_slots_changed p
    (λ rows q,
       grown p q
       ∧ Forall2
           (λ sl r,
              match first_row (datasets p) (rowobjs p) (s_identifier sl) (matrix p)
              with
              | Some r0 => r = r0
              | None =>
                  fresh_row p q
                    (set_config (Dataslot_update_dataset sl) (raw_dataset sl))
                    (num_filters p) r
              end)
           (slots p) rows).
Proof.
  intros Hok Hmx.
  assert (Forall (λ r, r < length (rowobjs p)) (matrix p)) as Hin.
  { eapply Forall_impl; [exact Hmx|]. intros r Hr. apply row_cells_nonempty.
    cbv beta in Hr. intros E. rewrite E in Hr. simpl in Hr. lia. }
  set (R := λ q sl r,
         match first_row (datasets p) (rowobjs p) (s_identifier sl) (matrix p) with
         | Some r0 => r = r0
         | None =>
             fresh_row p q
               (set_config (Dataslot_update_dataset sl) (raw_dataset sl))
               (num_filters p) r
         end).
  unfold only_slots_changed. apply returns_bind, returns_gets.
  apply (collect_rows_Forall2 _ _ p p R); [| |apply grown_refl].
  - intros sl q Hg.
    destruct (frame_fields p q) as (Hfq & _ & Hm & _); [apply Hg|].
    apply returns_bind, returns_gets. rewrite Hm.
    apply returns_bind. eapply returns_step.
    { apply find_row_first. eapply Forall_impl; [exact Hmx|]. intros r Hr.
      pose proof (longer_row_grown _ _ _ _ Hr Hg) as Hr'.
      intros E. rewrite E in Hr'. simpl in Hr'. lia. }
    rewrite (first_row_grown p q) by done. unfold R.
    destruct (first_row _ _ _ _) as [r0|].
    + apply returns_ret. split; [apply grown_refl|done].
    + eapply returns_step; [apply new_row_updated_Ok|].
      split; [apply grown_with_row|].
      unfold num_filters. rewrite <- Hfq. by apply with_row_fresh.
  - intros q q' sl r HR Hg. unfold R in *.
    destruct (first_row _ _ _ _); [done|]. by eapply fresh_row_grown.
Qed.

Lemma wf_rows_long p :
  wf p → _matrix_filters p = filter_ids p →
  Forall (λ r, length (filters p) < length (row_cells r p)) (matrix p).
Proof.
  intros (_ & _ & Hrows & _) Hf.
  eapply Forall_impl; [exact Hrows|]. intros r. rewrite Hf.
  unfold filter_ids. by rewrite length_fmap.
Qed.


End first_branch.

Section stuck.
Context {S : Type}.

(** A loop does not return when the body raises on one of the elements,
    in every state that the rounds before can leave. *)
Lemma for_each_stuck {A} (body : A → M S unit) l x (I : S → Prop) p :
  x ∈ l → I p →
  (∀ y, keeps I (body y)) →
  (∀ s, I s → returned (body x s) = None) →
  returned (for_each body l p) = None.
Proof.
  intros Hin Hp Hkeep Hx. revert p Hp.
  induction l as [|y l IH]; intros p Hp; [by apply elem_of_nil in Hin|].
  simpl. unfold bind.
  destruct (body y p) as [[] q|e q] eqn:E; [|done].
  apply elem_of_cons in Hin as [->|Hin].
  - specialize (Hx p Hp). by rewrite E in Hx.
  - apply IH; [done|]. specialize (Hkeep y p Hp). by rewrite E in Hkeep.
Qed.

End stuck.

Section get_dataset_edges.
Context `{env : Env}.
Implicit Types p q : Pipeline.

(** ** get_dataset at the ends of the row *)

Lemma returned_bind_None {A B} (c : M Pipeline A) (k : A → M Pipeline B) p :
  (∀ a q, c p = Ok a q → returned (k a q) = None) →
  returned (bind c k p) = None.
Proof. intros H. unfold bind. destruct (c p) eqn:E; [by apply H|done]. Qed.

(** X19: [get_dataset] never returns for a filter index that is not
    below the number of filters: the loop over the stages reaches a
    position that the filter list does not have.  In particular
    [get_dataset(slot_index, 0)], the call that [get_features] and
    [get_min_max] make for every slot, never returns on a pipeline
    without filters. *)
Theorem get_dataset_beyond_filters p slot_index filt_index apply_filter ret_color :
  (Z.of_nat (num_filters p) ≤ filt_index)%Z →
  returned (get_dataset slot_index filt_index apply_filter ret_color p) = None.
Proof.
  intros Hfi. unfold get_dataset.
  apply returned_bind_None. intros [] q Hq.
  assert (filters q = filters p) as Hf.
  { pose proof (preserves_Ok _ _ _ _ _ preserves_construct_matrix Hq) as Hc.
    unfold configuration in Hc. by injection Hc. }
  rewrite bind_gets.
  destruct (Py.getitem (matrix q) slot_index) as [r|]; [|done].
  rewrite bind_expect_Some, bind_gets, bind_gets.
  destruct (Py.getitem (slots q) slot_index) as [slot|]; [|done].
  rewrite bind_expect_Some, bind_gets.
  destruct (element_states q !! s_identifier slot) as [fstates|]; [|done].
  rewrite bind_expect_Some.
  apply returned_bind_None. intros [] q2 Hq2.
  assert (returned (for_each (filter_stage (row_cells r q) fstates)
                      (range (filt_index + 1)) q) = None) as Hstuck.
  { apply (for_each_stuck _ _ (num_filters p) (λ s, filters s = filters p)).
    - unfold range. apply elem_of_seq. unfold num_filters in *. lia.
    - done.
    - intros y s Hs. rewrite <- Hs.
      pose proof (preserves_configuration_filter_stage
                    (row_cells r q) fstates y s) as Hc.
      unfold configuration in Hc. by injection Hc.
    - intros s Hs. unfold filter_stage. rewrite bind_gets, Hs.
      unfold num_filters. rewrite lookup_ge_None_2 by done.
      by rewrite bind_expect_None. }
  by rewrite Hq2 in Hstuck.
Qed.

(** X20: when the slot exists and its row of the enablement dictionary
    has an entry for every filter, [get_dataset] with a filter index that
    is not below the number of filters raises [IndexError], after the
    matrix was built and the stages of all filters were configured. *)
Theorem get_dataset_beyond_filters_raises p (slot_index filt_index : nat)
    apply_filter ret_color slot fstates :
  collision_free → wf p →
  slots p !! slot_index = Some slot →
  element_states p !! s_identifier slot = Some fstates →
  (∀ filt, filt ∈ filters p → is_Some (fstates !! f_identifier filt)) →
  num_filters p ≤ filt_index →
  ∃ q r,
    construct_matrix p = Ok tt q
    ∧ matrix q !! slot_index = Some r
    ∧ get_dataset (Z.of_nat slot_index) (Z.of_nat filt_index)
        apply_filter ret_color p
      = Raise IndexError
          (set_datasets
             (apply_stages
                (stage_of (filters_used p) fstates <$> filters p)
                (take (num_filters p) (row_cells r q)) (datasets q)) q).
Proof.
  intros Hfree Hwf Hslot Hrow Hent Hfi.
  pose proof (construct_matrix_returns p Hfree Hwf) as Hret.
  unfold returns in Hret.
  destruct (construct_matrix p) as [[] q|] eqn:Hq; [|done].
  destruct Hret as (Hwfq & Hc & Hms & Hmf & Hh & _).
  assert (filters q = filters p ∧ filters_used q = filters_used p
          ∧ slots q = slots p ∧ element_states q = element_states p)
    as (Hf & Hfu & Hs & He).
  { unfold configuration in Hc. injection Hc as ? ? ? ? ? ? ?. done. }
  destruct Hwfq as (Hok & Hlen & Hrows & Hcache).
  destruct (lookup_lt_is_Some_2 (matrix q) slot_index) as [r Hr].
  { rewrite Hlen, Hms. unfold slot_ids. rewrite length_fmap.
    by eapply lookup_lt_Some. }
  exists q, r. split; [done|]. split; [done|].
  rewrite (get_dataset_after_construct p q) by done.
  unfold get_dataset.
  rewrite (bind_Ok _ _ _ _ _
             (construct_matrix_current q (construct_matrix_again p q Hq))).
  rewrite bind_gets, getitem_nat, Hr, bind_expect_Some, bind_gets.
  rewrite bind_gets, getitem_nat, Hs, Hslot, bind_expect_Some.
  rewrite bind_gets, He, Hrow, bind_expect_Some.
  assert (length (filters p) < length (row_cells r q)) as Hlong.
  { rewrite Forall_forall in Hrows.
    specialize (Hrows r (list_elem_of_lookup_2 _ _ _ Hr)). simpl in Hrows.
    rewrite Hmf in Hrows. unfold filter_ids in Hrows.
    by rewrite length_fmap in Hrows. }
  unfold range, num_filters in *.
  erewrite bind_Raise; [reflexivity|].
  replace (Z.to_nat (Z.of_nat filt_index + 1))
    with (length (filters p) + S (filt_index - length (filters p))) by lia.
  rewrite seq_app, for_each_app. simpl seq.
  erewrite bind_Ok; last first.
  { apply stages_Ok; [rewrite Hf; simpl; lia|simpl; lia|].
    rewrite drop_0, Hf. intros filt Hin. apply Hent.
    eapply subseteq_take, Hin. }
  rewrite drop_0, Hf, Hfu, firstn_all.
  cbn [for_each].
  erewrite bind_Raise; [reflexivity|].
  unfold filter_stage. rewrite bind_gets.
  simpl filters. rewrite Hf, lookup_ge_None_2 by done.
  by rewrite bind_expect_None.
Qed.

(** X21: with the filter index [-1] no stage is configured, whatever
    entries the slot's row has: [get_dataset] returns the last cell of
    the slot's row, and changes only the dataset behind that cell, to
    which it applies the slot's settings and, if asked, the filter.
    This is the call that [get_plot_datasets] makes when the pipeline has
    no filter. *)
Theorem get_dataset_last_cell p (slot_index : nat) apply_filter ret_color
    slot fstates :
  collision_free → wf p →
  slots p !! slot_index = Some slot →
  element_states p !! s_identifier slot = Some fstates →
  ∃ q r dsend,
    construct_matrix p = Ok tt q
    ∧ matrix q !! slot_index = Some r
    ∧ last (row_cells r q) = Some dsend
    ∧ get_dataset (Z.of_nat slot_index) (-1) apply_filter ret_color p
      = Ok (dsend, if ret_color then Some (s_color slot) else None)
           (set_datasets (alter (finish slot apply_filter) dsend (datasets q)) q).
Proof.
  intros Hfree Hwf Hslot Hrow.
  pose proof (construct_matrix_returns p Hfree Hwf) as Hret.
  unfold returns in Hret.
  destruct (construct_matrix p) as [[] q|] eqn:Hq; [|done].
  destruct Hret as (Hwfq & Hc & Hms & Hmf & Hh & _).
  assert (slots q = slots p ∧ element_states q = element_states p) as (Hs & He).
  { unfold configuration in Hc. injection Hc as ? ? ? ? ? ? ?. done. }
  destruct Hwfq as (Hok & Hlen & Hrows & Hcache).
  destruct (lookup_lt_is_Some_2 (matrix q) slot_index) as [r Hr].
  { rewrite Hlen, Hms. unfold slot_ids. rewrite length_fmap.
    by eapply lookup_lt_Some. }
  assert (row_cells r q ≠ []) as Hne.
  { rewrite Forall_forall in Hrows.
    specialize (Hrows r (list_elem_of_lookup_2 _ _ _ Hr)). simpl in Hrows.
    intros E. rewrite E in Hrows. simpl in Hrows. lia. }
  destruct (last (row_cells r q)) as [dsend|] eqn:Hlast;
    [|by apply last_None in Hlast].
  exists q, r, dsend. split; [done|]. split; [done|]. split; [done|].
  rewrite (get_dataset_after_construct p q) by done.
  rewrite (get_dataset_current q _ _ _ _ r slot fstates dsend);
    [done|by eapply construct_matrix_again|by rewrite getitem_nat
    |by rewrite getitem_nat, Hs|by rewrite He|simpl; lia|simpl; lia
    |by intros filt ?%elem_of_nil|by rewrite getitem_last].
Qed.

End get_dataset_edges.

Section plot_entries.
Context `{env : Env}.
Implicit Types p q : Pipeline.

(** ** get_plot_datasets and missing entries *)

Lemma plot_loop_stuck p plot_id fi i slot idxs acc s :
  slots p !! i = Some slot →
  element_states p !! s_identifier slot ≫= (.!! plot_id) = None →
  i ∈ idxs →
  configuration s = configuration p →
  returned (plot_loop plot_id fi idxs acc s) = None.
Proof.
  intros Hslot Hnone. revert acc s.
  induction idxs as [|j idxs IH]; intros acc s Hin Hc;
    [by apply elem_of_nil in Hin|].
  assert (slots s = slots p ∧ element_states s = element_states p) as [Hs He].
  { unfold configuration in Hc. injection Hc as ? ? ? ? ? ? ?. done. }
  cbn [plot_loop]. rewrite bind_gets, Hs.
  destruct (decide (j = i)) as [->|Hne].
  - rewrite Hslot, bind_expect_Some, bind_gets, He.
    destruct (element_states p !! s_identifier slot) as [estates|]; [|done].
    rewrite bind_expect_Some. simpl in Hnone. by rewrite Hnone.
  - apply elem_of_cons in Hin as [->|Hin]; [done|].
    destruct (slots p !! j) as [slot_j|]; [|done].
    rewrite bind_expect_Some, bind_gets.
    destruct (element_states s !! s_identifier slot_j) as [estates|]; [|done].
    rewrite bind_expect_Some.
    destruct (estates !! plot_id) as [on|]; [|done].
    rewrite bind_expect_Some, bind_gets.
    destruct (on && _).
    + unfold bind.
      destruct (get_dataset _ _ _ _ s) as [ds s'|] eqn:E; [|done].
      apply IH; [done|]. rewrite <- Hc.
      by apply (preserves_Ok _ _ _ _ _ (preserves_configuration_get_dataset _ _ _ _) E).
    + by apply IH.
Qed.

Lemma plot_loop_range_stuck p plot_id slot :
  slot ∈ slots p →
  element_states p !! s_identifier slot ≫= (.!! plot_id) = None →
  returned (get_plot_datasets plot_id p) = None.
Proof.
  intros Hin Hnone. apply list_elem_of_lookup in Hin as [i Hi].
  unfold get_plot_datasets. rewrite !bind_gets.
  apply (plot_loop_stuck p plot_id _ i slot); [done|done| |done].
  unfold range. apply elem_of_seq. apply lookup_lt_Some in Hi. lia.
Qed.

(** X22: [get_plot_datasets] never returns when some slot of the
    pipeline has no enablement entry for the plot (or no row at all): it
    asks every slot for its entry, whether the slot is used or not.  When
    that slot is the first one, the call raises [KeyError] before it
    changes anything. *)
Theorem get_plot_datasets_missing_entry p plot_id slot :
  slot ∈ slots p →
  element_states p !! s_identifier slot ≫= (.!! plot_id) = None →
  returned (get_plot_datasets plot_id p) = None
  ∧ (slots p !! 0 = Some slot →
     get_plot_datasets plot_id p = Raise KeyError p).
Proof.
  intros Hin Hnone. split; [by eapply plot_loop_range_stuck|].
  intros H0. unfold get_plot_datasets. rewrite !bind_gets.
  destruct (slots p) as [|s0 sls] eqn:Es; [done|]. injection H0 as ->.
  unfold range. rewrite Nat2Z.id. cbn [length seq plot_loop].
  rewrite bind_gets, Es. cbn [lookup list_lookup].
  rewrite bind_expect_Some, bind_gets.
  destruct (element_states p !! s_identifier slot) as [estates|]; [|done].
  rewrite bind_expect_Some. simpl in Hnone. by rewrite Hnone.
Qed.

(** X23: after [add_slot], whether it returned or raised at the feature
    check, [get_plot_datasets] does not return for any identifier that is
    not the identifier of a filter: the new slot has no entry for it. *)
Theorem add_slot_blocks_plots p g index plot_id :
  plot_id ∉ filter_ids p →
  returned (get_plot_datasets plot_id
              (state_of (add_slot (Some g) None index p))) = None.
Proof.
  intros Hnf. rewrite state_of_add_slot.
  apply (plot_loop_range_stuck _ _ (resolve g)).
  - unfold add_slot_state, Py.list_insert. simpl.
    rewrite elem_of_app, elem_of_cons. auto.
  - unfold add_slot_state. simpl. rewrite lookup_insert_eq. simpl.
    rewrite with_False_lookup. by rewrite decide_False.
Qed.

End plot_entries.

Section labels.
Context `{env : Env}.
Implicit Types p q : Pipeline.

(** ** The rows carry the identifiers of their slots *)

Lemma fmap_lookup_total `{Inhabited A} {B} (f : A → B) (l1 l2 : list A) i :
  f <$> l1 = f <$> l2 → f (l1 !!! i) = f (l2 !!! i).
Proof.
  intros E. rewrite !list_lookup_total_alt.
  assert (f <$> l1 !! i = f <$> l2 !! i) as Ei.
  { by rewrite <- !list_lookup_fmap, E. }
  destruct (l1 !! i), (l2 !! i); simpl in *; by try injection Ei.
Qed.

Lemma row_names_naming p q r : naming q = naming p → row_names q r = row_names p r.
Proof.
  unfold naming. intros [= _ _ _ _ Hd Hr]. unfold row_names, row_cells.
  rewrite Hr. apply list_fmap_ext. intros _ c _.
  by apply fmap_lookup_total.
Qed.

Lemma labelled_naming p q : naming q = naming p → labelled p → labelled q.
Proof.
  intros E. unfold labelled.
  assert (matrix q = matrix p ∧ _matrix_slots q = _matrix_slots p) as [-> ->].
  { unfold naming in E. by injection E. }
  intros Hlab. eapply Forall2_impl; [exact Hlab|].
  intros sid r. cbv beta. by rewrite (row_names_naming p q).
Qed.

Lemma wf_naming p q : naming q = naming p → wf p → wf q.
Proof.
  unfold naming. intros [= Hm Hh Hs Hf Hd Hr]. apply wf_skeleton.
  unfold skeleton. rewrite Hm, Hh, Hs, Hf, Hr.
  apply (f_equal length) in Hd. rewrite !length_fmap in Hd. by rewrite Hd.
Qed.

Lemma naming_analysis p q : analysis q = analysis p → naming q = naming p.
Proof.
  unfold analysis, naming. by intros [= -> -> -> -> -> ->].
Qed.

Lemma preserves_naming_update_dataset c f :
  (∀ d, ds_identifier (f d) = ds_identifier d) →
  preserves naming (update_dataset c f).
Proof.
  intros Hf p. unfold update_dataset, bind, gets, modify, naming. simpl.
  f_equal. f_equal.
  rewrite (list_fmap_alter _ f id) by (apply Forall_forall; intros d _; apply Hf).
  by rewrite list_alter_id.
Qed.

Lemma preserves_naming_filter_stage row fstates ii :
  preserves naming (filter_stage row fstates ii).
Proof.
  unfold filter_stage.
  repeat first
    [ by apply preserves_naming_update_dataset
    | apply preserves_bind; [|intros ?]
    | apply preserves_expect
    | apply preserves_gets
    | progress case_match ].
Qed.

Lemma head_row_names q r c :
  head (row_cells r q) = Some c →
  head (row_names q r) = Some (ds_identifier (datasets q !!! c)).
Proof. unfold row_names. destruct (row_cells r q); [done|]. by intros [= ->]. Qed.

Lemma first_row_head ds rows identifier mx r :
  first_row ds rows identifier mx = Some r →
  ∃ c, head (rows !!! r) = Some c ∧ ds_identifier (ds !!! c) = identifier.
Proof.
  induction mx as [|r' mx IH]; simpl; [done|].
  destruct (head (rows !!! r')) as [c|] eqn:E; [|done].
  destruct (decide _) as [Hd|]; [|done].
  intros [= <-]. by exists c.
Qed.

Lemma fresh_row_name p q raw n r :
  fresh_row p q raw n r → head (row_names q r) = Some (ds_identifier raw).
Proof.
  intros (_ & c & _ & Hrow & Hraw & _).
  rewrite (head_row_names q r c) by (by rewrite Hrow).
  by rewrite (list_lookup_total_correct _ _ _ Hraw).
Qed.

Lemma old_row_name p q r sid :
  store_ok p →
  datasets p `prefix_of` datasets q →
  row_cells r p `prefix_of` row_cells r q →
  head (row_names p r) = Some sid →
  head (row_names q r) = Some sid.
Proof.
  intros Hok Hd [k Hk] Hhead. unfold row_names in *. rewrite Hk.
  destruct (row_cells r p) as [|c row] eqn:E; [done|].
  simpl in *. injection Hhead as <-. f_equal. f_equal.
  destruct (store_ok_row p r Hok) as [_ Hc].
  { apply row_cells_nonempty. by rewrite E. }
  rewrite E in Hc. apply Forall_cons in Hc as [Hc _].
  by apply prefix_lookup_total.
Qed.

Lemma labelled_construct_matrix p :
  wf p → labelled p → labelled (state_of (construct_matrix p)).
Proof.
  intros Hwf Hlab. pose proof Hwf as (Hok & Hlen & Hrows & _).
  unfold construct_matrix. rewrite !bind_gets.
  destruct (decide (_matrix_hash p ≠ _)) as [Hh|]; [|done].
  rewrite bind_gets.
  destruct (decide (_matrix_filters p = filter_ids p)) as [Hf|Hf].
  - (* only a slot was added/removed *)
    pose proof (first_branch_rows p Hok (wf_rows_long p Hwf Hf)) as Hrun.
    unfold returns in Hrun.
    destruct (only_slots_changed p) as [rows q'|] eqn:Erun; [|done].
    destruct Hrun as [Hg HR].
    rewrite (bind_Ok _ _ _ _ _ Erun), !bind_modify. unfold modify. simpl.
    unfold labelled. simpl. unfold slot_ids. apply Forall2_fmap_l.
    eapply Forall2_impl; [exact HR|]. intros sl r. unfold compose. cbv beta.
    change (row_names (set_matrix_filters _ _) r) with (row_names q' r).
    destruct (first_row _ _ _ _) as [r0|] eqn:E.
    + intros ->. destruct (first_row_head _ _ _ _ _ E) as (c & Hc & Hid).
      assert (r0 < length (rowobjs p)) as Hr0.
      { apply row_cells_nonempty. unfold row_cells. by destruct (rowobjs p !!! r0). }
      apply (old_row_name p q' r0); [done|apply Hg| |].
      * by rewrite (grown_row_cells p q' r0 Hg Hr0).
      * rewrite (head_row_names p r0 c) by done. by rewrite Hid.
    + intros Hfresh. by rewrite (fresh_row_name _ _ _ _ _ Hfresh).
  - destruct (decide (_matrix_slots p = slot_ids p ∧ _)) as [[Hs Hpre]|Hs].
    + (* only a filter was added *)
      assert (returns (only_filter_added (length (_matrix_filters p))) p
                (λ rows q, stretched p q ∧ rows = matrix p)) as Hrun.
      { eapply returns_weaken.
        - apply only_filter_added_returns; [done| |].
          + rewrite Hlen, Hs. unfold slot_ids. by rewrite length_fmap.
          + eapply Forall_impl; [exact Hrows|]. intros r Hr E.
            cbv beta in Hr. rewrite E in Hr. simpl in Hr. lia.
        - intros rows q (_ & Hst & Heq & _). by split. }
      unfold returns in Hrun.
      destruct (only_filter_added _ p) as [rows q'|] eqn:Erun; [|done].
      destruct Hrun as ((_ & Hd & _ & Hpr) & ->).
      rewrite (bind_Ok _ _ _ _ _ Erun), !bind_modify. unfold modify. simpl.
      unfold labelled. simpl. rewrite <- Hs.
      eapply Forall2_impl; [exact Hlab|]. intros sid r.
      change (row_names (set_matrix_filters _ _) r) with (row_names q' r).
      by apply old_row_name.
    + (* everything changed *)
      unfold everything_changed at 1.
      erewrite bind_Ok; last by (rewrite bind_gets; apply collect_plain_Ok).
      rewrite !bind_modify. unfold modify. simpl.
      unfold labelled. simpl.
      apply Forall2_same_length_lookup_2.
      { unfold slot_ids. by rewrite length_fmap, length_seq. }
      intros i sid r Hsid Hr. unfold slot_ids in Hsid.
      apply list_lookup_fmap_Some in Hsid as (sl & -> & Hsl).
      apply lookup_seq in Hr as [-> _].
      destruct (built_rows (length (filters p)) (slots p) p i sl Hsl) as [Hfresh _].
      change (row_names (set_matrix_filters _ _) ?r)
        with (row_names (built (length (filters p)) (slots p) p) r).
      by rewrite (fresh_row_name _ _ _ _ _ Hfresh).
Qed.

Lemma sound_naming p q : naming q = naming p → sound p → sound q.
Proof. intros E [? ?]. split; [by eapply wf_naming|by eapply labelled_naming]. Qed.

Lemma sound_analysis p q : analysis q = analysis p → sound p → sound q.
Proof. intros E. by apply sound_naming, naming_analysis. Qed.

Lemma keeps_sound_construct_matrix : collision_free → keeps sound construct_matrix.
Proof.
  intros Hfree p [Hwf Hlab]. split.
  - by apply keeps_wf_construct_matrix.
  - by apply labelled_construct_matrix.
Qed.

Lemma keeps_sound_get_dataset si fi af rc :
  collision_free → keeps sound (get_dataset si fi af rc).
Proof.
  intros Hfree. unfold get_dataset.
  apply keeps_bind; [by apply keeps_sound_construct_matrix|intros _].
  apply (keeps_preserves _ naming); [apply sound_naming|].
  repeat first
    [ by apply preserves_naming_update_dataset
    | apply preserves_naming_filter_stage
    | apply preserves_for_each; intros ?
    | apply preserves_bind; [|intros ?]
    | apply preserves_ret
    | apply preserves_expect
    | apply preserves_gets
    | progress case_match ].
Qed.

Lemma keeps_sound_plot_loop plot_id fi idxs acc :
  collision_free → keeps sound (plot_loop plot_id fi idxs acc).
Proof.
  intros Hfree. revert acc. induction idxs as [|i idxs IH]; intros acc; simpl.
  - apply keeps_ret.
  - repeat first
      [ apply IH
      | by apply keeps_sound_get_dataset
      | apply keeps_bind; [|intros ?]
      | apply keeps_expect
      | apply keeps_gets
      | progress case_match ].
Qed.

Lemma after_call_sound c p : collision_free → sound p → sound (after_call c p).
Proof.
  intros Hfree Hp. destruct c; simpl.
  - eapply sound_analysis; [apply preserves_analysis_add_filter|done].
  - eapply sound_analysis; [apply preserves_analysis_add_plot|done].
  - eapply sound_analysis; [apply preserves_analysis_add_slot|done].
  - eapply sound_analysis; [apply preserves_analysis_remove_filter|done].
  - eapply sound_analysis; [apply preserves_analysis_remove_plot|done].
  - eapply sound_analysis; [apply preserves_analysis_remove_slot|done].
  - eapply sound_analysis; [apply preserves_analysis_reset|].
    by eapply sound_analysis; [|exact Hp].
  - eapply sound_analysis; [apply preserves_analysis_setstate|done].
  - by apply keeps_sound_construct_matrix.
  - by apply keeps_sound_get_dataset.
  - unfold get_plot_datasets.
    apply keeps_bind; [apply keeps_gets|intros ?|done].
    apply keeps_bind; [apply keeps_gets|intros ?].
    by apply keeps_sound_plot_loop.
  - rewrite state_of_get_slot. by apply keeps_sound_construct_matrix.
Qed.

Lemma slot_of_row_returns slot_id pairs q slot r :
  (slot, r) ∈ pairs → slot_id ∈ row_names q r →
  ∃ slot', slot_of_row slot_id pairs q = Ok slot' q ∧ slot' ∈ pairs.*1.
Proof.
  induction pairs as [|[s0 r0] pairs IH]; intros Hin Hname;
    [by apply elem_of_nil in Hin|].
  cbn [slot_of_row]. rewrite !bind_gets. fold (row_names q r0).
  unfold Py.contains. destruct (decide (slot_id ∈ row_names q r0)) as [H0|H0].
  - rewrite bool_decide_true by done. exists s0. split; [done|]. by left.
  - rewrite bool_decide_false by done.
    apply elem_of_cons in Hin as [[= -> ->]|Hin]; [done|].
    destruct (IH Hin Hname) as (slot' & -> & Hin'). exists slot'.
    split; [done|]. by right.
Qed.

(** X25: whatever methods are called on a well-formed pipeline whose
    rows carry the cached slot identifiers (a new pipeline is one), and
    whether they return or raise, the rows of the matrix keep carrying
    them: row [i] starts with a dataset that has the [i]-th cached slot
    identifier.  Hence [get_slot], asked for the identifier of a slot of
    the pipeline, returns a slot of the pipeline in every state reached
    that way: its [ValueError] cannot occur for such an identifier. *)
Theorem calls_keep_labels cs p :
  collision_free → wf p → labelled p →
  labelled (after_calls cs p)
  ∧ ∀ slot, slot ∈ slots (after_calls cs p) →
      ∃ slot' q, get_slot (s_identifier slot) (after_calls cs p) = Ok slot' q
                 ∧ slot' ∈ slots (after_calls cs p).
Proof.
  intros Hfree Hwf Hlab.
  assert (sound (after_calls cs p)) as Hsound.
  { induction cs as [|c cs IH] using rev_ind; [done|].
    rewrite after_calls_snoc. by apply after_call_sound. }
  set (p' := after_calls cs p) in *. split; [apply Hsound|].
  intros slot Hin.
  pose proof (keeps_sound_construct_matrix Hfree p' Hsound) as [Hwfq Hlabq].
  pose proof (construct_matrix_returns p' Hfree (proj1 Hsound)) as Hret.
  unfold returns in Hret.
  destruct (construct_matrix p') as [[] q|] eqn:Hq; [|done]. simpl in *.
  destruct Hret as (_ & Hc & Hms & _).
  assert (slots q = slots p') as Hs.
  { unfold configuration in Hc. injection Hc as ? ? ? ? ? ? ?. done. }
  apply list_elem_of_lookup in Hin as [i Hi].
  unfold labelled in Hlabq. rewrite Hms in Hlabq.
  destruct (Forall2_lookup_l _ _ _ i (s_identifier slot) Hlabq) as (r & Hr & Hname).
  { unfold slot_ids. by rewrite list_lookup_fmap, Hi. }
  destruct (slot_of_row_returns (s_identifier slot) (zip (slots q) (matrix q)) q slot r)
    as (slot' & Hrun & Hin').
  - apply list_elem_of_lookup. exists i. unfold zip.
    apply lookup_zip_with_Some. exists slot, r. by rewrite Hs.
  - by apply head_Some_elem_of.
  - exists slot', q. split.
    + unfold get_slot. by rewrite (bind_Ok _ _ _ _ _ Hq), !bind_gets.
    + rewrite <- Hs. apply list_elem_of_fmap in Hin' as ([s' r'] & -> & Hin').
      simpl. by eapply elem_of_zip_l.
Qed.

End labels.

(** * The properties on concrete pipelines *)

#[local] Existing Instance demo_env.

(** C5: the pipeline holds [S1]; adding [S3], whose measurement lacks a
    feature, raises and yet leaves [S3] in the slot list. *)
Lemma add_slot_incompatible_commits_witness :
  let p := Demo.after (Demo.slot Demo.S1) Demo.new in
  slots p = [Demo.S1]
  ∧ get_rtdc_features (s_path Demo.S1) ≠ get_rtdc_features (s_path Demo.S3)
  ∧ ∃ q, add_slot (Some (Instance Demo.S3)) None None p = Raise ValueError q
         ∧ slots q = slots p ++ [Demo.S3]
         ∧ length (slots q) = S (length (slots p))
         ∧ slots_used q = slots_used p ++ ["S3"]
         ∧ element_states q !! "S3" = Some (with_False (filter_ids p) ∅).
Proof.
  intros p.
  assert (slots p = [Demo.S1]) as Hs by reflexivity.
  assert (get_rtdc_features (s_path Demo.S1)
          ≠ get_rtdc_features (s_path Demo.S3)) as Hne by (vm_compute; discriminate).
  split; [exact Hs|]. split; [exact Hne|].
  exact (add_slot_incompatible_commits p (Instance Demo.S3) Demo.S1 [] Hs Hne).
Defined.

(** C6: a plot is added, then a slot: the pair (slot, plot) has no entry. *)
Lemma add_slot_no_plot_entry_witness :
  let p := Demo.after (Demo.plot Demo.P1) Demo.new in
  let q := state_of (add_slot (Some (Instance Demo.S1)) None None p) in
  (Demo.P1 ∈ plots p)
  ∧ (p_identifier Demo.P1 ∉ filter_ids p)
  ∧ Demo.P1 ∈ plots q
  ∧ Demo.S1 ∈ slots q
  ∧ ∃ row, element_states q !! "S1" = Some row
           ∧ (∀ filt, filt ∈ filters q → row !! f_identifier filt = Some false)
           ∧ row !! "P1" = None.
Proof.
  intros p q.
  assert (Demo.P1 ∈ plots p) as Hin by (vm_compute; left).
  assert (p_identifier Demo.P1 ∉ filter_ids p) as Hnf by (vm_compute; apply not_elem_of_nil).
  split; [exact Hin|]. split; [exact Hnf|].
  exact (add_slot_no_plot_entry p (Instance Demo.S1) None Demo.P1 Hin Hnf).
Defined.


(** The remembered state shares its used lists and its enablement
    dictionary with the pipeline: after [add_filter] it no longer equals
    the state that was applied, and applying that state again replays
    it (the added filter is gone). *)
Example setstate_after_add_filter :
  let p1 := Demo.after (__setstate__ Demo.saved) Demo.new in
  let p2 := Demo.after (Demo.filt Demo.F2) p1 in
  old_state_value p2 ≠ Some Demo.saved
  ∧ filters p2 = [Demo.F1; Demo.F2]
  ∧ filters (Demo.after (__setstate__ Demo.saved) p2) = [Demo.F1].
Proof.
  intros p1 p2. split; [|split]; [|vm_compute; reflexivity..].
  vm_compute. discriminate.
Qed.

(** C3: one slot and one filter; after the matrix is built, a second
    call changes nothing, also after the filter's parameters and the
    slot's enablement entry were changed. *)
Lemma construct_matrix_idempotent_witness :
  let p := Demo.after (Demo.filt Demo.F1) (Demo.after (Demo.slot Demo.S1) Demo.new) in
  let q := Demo.after construct_matrix p in
  let q' := Demo.enable "S1" "F1" (set_filters [mkFilter "F1" false 11] q) in
  construct_matrix p = Ok tt q
  ∧ p ≠ q
  ∧ _matrix_hash q = hashobj (slot_ids q) (filter_ids q)
  ∧ construct_matrix q = Ok tt q
  ∧ q' ≠ q
  ∧ construct_matrix q' = Ok tt q'.
Proof.
  intros p q q'.
  assert (construct_matrix p = Ok tt q) as Hq by (vm_compute; reflexivity).
  destruct (proj2 construct_matrix_idempotent p q Hq) as (Hh & Hqq & Hany).
  split; [exact Hq|]. split; [vm_compute; discriminate|].
  split; [exact Hh|]. split; [exact Hqq|]. split; [vm_compute; discriminate|].
  apply Hany; vm_compute; reflexivity.
Defined.

Lemma demo_collision_free : collision_free.
Proof.
  split.
  - intros s f s' f' [= -> ->]. done.
  - done.
Qed.



(** C4, the scenario: [S1] and [S2] expose the same features, [F1] is
    enabled for [S1] only.  The view for [S1] at stage 0 has [F1]'s
    configuration pushed and filtering enabled, the view for [S2] has
    filtering switched off. *)
Lemma get_dataset_stages_witness :
  let p := Demo.scenario in
  get_rtdc_features (s_path Demo.S1) = get_rtdc_features (s_path Demo.S2)
  ∧ wf p
  ∧ slots p = [Demo.S1; Demo.S2]
  ∧ element_states p !! "S1" = Some {[ "F1" := true ]}
  ∧ element_states p !! "S2" = Some {[ "F1" := false ]}
  ∧ (∃ c p', get_dataset 0 0 true false p = Ok (c, None) p'
             ∧ ds_config <$> datasets p' !! c
               = Some {| filtering := Some (f_config Demo.F1);
                         enable_filters := true;
                         overrides := Some (s_config Demo.S1) |})
  ∧ (∃ c p', get_dataset 1 0 true false p = Ok (c, None) p'
             ∧ ds_config <$> datasets p' !! c
               = Some {| filtering := None;
                         enable_filters := false;
                         overrides := Some (s_config Demo.S2) |}).
Proof.
  intros p.
  assert (wf p) as Hwf by (apply (bool_decide_unpack _); by vm_compute).
  assert (∀ fstates : gmap ident bool, is_Some (fstates !! "F1") →
          ∀ filt, filt ∈ take 1 (filters p) →
                  is_Some (fstates !! f_identifier filt)) as Hent.
  { intros fstates Hf filt Hin. vm_compute in Hin.
    apply list_elem_of_singleton in Hin as ->. exact Hf. }
  split; [by vm_compute|]. split; [exact Hwf|].
  split; [by vm_compute|]. split; [by vm_compute|]. split; [by vm_compute|].
  split.
  - destruct (get_dataset_stages p 0 0 true false Demo.S1 {[ "F1" := true ]}
                demo_collision_free Hwf) as (q & r & c & p' & _ & _ & _ & Hget & _);
      [by vm_compute | by vm_compute | vm_compute; lia | by apply Hent |].
    exists c, p'. split; [exact Hget|].
    assert (get_dataset 0 0 true false p
            = Ok (0, None) (Demo.after (get_dataset 0 0 true false) p)) as Hrun
      by (by vm_compute).
    change (Z.of_nat 0) with 0%Z in Hget. rewrite Hrun in Hget.
    injection Hget as <- <-. by vm_compute.
  - destruct (get_dataset_stages p 1 0 true false Demo.S2 {[ "F1" := false ]}
                demo_collision_free Hwf) as (q & r & c & p' & _ & _ & _ & Hget & _);
      [by vm_compute | by vm_compute | vm_compute; lia | by apply Hent |].
    exists c, p'. split; [exact Hget|].
    assert (get_dataset 1 0 true false p
            = Ok (2, None) (Demo.after (get_dataset 1 0 true false) p)) as Hrun
      by (by vm_compute).
    change (Z.of_nat 1) with 1%Z in Hget. change (Z.of_nat 0) with 0%Z in Hget.
    rewrite Hrun in Hget. injection Hget as <- <-. by vm_compute.
Defined.



(** C1 (what the code does): two filters are added and the matrix is
    built, then a slot is added.  The incremental rebuild (first branch)
    and the full rebuild of the same configuration give matrices of the
    same shape, and the views at stage 0 (which [get_features] and
    [get_min_max] read) agree, but the view at stage 1 does not: the
    first branch has applied the slot's overrides to the new raw
    dataset, the third branch never does, and [get_dataset] applies them
    to the returned cell only. *)
Theorem incremental_rebuild_differs :
  let pre := Demo.filters_first in
  let inc := Demo.after construct_matrix pre in
  let full := Demo.after full_rebuild pre in
  construct_matrix pre = Ok tt inc
  ∧ full_rebuild pre = Ok tt full
  ∧ construct_matrix Demo.all_at_once = Ok tt full
  ∧ configuration inc = configuration full
  ∧ matrix inc = matrix full
  ∧ rowobjs inc = rowobjs full
  ∧ (∃ c pi pf,
       get_dataset 0 0 false false inc = Ok (c, None) pi
       ∧ get_dataset 0 0 false false full = Ok (c, None) pf
       ∧ view pi c = view pf c)
  ∧ (∃ c pi pf,
       get_dataset 0 1 true false inc = Ok (c, None) pi
       ∧ get_dataset 0 1 true false full = Ok (c, None) pf
       ∧ (seen_config <$> view pi c) !! 0
         = Some {| filtering := None; enable_filters := false;
                   overrides := Some (s_config Demo.S1) |}
       ∧ (seen_config <$> view pf c) !! 0
         = Some {| filtering := None; enable_filters := false;
                   overrides := None |}
       ∧ view pi c ≠ view pf c).
Proof.
  intros pre inc full.
  split; [by vm_compute|]. split; [by vm_compute|]. split; [by vm_compute|].
  split; [by vm_compute|]. split; [by vm_compute|]. split; [by vm_compute|].
  split.
  - exists 0, (Demo.after (get_dataset 0 0 false false) inc),
      (Demo.after (get_dataset 0 0 false false) full).
    split; [by vm_compute|]. split; by vm_compute.
  - exists 1, (Demo.after (get_dataset 0 1 true false) inc),
      (Demo.after (get_dataset 0 1 true false) full).
    do 4 (split; [by vm_compute|]). vm_compute. discriminate.
Qed.

(** ** Further properties on concrete pipelines *)

(** X1: the pipeline holds [S1] and [S2]; the filter [F1] is added in
    front. *)
Lemma add_filter_returns_witness :
  let p := Demo.after (Demo.slot Demo.S2) Demo.one_slot in
  Forall (λ sid, is_Some (element_states p !! sid)) (slot_ids p)
  ∧ ∃ q, add_filter (Some (Instance Demo.F1)) (Some 0%Z) p = Ok "F1" q
         ∧ filters q = [Demo.F1]
         ∧ filters_used q = ["F1"]
         ∧ element_states q !! "S2" = Some {[ "F1" := false ]}.
Proof.
  intros p.
  assert (Forall (λ sid, is_Some (element_states p !! sid)) (slot_ids p)) as H
    by (apply (bool_decide_unpack _); by vm_compute).
  split; [exact H|].
  destruct (add_filter_returns p (Some (Instance Demo.F1)) (Some 0%Z) H)
    as (q & Hrun & Hf & Hfu & Hes & _).
  exists q. split; [exact Hrun|]. split; [exact Hf|]. split; [exact Hfu|].
  rewrite Hes. by vm_compute.
Defined.

(** X2: the state [Demo.bare] was loaded, which has the slot [S1] and
    no row for it. *)
Lemma add_filter_missing_row_witness :
  let p := Demo.after (__setstate__ Demo.bare) Demo.new in
  ¬ Forall (λ sid, is_Some (element_states p !! sid)) (slot_ids p)
  ∧ ∃ q, add_filter (Some (Instance Demo.F1)) None p = Raise KeyError q
         ∧ filters q = [Demo.F1]
         ∧ filters_used q = [].
Proof.
  intros p.
  assert (¬ Forall (λ sid, is_Some (element_states p !! sid)) (slot_ids p)) as H
    by (apply (bool_decide_unpack _); by vm_compute).
  split; [exact H|].
  destruct (add_filter_missing_row p (Some (Instance Demo.F1)) None H)
    as (q & Hrun & Hf & _ & Hfu).
  exists q. split; [exact Hrun|]. split; [exact Hf|]. exact Hfu.
Defined.

(** X3: the pipeline holds [S1]; a plot is added. *)
Lemma add_plot_returns_witness :
  let p := Demo.one_slot in
  Forall (λ sid, is_Some (element_states p !! sid)) (slot_ids p)
  ∧ ∃ q, add_plot (Some (Instance Demo.P1)) None p = Ok "P1" q
         ∧ plots q = [Demo.P1]
         ∧ element_states q !! "S1" = Some {[ "P1" := false ]}.
Proof.
  intros p.
  assert (Forall (λ sid, is_Some (element_states p !! sid)) (slot_ids p)) as H
    by (apply (bool_decide_unpack _); by vm_compute).
  split; [exact H|].
  destruct (add_plot_returns p (Some (Instance Demo.P1)) None H)
    as (q & Hrun & Hf & Hes & _).
  exists q. split; [exact Hrun|]. split; [exact Hf|].
  rewrite Hes. by vm_compute.
Defined.

(** X6: the pipeline holds the filters [F1] and [F2]; [F1] is removed,
    and an unknown identifier is refused. *)
Lemma remove_filter_outcome_witness :
  let p := Demo.after (Demo.filt Demo.F2) (Demo.after (Demo.filt Demo.F1) Demo.one_slot) in
  ("F3" ∉ filter_ids p)
  ∧ remove_filter "F3" p = Raise ValueError p
  ∧ ("F1" ∈ filter_ids p)
  ∧ ∃ q, remove_filter "F1" p = Ok tt q
         ∧ filter_ids q = ["F2"]
         ∧ filters_used q = ["F2"]
         ∧ element_states q !! "S1" = Some {[ "F2" := false ]}.
Proof.
  intros p.
  assert ("F3" ∉ filter_ids p) as Hn
    by (apply (bool_decide_unpack _); by vm_compute).
  assert ("F1" ∈ filter_ids p) as Hin
    by (apply (bool_decide_unpack _); by vm_compute).
  split; [exact Hn|]. split; [exact (proj1 (remove_filter_outcome p "F3") Hn)|].
  split; [exact Hin|].
  destruct (proj2 (remove_filter_outcome p "F1") Hin)
    as (q & Hrun & Hids & _ & Hfu & Hes & _).
  exists q. split; [exact Hrun|]. split; [by rewrite Hids|].
  split; [by rewrite Hfu|]. rewrite Hes. by vm_compute.
Defined.

(** X7: the pipeline holds the plot [P1]; it is removed, and an
    unknown identifier is refused. *)
Lemma remove_plot_outcome_witness :
  let p := Demo.slot_after_plot in
  ("P2" ∉ plot_ids p)
  ∧ remove_plot "P2" p = Raise ValueError p
  ∧ ("P1" ∈ plot_ids p)
  ∧ ∃ q, remove_plot "P1" p = Ok tt q ∧ plot_ids q = [].
Proof.
  intros p.
  assert ("P2" ∉ plot_ids p) as Hn
    by (apply (bool_decide_unpack _); by vm_compute).
  assert ("P1" ∈ plot_ids p) as Hin
    by (apply (bool_decide_unpack _); by vm_compute).
  split; [exact Hn|]. split; [exact (proj1 (remove_plot_outcome p "P2") Hn)|].
  split; [exact Hin|].
  destruct (proj2 (remove_plot_outcome p "P1") Hin) as (q & Hrun & Hids & _).
  exists q. split; [exact Hrun|]. by rewrite Hids.
Defined.

Lemma one_slot_rows sid row elem :
  element_states Demo.one_slot !! sid = Some row → row !! elem = None.
Proof.
  assert (element_states Demo.one_slot = {[ "S1" := ∅ ]}) as -> by (by vm_compute).
  intros [_ <-]%lookup_singleton_Some. apply lookup_empty.
Qed.

(** X8: the pipeline holds [S1]; the filter [F1] is added in front and
    removed again. *)
Lemma add_remove_filter_witness :
  let p := Demo.one_slot in
  Forall (λ sid, is_Some (element_states p !! sid)) (slot_ids p)
  ∧ ("F1" ∉ filter_ids p)
  ∧ ("F1" ∉ filters_used p)
  ∧ (add_filter (Some (Instance Demo.F1)) (Some 0%Z) ;; remove_filter "F1") p
    = Ok tt p.
Proof.
  intros p.
  assert (Forall (λ sid, is_Some (element_states p !! sid)) (slot_ids p)) as H
    by (apply (bool_decide_unpack _); by vm_compute).
  assert ("F1" ∉ filter_ids p) as H1
    by (apply (bool_decide_unpack _); by vm_compute).
  assert ("F1" ∉ filters_used p) as H2
    by (apply (bool_decide_unpack _); by vm_compute).
  split; [exact H|]. split; [exact H1|]. split; [exact H2|].
  exact (add_remove_filter p (Some (Instance Demo.F1)) (Some 0%Z) H H1 H2
           (λ sid row, one_slot_rows sid row "F1")).
Defined.

(** X9: the same with the plot [P1]. *)
Lemma add_remove_plot_witness :
  let p := Demo.one_slot in
  Forall (λ sid, is_Some (element_states p !! sid)) (slot_ids p)
  ∧ ("P1" ∉ plot_ids p)
  ∧ (add_plot (Some (Instance Demo.P1)) None ;; remove_plot "P1") p = Ok tt p.
Proof.
  intros p.
  assert (Forall (λ sid, is_Some (element_states p !! sid)) (slot_ids p)) as H
    by (apply (bool_decide_unpack _); by vm_compute).
  assert ("P1" ∉ plot_ids p) as H1
    by (apply (bool_decide_unpack _); by vm_compute).
  split; [exact H|]. split; [exact H1|].
  exact (add_remove_plot p (Some (Instance Demo.P1)) None H H1
           (λ sid row, one_slot_rows sid row "P1")).
Defined.

(** X12: a session on a new pipeline in which several calls raise. *)
Lemma calls_keep_wf_witness :
  let p := after_calls Demo.session Demo.new in
  wf Demo.new
  ∧ returned (add_slot (Some (Instance Demo.S3)) None None
                (after_calls (take 3 Demo.session) Demo.new)) = None
  ∧ wf p
  ∧ ∃ q, construct_matrix p = Ok tt q ∧ wf q.
Proof.
  intros p.
  assert (wf Demo.new) as H by (apply (bool_decide_unpack _); by vm_compute).
  split; [exact H|]. split; [by vm_compute|].
  exact (calls_keep_wf Demo.session Demo.new demo_collision_free H).
Defined.

(** X13: the state [Demo.saved] is loaded into a new pipeline. *)
Lemma setstate_getstate_witness :
  let q := Demo.after (__setstate__ Demo.saved) Demo.new in
  old_state_value Demo.new ≠ Some Demo.saved
  ∧ __setstate__ Demo.saved Demo.new = Ok tt q
  ∧ __getstate__ q = Demo.saved
  ∧ old_state_value q = Some Demo.saved
  ∧ analysis q = analysis Demo.new
  ∧ __setstate__ Demo.saved q = Ok tt q.
Proof.
  intros q.
  assert (old_state_value Demo.new ≠ Some Demo.saved) as H1
    by (vm_compute; discriminate).
  assert (__setstate__ Demo.saved Demo.new = Ok tt q) as H2 by (by vm_compute).
  split; [exact H1|]. split; [exact H2|].
  exact (setstate_getstate Demo.saved Demo.new q H1 H2).
Defined.

Lemma saved_compatible : compatible Demo.saved.
Proof. unfold compatible. simpl. constructor. Qed.

Lemma mixed_incompatible : ¬ compatible Demo.mixed.
Proof.
  unfold compatible. simpl. intros [H _]%Forall_cons.
  vm_compute in H. discriminate H.
Qed.

(** X14: [Demo.saved] has one slot state and is accepted, [Demo.mixed]
    has a slot state with fewer features and is not. *)
Lemma setstate_accepts_iff_witness :
  old_state_value Demo.new ≠ Some Demo.saved
  ∧ old_state_value Demo.new ≠ Some Demo.mixed
  ∧ (∃ q, __setstate__ Demo.saved Demo.new = Ok tt q)
  ∧ ¬ (∃ q, __setstate__ Demo.mixed Demo.new = Ok tt q).
Proof.
  assert (old_state_value Demo.new ≠ Some Demo.saved) as H1
    by (vm_compute; discriminate).
  assert (old_state_value Demo.new ≠ Some Demo.mixed) as H2
    by (vm_compute; discriminate).
  split; [exact H1|]. split; [exact H2|]. split.
  - exact (proj2 (setstate_accepts_iff Demo.saved Demo.new H1) saved_compatible).
  - intros H.
    exact (mixed_incompatible (proj1 (setstate_accepts_iff Demo.mixed Demo.new H2) H)).
Defined.

(** X15: [Demo.mixed] is refused at its second slot state, [S3]; the
    third one is never added, and the second call is a no-op. *)
Lemma setstate_failure_witness :
  old_state_value Demo.new ≠ Some Demo.mixed
  ∧ ¬ compatible Demo.mixed
  ∧ ∃ q, __setstate__ Demo.mixed Demo.new = Raise ValueError q
         ∧ slots q = [Demo.S1; Demo.S3]
         ∧ filters q = [Demo.F1]
         ∧ __getstate__ q ≠ Demo.mixed
         ∧ __setstate__ Demo.mixed q = Ok tt q.
Proof.
  assert (old_state_value Demo.new ≠ Some Demo.mixed) as H1
    by (vm_compute; discriminate).
  split; [exact H1|]. split; [exact mixed_incompatible|].
  destruct (setstate_failure Demo.mixed Demo.new H1 mixed_incompatible)
    as (q & k & s0 & s & Hrun & _ & _ & _ & Hf & _ & _ & _ & _ & Hagain).
  exists q. split; [exact Hrun|].
  assert (__setstate__ Demo.mixed Demo.new
          = Raise ValueError (Demo.after (__setstate__ Demo.mixed) Demo.new)) as E
    by (by vm_compute).
  rewrite E in Hrun. injection Hrun as <-.
  split; [by vm_compute|]. split; [by vm_compute|].
  split; [vm_compute; discriminate|]. exact Hagain.
Defined.

Lemma session_loads_complete : Forall loads_complete Demo.session.
Proof.
  unfold Demo.session.
  repeat first [apply Forall_nil_2 | apply Forall_cons_2; [try exact I|]].
  vm_compute. by eexists.
Qed.

(** X16: the same session: every slot has a row at the end, and a
    filter or a plot can be added. *)
Lemma calls_keep_rows_witness :
  let p := after_calls Demo.session Demo.new in
  rows_ok Demo.new
  ∧ Forall loads_complete Demo.session
  ∧ rows_ok p
  ∧ is_Some (returned (add_filter None None p))
  ∧ is_Some (returned (add_plot None None p)).
Proof.
  intros p.
  assert (rows_ok Demo.new) as H by constructor.
  split; [exact H|]. split; [exact session_loads_complete|].
  destruct (calls_keep_rows Demo.session Demo.new H session_loads_complete)
    as (Hr & Hf & Hp).
  split; [exact Hr|]. split; [apply Hf|apply Hp].
Defined.

(** X17: two filters and a slot were added to a new pipeline: the
    matrix is built from nothing. *)
Lemma construct_matrix_rebuilds_witness :
  let p := Demo.all_at_once in
  _matrix_hash p ≠ hashobj (slot_ids p) (filter_ids p)
  ∧ _matrix_filters p ≠ filter_ids p
  ∧ ∃ q, construct_matrix p = Ok tt q
         ∧ matrix q = [0]
         ∧ row_cells 0 q = [0; 1; 2]
         ∧ datasets q !! 0 = Some (raw_dataset Demo.S1)
         ∧ chained_on (datasets q) 0 [1; 2].
Proof.
  intros p.
  assert (_matrix_hash p ≠ hashobj (slot_ids p) (filter_ids p)) as H1
    by (vm_compute; discriminate).
  assert (_matrix_filters p ≠ filter_ids p) as H2 by (vm_compute; discriminate).
  split; [exact H1|]. split; [exact H2|].
  destruct (construct_matrix_rebuilds p H1 H2) as (q & Hrun & Hm & _ & _ & Hrows).
  { intros [H _]. vm_compute in H. discriminate H. }
  exists q. split; [exact Hrun|]. split; [exact Hm|].
  exact (Hrows 0 Demo.S1 eq_refl).
Defined.


(** X19: the pipeline holds the slot [S1] and no filter: the call that
    [get_features] and [get_min_max] make does not return. *)
Lemma get_dataset_beyond_filters_witness :
  let p := Demo.one_slot in
  (Z.of_nat (num_filters p) ≤ 0)%Z
  ∧ returned (get_dataset 0 0 false false p) = None.
Proof.
  intros p.
  assert (Z.of_nat (num_filters p) ≤ 0)%Z as H by (by vm_compute).
  split; [exact H|]. exact (get_dataset_beyond_filters p 0 0 false false H).
Defined.

(** X20: on the same pipeline the exception is [IndexError]. *)
Lemma get_dataset_beyond_filters_raises_witness :
  let p := Demo.one_slot in
  wf p
  ∧ slots p !! 0 = Some Demo.S1
  ∧ element_states p !! "S1" = Some ∅
  ∧ num_filters p ≤ 0
  ∧ ∃ q, get_dataset 0 0 false false p = Raise IndexError q.
Proof.
  intros p.
  assert (wf p) as Hwf by (apply (bool_decide_unpack _); by vm_compute).
  assert (slots p !! 0 = Some Demo.S1) as H1 by (by vm_compute).
  assert (element_states p !! "S1" = Some ∅) as H2 by (by vm_compute).
  assert (num_filters p ≤ 0) as H3 by (vm_compute; lia).
  split; [exact Hwf|]. split; [exact H1|]. split; [exact H2|]. split; [exact H3|].
  destruct (get_dataset_beyond_filters_raises p 0 0 false false Demo.S1 ∅
              demo_collision_free Hwf H1 H2) as (q & r & _ & _ & Hrun);
    [by intros filt ?%elem_of_nil | exact H3 |].
  eexists. exact Hrun.
Defined.

(** X21: on the same pipeline the filter index [-1] gives the raw
    dataset, with the settings of [S1] applied. *)
Lemma get_dataset_last_cell_witness :
  let p := Demo.one_slot in
  wf p
  ∧ slots p !! 0 = Some Demo.S1
  ∧ element_states p !! "S1" = Some ∅
  ∧ ∃ c p', get_dataset 0 (-1) false true p = Ok (c, Some "red") p'
            ∧ ds_config <$> datasets p' !! c
              = Some {| filtering := None; enable_filters := true;
                        overrides := Some (s_config Demo.S1) |}.
Proof.
  intros p.
  assert (wf p) as Hwf by (apply (bool_decide_unpack _); by vm_compute).
  assert (slots p !! 0 = Some Demo.S1) as H1 by (by vm_compute).
  assert (element_states p !! "S1" = Some ∅) as H2 by (by vm_compute).
  split; [exact Hwf|]. split; [exact H1|]. split; [exact H2|].
  destruct (get_dataset_last_cell p 0 false true Demo.S1 ∅
              demo_collision_free Hwf H1 H2) as (q & r & c & _ & _ & _ & Hrun).
  eexists c, _. split; [exact Hrun|].
  assert (get_dataset 0 (-1) false true p
          = Ok (0, Some "red") (Demo.after (get_dataset 0 (-1) false true) p)) as E
    by (by vm_compute).
  change (Z.of_nat 0) with 0%Z in Hrun. rewrite E in Hrun.
  apply (f_equal (λ r, match r with
                       | Ok (c, _) s => ds_config <$> datasets s !! c
                       | Raise _ _ => None
                       end)) in Hrun.
  cbv beta iota in Hrun. rewrite <- Hrun. by vm_compute.
Defined.

(** X22: the plot [P1] was added before the slot [S1]. *)
Lemma get_plot_datasets_missing_entry_witness :
  let p := Demo.slot_after_plot in
  (Demo.S1 ∈ slots p)
  ∧ element_states p !! "S1" ≫= (.!! "P1") = None
  ∧ returned (get_plot_datasets "P1" p) = None
  ∧ get_plot_datasets "P1" p = Raise KeyError p.
Proof.
  intros p.
  assert (Demo.S1 ∈ slots p) as H1 by (vm_compute; left).
  assert (element_states p !! s_identifier Demo.S1 ≫= (.!! "P1") = None) as H2
    by (by vm_compute).
  split; [exact H1|]. split; [exact H2|].
  destruct (get_plot_datasets_missing_entry p "P1" Demo.S1 H1 H2) as [Hnone Hfirst].
  split; [exact Hnone|]. apply Hfirst. by vm_compute.
Defined.

(** X23: the pipeline holds the plot [P1]; the slot [S1] is added. *)
Lemma add_slot_blocks_plots_witness :
  let p := Demo.after (Demo.plot Demo.P1) Demo.new in
  ("P1" ∉ filter_ids p)
  ∧ returned (add_slot (Some (Instance Demo.S1)) None None p) = Some "S1"
  ∧ returned (get_plot_datasets "P1"
                (state_of (add_slot (Some (Instance Demo.S1)) None None p))) = None.
Proof.
  intros p.
  assert ("P1" ∉ filter_ids p) as H
    by (apply (bool_decide_unpack _); by vm_compute).
  split; [exact H|]. split; [by vm_compute|].
  exact (add_slot_blocks_plots p (Instance Demo.S1) None "P1" H).
Defined.

(** X24: two slots and one filter: [get_slot] finds [S2] by the
    identifier of its raw dataset, and refuses an unknown identifier. *)
Lemma get_slot_outcome_witness :
  let p := Demo.after (Demo.filt Demo.F1)
             (Demo.after (Demo.slot Demo.S2) Demo.one_slot) in
  wf p
  ∧ ∃ q, construct_matrix p = Ok tt q
         ∧ get_slot "S2" p = Ok Demo.S2 q
         ∧ get_slot "S4" p = Raise ValueError q.
Proof.
  intros p.
  assert (wf p) as Hwf by (apply (bool_decide_unpack _); by vm_compute).
  split; [exact Hwf|].
  destruct (get_slot_outcome p "S2" demo_collision_free Hwf) as (q & Hq & _ & Hok).
  destruct (get_slot_outcome p "S4" demo_collision_free Hwf) as (q' & Hq' & Hno & _).
  assert (construct_matrix p = Ok tt (Demo.after construct_matrix p)) as E
    by (by vm_compute).
  rewrite E in Hq, Hq'. injection Hq as <-. injection Hq' as <-.
  exists (Demo.after construct_matrix p). split; [exact E|]. split.
  - apply (Hok 1 Demo.S2 1); [by vm_compute|by vm_compute| |].
    + apply (bool_decide_unpack _). by vm_compute.
    + intros j r' Hj Hr'. assert (j = 0) as -> by lia.
      assert (r' = 0) as -> by (vm_compute in Hr'; by injection Hr').
      apply (bool_decide_unpack _). by vm_compute.
  - apply Hno. intros r Hr.
    assert (matrix (Demo.after construct_matrix p) = [0; 1]) as Em by (by vm_compute).
    rewrite Em in Hr.
    apply elem_of_cons in Hr as [->|Hr];
      [apply (bool_decide_unpack _); by vm_compute|].
    apply list_elem_of_singleton in Hr as ->.
    apply (bool_decide_unpack _). by vm_compute.
Defined.

(** X25: the same session: at its end the pipeline holds [S2], and
    [get_slot] finds it. *)
Lemma calls_keep_labels_witness :
  let p := after_calls Demo.session Demo.new in
  wf Demo.new
  ∧ labelled Demo.new
  ∧ (Demo.S2 ∈ slots p)
  ∧ labelled p
  ∧ ∃ slot' q, get_slot "S2" p = Ok slot' q ∧ slot' ∈ slots p.
Proof.
  intros p.
  assert (wf Demo.new) as Hwf by (apply (bool_decide_unpack _); by vm_compute).
  assert (labelled Demo.new) as Hlab by constructor.
  assert (Demo.S2 ∈ slots p) as Hin by (vm_compute; left).
  split; [exact Hwf|]. split; [exact Hlab|]. split; [exact Hin|].
  destruct (calls_keep_labels Demo.session Demo.new demo_collision_free Hwf Hlab)
    as [Hl Hget].
  split; [exact Hl|]. exact (Hget Demo.S2 Hin).
Defined.
